(** * shinerainsoftsevenutil.files: transfer, traversal and hashing

    A shallow embedding of the three engines of
    [src/shinerainsoftsevenutil/files]:
    - [m1_files_wrappers.py]: [getExt], [makeDirs], [copy], [move] and the
      per-platform helpers [_copyFileWin], [_moveFileWin], [_copyFilePosix];
    - [m2_files_listing.py]: [recurseFiles], [recurseDirs], [recurseFileInfo];
    - [m3_files_higher.py]: [hasherFromString], [computeHashBytes],
      [computeHash], [_computeHashImpl].

    Python exceptions are values of [exn]; a call that may raise returns a
    [result].  The file system is a finite map from path strings to nodes;
    paths are taken to be canonical (one string per file: no symbolic or hard
    links, no [.] or [..] components), so that Python's string comparison
    [srcFile == destFile] identifies files. *)

From stdpp Require Import gmap strings list fin_maps sorting.
From Stdlib Require Import ZArith Lia Strings.Byte Ascii.

Set Warnings "-register-all".

Local Open Scope string_scope.
Local Open Scope list_scope.
Local Open Scope Z_scope.

(** ** Exceptions and results *)

(** The exception classes the modelled code raises or lets through.
    [OSFileRelatedError] is the module's own subclass of [OSError];
    [OSError] stands for the built-in family, identified by errno
    (2 [FileNotFoundError], 17 [FileExistsError], 18 cross-device link,
    21 [IsADirectoryError], 5 input/output error, ...). *)
Inductive exn : Type :=
| OSFileRelatedError (msg : string)
| WinApiError (api : string) (err : Z)
| OSError (errno : Z)
| ValueError (msg : string)
| TypeError (msg : string)
| AssertionError (msg : string)
| ImportError (module : string)
| RuntimeError (msg : string).

(** [isinstance(e, OSError)].  [WinApiError api err] is the
    [OSFileRelatedError] that [_copyFileWin] and [_moveFileWin] raise, with
    the formatted text kept as its two varying parts. *)
Definition isinstance_OSError (e : exn) : bool :=
  match e with
  | OSFileRelatedError _ | WinApiError _ _ | OSError _ => true
  | _ => false
  end.

Inductive result (A : Type) : Type :=
| Ok (a : A)
| Raise (e : exn).
Arguments Ok {A} a.
Arguments Raise {A} e.

Definition is_ok {A} (r : result A) : bool :=
  match r with Ok _ => true | Raise _ => false end.

(** ** Bytes and formatting *)

Definition bytes := list byte.

Definition byte_val (b : byte) : Z := Z.of_N (Byte.to_N b).

Definition hex_digit (d : Z) : ascii :=
  if d <? 10 then ascii_of_nat (Z.to_nat (48 + d))
  else ascii_of_nat (Z.to_nat (87 + d)).

(** The [width] low hexadecimal digits of [n], most significant first. *)
Fixpoint hex_fixed (width : nat) (n : Z) (acc : string) : string :=
  match width with
  | O => acc
  | S w => hex_fixed w (Z.shiftr n 4) (String (hex_digit (Z.land n 15)) acc)
  end.

(** Number of hexadecimal digits of a non-negative [n] (one for zero). *)
Definition hex_len (n : Z) : nat :=
  if n <=? 0 then 1%nat else Z.to_nat (Z.log2 n / 4 + 1).

(** ['%08x' % n] for a non-negative [n]: lower-case hexadecimal, padded with
    zeros to at least eight digits. *)
Definition format_08x (n : Z) : string :=
  hex_fixed (Nat.max 8 (hex_len n)) n "".

(** ** zlib.crc32 *)

Definition mask32 : Z := 0xffffffff.

Definition crc32_shift (c : Z) : Z :=
  if Z.testbit c 0 then Z.lxor (Z.shiftr c 1) 0xEDB88320 else Z.shiftr c 1.

Definition crc32_byte (c : Z) (b : byte) : Z :=
  Nat.iter 8 crc32_shift (Z.lxor c (byte_val b)).

(** [zlib.crc32(data, value)]: the running checksum [value] is complemented,
    pushed through the reflected CRC-32 register byte by byte and
    complemented again. *)
Definition zlib_crc32 (data : bytes) (value : Z) : Z :=
  Z.lxor (fold_left crc32_byte data (Z.lxor (Z.land value mask32) mask32)) mask32.

(** ** hashlib.sha256 (FIPS 180-4) *)

Module Sha256.

Definition wrap (x : Z) : Z := Z.land x mask32.

Definition rotr (n x : Z) : Z :=
  Z.lor (Z.shiftr x n) (wrap (Z.shiftl x (32 - n))).

Definition ch (x y z : Z) : Z :=
  Z.lxor (Z.land x y) (Z.land (Z.lxor x mask32) z).
Definition maj (x y z : Z) : Z :=
  Z.lxor (Z.lxor (Z.land x y) (Z.land x z)) (Z.land y z).
Definition big0 (x : Z) : Z := Z.lxor (Z.lxor (rotr 2 x) (rotr 13 x)) (rotr 22 x).
Definition big1 (x : Z) : Z := Z.lxor (Z.lxor (rotr 6 x) (rotr 11 x)) (rotr 25 x).
Definition small0 (x : Z) : Z := Z.lxor (Z.lxor (rotr 7 x) (rotr 18 x)) (Z.shiftr x 3).
Definition small1 (x : Z) : Z := Z.lxor (Z.lxor (rotr 17 x) (rotr 19 x)) (Z.shiftr x 10).

(** The constants are the fractional bits of square and cube roots of the
    first primes; they are computed rather than tabulated. *)
Definition is_prime (n : nat) : bool :=
  forallb (fun d => negb (Nat.eqb (n mod d) 0)) (seq 2 (n - 2)).

Definition primes64 : list Z :=
  map Z.of_nat (firstn 64 (filter is_prime (seq 2 400))).

(** Largest [r] below [2^bits] on top of [r0] with [r^3 <= n]. *)
Fixpoint cube_root_bits (bits : nat) (n r : Z) : Z :=
  match bits with
  | O => r
  | S b =>
      let r' := r + Z.shiftl 1 (Z.of_nat b) in
      cube_root_bits b n (if r' * r' * r' <=? n then r' else r)
  end.

Definition round_constants : list Z := Eval vm_compute in
    map (fun p => wrap (cube_root_bits 36 (Z.shiftl p 96) 0)) primes64.

Definition initial_state : list Z := Eval vm_compute in
    map (fun p => wrap (Z.sqrt (Z.shiftl p 64))) (firstn 8 primes64).

(** Big-endian encoding of [n] on [len] bytes, as values. *)
Fixpoint be_bytes (len : nat) (n : Z) (acc : list Z) : list Z :=
  match len with
  | O => acc
  | S l => be_bytes l (Z.shiftr n 8) (Z.land n 255 :: acc)
  end.

Definition pad (msg : list Z) : list Z :=
  let len := Z.of_nat (length msg) in
  let zeros := Z.to_nat ((55 - len) mod 64) in
  msg ++ 128 :: repeat 0 zeros ++ be_bytes 8 (8 * len) [].

Fixpoint be_words (n : nat) (bs : list Z) : list Z :=
  match n, bs with
  | S n', a :: b :: c :: d :: rest =>
      (Z.shiftl a 24 + Z.shiftl b 16 + Z.shiftl c 8 + d) :: be_words n' rest
  | _, _ => []
  end.

Definition at_ (l : list Z) (i : nat) : Z := nth i l 0.

(** Message schedule: extends the sixteen block words to sixty-four. *)
Fixpoint schedule (n : nat) (w : list Z) : list Z :=
  match n with
  | O => w
  | S n' =>
      let t := length w in
      schedule n'
        (w ++ [wrap (small1 (at_ w (t - 2)) + at_ w (t - 7)
                     + small0 (at_ w (t - 15)) + at_ w (t - 16))])
  end.

Definition round (st : list Z) (kw : Z * Z) : list Z :=
  match st with
  | [a; b; c; d; e; f; g; h] =>
      let t1 := h + big1 e + ch e f g + fst kw + snd kw in
      let t2 := big0 a + maj a b c in
      [wrap (t1 + t2); a; b; c; wrap (d + t1); e; f; g]
  | _ => st
  end.

Definition compress (st : list Z) (block : list Z) : list Z :=
  let w := schedule 48 (be_words 16 block) in
  let st' := fold_left round (combine round_constants w) st in
  map (fun p => wrap (fst p + snd p)) (combine st st').

Fixpoint blocks (n : nat) (st : list Z) (bs : list Z) : list Z :=
  match n with
  | O => st
  | S n' => blocks n' (compress st (firstn 64 bs)) (skipn 64 bs)
  end.

Definition digest_words (data : bytes) : list Z :=
  let padded := pad (map byte_val data) in
  blocks (length padded / 64) initial_state padded.

Definition hexdigest (data : bytes) : string :=
  fold_right (fun w acc => hex_fixed 8 w acc) "" (digest_words data).

End Sha256.

Arguments Sha256.hexdigest : simpl never.
Arguments zlib_crc32 : simpl never.
Arguments format_08x : simpl never.

(** ** File system *)

(** A path names a regular file, with its content and modification time in
    nanoseconds, or a directory.  The children of a directory are the paths
    below it. *)
Inductive node : Type :=
| File (content : bytes) (mtime : Z)
| Dir.

Abbreviation fsmap := (gmap string node).

(** ** HashEngine ([m3_files_higher.py]) *)

(** The constructors [hasherFromString] dispatches to. *)
Inductive hash_alg : Type :=
| SHA1 | SHA224 | SHA256 | SHA384 | SHA512 | BLAKE2B | BLAKE2S | MD5
| SHA3_224 | SHA3_256 | SHA3_384 | SHA3_512 | SHAKE_128 | SHAKE_256
| XXH32 | XXH64.

(** A [hashlib] (or [xxhash]) accumulator: its algorithm and the bytes fed
    to [update] so far, in order.  The library's contract is that repeated
    [update] calls are equivalent to one call on the concatenation. *)
Record hasher : Type := { h_alg : hash_alg; h_fed : bytes }.

Definition hasher_new (a : hash_alg) : hasher := {| h_alg := a; h_fed := [] |}.

Definition hasher_update (h : hasher) (buffer : bytes) : hasher :=
  {| h_alg := h_alg h; h_fed := h_fed h ++ buffer |}.

(** The third-party [crc64iso] module, which is not among the sources:
    its functions [crc64_pair(bytes, crc_pair)] and
    [format_crc64_pair(crc_pair)] are the fields of this record, and what
    is proved holds for every implementation of them.  Either may raise:
    the code hands [None] to the first as the running pair of the first
    chunk, and to the second when nothing was read. *)
Record crc64_module : Type := {
  crc64_pair : bytes -> option (Z * Z) -> result (Z * Z);
  format_crc64_pair : option (Z * Z) -> result string
}.

(** What the modelled code sees of the I/O it performs: [open] calls (also
    failed ones), [read] calls with the requested size and the number of
    bytes obtained, and the close at the end of a [with] block. *)
Inductive io_event : Type :=
| IoOpen (path : string)
| IoRead (requested : Z) (got : nat)
| IoClose (path : string).

(** The two binary streams [_computeHashImpl] is called with: the
    [io.BufferedReader] that [open(path, 'rb')] returns, and an
    [io.BytesIO]. *)
Inductive stream : Type := BufferedReader | BytesIO.

(** [f.read(n)] on a stream whose unread content is [rest]: up to [n]
    bytes for [0 <= n], and everything for [n = -1].  For [n < -1] a
    [BytesIO] returns everything as well, while a [BufferedReader] raises
    [ValueError] before it reads anything. *)
Definition file_read (f : stream) (n : Z) (rest : bytes) : result (bytes * bytes) :=
  if 0 <=? n then Ok (take (Z.to_nat n) rest, drop (Z.to_nat n) rest)
  else
    match f with
    | BytesIO => Ok (rest, [])
    | BufferedReader =>
        if n =? -1 then Ok (rest, [])
        else Raise (ValueError "read length must be non-negative or -1")
    end.

(** The loop the three branches of [_computeHashImpl] share:
[[
    while True:
        buffer = f.read(buffersize)
        if not buffer:
            break
        acc = step(acc, buffer)
]]
    It ends with the first empty [read], or with the exception that
    [read] or [step] raises; a [read] that is refused obtains nothing
    and leaves no event.  Each turn that does not end it consumes at
    least one byte, so [S (length rest)] turns are enough; [read_all]
    below starts with that. *)
Fixpoint read_loop {S : Type} (fuel : nat) (f : stream) (step : S -> bytes -> result S)
    (buffersize : Z) (rest : bytes) (acc : S) : result S * list io_event :=
  match fuel with
  | O => (Ok acc, [])
  | Datatypes.S fuel' =>
      match file_read f buffersize rest with
      | Raise e => (Raise e, [])
      | Ok (buffer, rest') =>
          match buffer with
          | [] => (Ok acc, [IoRead buffersize 0])
          | _ :: _ =>
              match step acc buffer with
              | Raise e => (Raise e, [IoRead buffersize (length buffer)])
              | Ok acc' =>
                  let '(r, tr) := read_loop fuel' f step buffersize rest' acc' in
                  (r, IoRead buffersize (length buffer) :: tr)
              end
          end
      end
  end.

Definition read_all {S : Type} (f : stream) (step : S -> bytes -> result S)
    (buffersize : Z) (unread : bytes) (acc : S) : result S * list io_event :=
  read_loop (Datatypes.S (length unread)) f step buffersize unread acc.

(** The [hasher] argument: an algorithm name or an accumulator object. *)
Inductive hasher_arg : Type :=
| ByName (s : string)
| ByObject (h : hasher).

Definition is_name (a : hasher_arg) (s : string) : bool :=
  match a with ByName s' => String.eqb s' s | ByObject _ => false end.

Definition defaultBufSize : Z := 0x40000.

Section HashEngine.

(** [hexdigest()] of the accumulators other than SHA-256 (which is
    implemented above) and the SHAKE ones (see [hasher_hexdigest]). *)
Variable lib_hexdigest : hash_alg -> bytes -> string.
(** Whether [import xxhash] succeeds, and the [crc64iso] module if it is
    installed. *)
Variable xxhash_installed : bool.
Variable crc64iso : option crc64_module.

(** [hasher.hexdigest()], called without argument.  The two SHAKE
    accumulators are extendable-output functions: their [hexdigest]
    takes a required [length], so the call raises [TypeError]. *)
Definition hasher_hexdigest (h : hasher) : result string :=
  match h_alg h with
  | SHAKE_128 | SHAKE_256 =>
      Raise (TypeError "hexdigest() missing required argument 'length' (pos 1)")
  | SHA256 => Ok (Sha256.hexdigest (h_fed h))
  | a => Ok (lib_hexdigest a (h_fed h))
  end.

Definition import_xxhash (a : hash_alg) : result hasher :=
  if xxhash_installed then Ok (hasher_new a) else Raise (ImportError "xxhash").

Definition hasherFromString (s : string) : result hasher :=
  if String.eqb s "sha1" then Ok (hasher_new SHA1)
  else if String.eqb s "sha224" then Ok (hasher_new SHA224)
  else if String.eqb s "sha256" then Ok (hasher_new SHA256)
  else if String.eqb s "sha384" then Ok (hasher_new SHA384)
  else if String.eqb s "sha512" then Ok (hasher_new SHA512)
  else if String.eqb s "blake2b" then Ok (hasher_new BLAKE2B)
  else if String.eqb s "blake2s" then Ok (hasher_new BLAKE2S)
  else if String.eqb s "md5" then Ok (hasher_new MD5)
  else if String.eqb s "sha3_224" then Ok (hasher_new SHA3_224)
  else if String.eqb s "sha3_256" then Ok (hasher_new SHA3_256)
  else if String.eqb s "sha3_384" then Ok (hasher_new SHA3_384)
  else if String.eqb s "sha3_512" then Ok (hasher_new SHA3_512)
  else if String.eqb s "shake_128" then Ok (hasher_new SHAKE_128)
  else if String.eqb s "shake_256" then Ok (hasher_new SHAKE_256)
  else if String.eqb s "xxhash_32" then import_xxhash XXH32
  else if String.eqb s "xxhash_64" then import_xxhash XXH64
  else Raise (ValueError ("Unknown hash type " +:+ s)).

(** The accumulator steps of the three branches.  [zlib.crc32] and
    [hasher.update] take every chunk; [crc64_pair] may raise. *)
Definition crc32_step (crc : Z) (buffer : bytes) : result Z :=
  Ok (zlib_crc32 buffer crc).

Definition crc64_step (m : crc64_module) (cur : option (Z * Z)) (buffer : bytes)
    : result (option (Z * Z)) :=
  match crc64_pair m buffer cur with
  | Ok crc_pair => Ok (Some crc_pair)
  | Raise e => Raise e
  end.

Definition update_step (h : hasher) (buffer : bytes) : result hasher :=
  Ok (hasher_update h buffer).

(** [_computeHashImpl(f, hasher, buffersize)], with [f] the kind of the
    open file object and [unread] its unread content.  Returns the reads
    performed and the outcome. *)
Definition _computeHashImpl (f : stream) (unread : bytes) (hasher : hasher_arg)
    (buffersize : Z) : list io_event * result string :=
  if is_name hasher "crc32" then
    let crc := zlib_crc32 [] 0 in
    match read_all f crc32_step buffersize unread crc with
    | (Raise e, tr) => (tr, Raise e)
    | (Ok crc, tr) =>
        let crc := Z.land crc mask32 in
        (tr, Ok (format_08x crc))
    end
  else if is_name hasher "crc64" then
    match crc64iso with
    | None =>
        ([], Raise (AssertionError
           "To use this feature, you must install the crc64iso module."))
    | Some m =>
        match read_all f (crc64_step m) buffersize unread None with
        | (Raise e, tr) => (tr, Raise e)
        | (Ok cur, tr) => (tr, format_crc64_pair m cur)
        end
    end
  else
    match (match hasher with
           | ByName s => hasherFromString s
           | ByObject h => Ok h
           end) with
    | Raise e => ([], Raise e)
    | Ok h =>
        match read_all f update_step buffersize unread h with
        | (Raise e, tr) => (tr, Raise e)
        | (Ok h, tr) => (tr, hasher_hexdigest h)
        end
    end.

(** [computeHashBytes(b, hasher, buffersize)]: the source is an in-memory
    [io.BytesIO], so only the outcome is kept. *)
Definition computeHashBytes (b : bytes) (hasher : hasher_arg) (buffersize : Z)
    : result string :=
  snd (_computeHashImpl BytesIO b hasher buffersize).

(** [computeHash(path, hasher, buffersize)]: [open(path, 'rb')] comes
    first and raises for a missing path (errno 2) or a directory
    (errno 21); the [with] block closes the file on every way out. *)
Definition computeHash (fs : fsmap) (path : string) (hasher : hasher_arg)
    (buffersize : Z) : list io_event * result string :=
  match fs !! path with
  | None => ([IoOpen path], Raise (OSError 2))
  | Some Dir => ([IoOpen path], Raise (OSError 21))
  | Some (File content _) =>
      let '(tr, r) := _computeHashImpl BufferedReader content hasher buffersize in
      (IoOpen path :: tr ++ [IoClose path], r)
  end.

(** The digest as the specification describes it: a function of the
    algorithm and of all the bytes of the input, taken at once. *)
Definition digest_of_bytes (data : bytes) (hasher : hasher_arg) : result string :=
  if is_name hasher "crc32" then
    Ok (format_08x (Z.land (zlib_crc32 data 0) mask32))
  else if is_name hasher "crc64" then
    match crc64iso with
    | None =>
        Raise (AssertionError
          "To use this feature, you must install the crc64iso module.")
    | Some m =>
        match data with
        | [] => format_crc64_pair m None
        | _ :: _ =>
            match crc64_pair m data None with
            | Ok crc_pair => format_crc64_pair m (Some crc_pair)
            | Raise e => Raise e
            end
        end
    end
  else
    match (match hasher with
           | ByName s => hasherFromString s
           | ByObject h => Ok h
           end) with
    | Raise e => Raise e
    | Ok h => hasher_hexdigest (hasher_update h data)
    end.

(** The identifiers [_computeHashImpl] accepts. *)
Definition supported_name (s : string) : bool :=
  String.eqb s "crc32" || String.eqb s "crc64" ||
  match hasherFromString s with Raise (ValueError _) => false | _ => true end.

End HashEngine.

(** ** PathUtil ([m1_files_wrappers.py]) *)

(** [sys.platform], as far as the code looks at it: it starts with ['win'],
    with ['linux'], or with neither. *)
Inductive sys_platform : Type := Win32 | Linux | Darwin.

Definition is_win (plat : sys_platform) : bool :=
  match plat with Win32 => true | _ => false end.

Definition is_linux (plat : sys_platform) : bool :=
  match plat with Linux => true | _ => false end.

(** [os.path.sep], and the characters [os.path] splits at (on Windows both
    slashes; drive and UNC prefixes are outside the model). *)
Definition os_sep (plat : sys_platform) : string :=
  if is_win plat then "\" else "/".

Definition is_sep (plat : sys_platform) (c : ascii) : bool :=
  Ascii.eqb c "/" || (is_win plat && Ascii.eqb c "\").

Fixpoint rfind_from (test : ascii -> bool) (s : string) (i found : Z) : Z :=
  match s with
  | EmptyString => found
  | String c s' => rfind_from test s' (i + 1) (if test c then i else found)
  end.

(** [s.rfind(...)]: index of the last character passing [test], or [-1]. *)
Definition rfind (test : ascii -> bool) (s : string) : Z := rfind_from test s 0 (-1).

(** The slices [s[:k]] and [s[k:]] for [0 <= k]. *)
Definition slice_to (k : Z) (s : string) : string := String.substring 0 (Z.to_nat k) s.
Definition slice_from (k : Z) (s : string) : string :=
  String.substring (Z.to_nat k) (String.length s - Z.to_nat k) s.

Definition char_is (s : string) (i : Z) (c : ascii) : bool :=
  match String.get (Z.to_nat i) s with
  | Some c' => Ascii.eqb c' c
  | None => false
  end.

Fixpoint str_forallb (test : ascii -> bool) (s : string) : bool :=
  match s with
  | EmptyString => true
  | String c s' => test c && str_forallb test s'
  end.

(** [s.rstrip(sep)] for the separators of the platform. *)
Definition rstrip_sep (plat : sys_platform) (s : string) : string :=
  String.rev
    ((fix strip (r : string) : string :=
        match r with
        | String c r' => if is_sep plat c then strip r' else r
        | EmptyString => EmptyString
        end) (String.rev s)).

(** [os.path.split]: the path up to the last separator, without trailing
    separators unless it consists of separators only, and the rest. *)
Definition os_path_split (plat : sys_platform) (p : string) : string * string :=
  let i := rfind (is_sep plat) p + 1 in
  let head := slice_to i p in
  let tail := slice_from i p in
  if negb (String.eqb head "") && negb (str_forallb (is_sep plat) head)
  then (rstrip_sep plat head, tail)
  else (head, tail).

(** [os.path.splitext]: the extension starts at the last dot of the last
    component, unless only dots precede it there. *)
Definition splitExt (plat : sys_platform) (p : string) : string * string :=
  let sepIndex := rfind (is_sep plat) p in
  let dotIndex := rfind (Ascii.eqb ".") p in
  if sepIndex <? dotIndex then
    if existsb (fun j => negb (char_is p j "."))
               (seqZ (sepIndex + 1) (dotIndex - sepIndex - 1))
    then (slice_to dotIndex p, slice_from dotIndex p)
    else (p, "")
  else (p, "").

(** [os.path.join] of two components. *)
Definition join (plat : sys_platform) (a b : string) : string :=
  match b with
  | String c _ =>
      if is_sep plat c then b
      else if String.eqb a "" || char_is a (Z.of_nat (String.length a) - 1) "/"
              || (is_win plat && char_is a (Z.of_nat (String.length a) - 1) "\")
           then a +:+ b
           else a +:+ os_sep plat +:+ b
  | EmptyString =>
      if String.eqb a "" || char_is a (Z.of_nat (String.length a) - 1) "/"
         || (is_win plat && char_is a (Z.of_nat (String.length a) - 1) "\")
      then a
      else a +:+ os_sep plat
  end.

Definition getParent (plat : sys_platform) (path : string) : string :=
  fst (os_path_split plat path).

Definition getName (plat : sys_platform) (path : string) : string :=
  snd (os_path_split plat path).

Definition lower_ascii (c : ascii) : ascii :=
  let n := nat_of_ascii c in
  if (65 <=? n)%nat && (n <=? 90)%nat then ascii_of_nat (n + 32) else c.

(** [s.lower()] on ASCII text: the letters [A-Z] are mapped to [a-z] and
    every other character is left as it is.  On characters outside ASCII
    [str.lower] is Unicode-aware and does more, so what is stated with
    [lower] is stated for ASCII text, or only uses that [lower] leaves a
    string unchanged. *)
Fixpoint lower (s : string) : string :=
  match s with
  | EmptyString => EmptyString
  | String c s' => String (lower_ascii c) (lower s')
  end.

(** An extension without its leading dot. *)
Definition without_dot (ext : string) : string :=
  if char_is ext 0 "." then slice_from 1 ext else ext.

(** The condition of the specification on a file name and an allowlist:
    the extension of the name, without its leading dot and compared
    without regard to case, is in the allowlist. *)
Definition extension_in_allowlist (plat : sys_platform) (name : string)
    (exts : list string) : Prop :=
  exists e, e ∈ exts /\ lower e = lower (without_dot (splitExt plat name).2).

(** [getExt(s, removeDot)]. *)
Definition getExt (plat : sys_platform) (s : string) (removeDot : bool) : string :=
  let after := snd (splitExt plat s) in
  if removeDot && (0 <? String.length after)%nat && char_is after 0 "."
  then lower (slice_from 1 after)
  else lower after.

(** ** TraversalEngine ([m2_files_listing.py]) *)

(** The directory tree a traversal runs over, as [os.scandir] reports it:
    regular files, directories with their entries in directory order, and
    directories whose enumeration raises.  There are no symbolic links, so
    [followSymlinks] has nothing to act on and is left out. *)
Inductive tree : Type :=
| TFile (name : string)
| TDir (name : string) (entries : list tree)
| TBadDir (name : string) (e : exn).

Definition tree_name (t : tree) : string :=
  match t with TFile n | TDir n _ | TBadDir n _ => n end.

Definition is_dir_entry (t : tree) : bool :=
  match t with TFile _ => false | _ => true end.

(** What a traversal yields: a bare name ([filenamesOnly]) or the pair of
    full path and name. *)
Inductive item : Type :=
| Name (name : string)
| Pair (full name : string).

Section Traversal.

Variable plat : sys_platform.

Definition dir_names (entries : list tree) : list string :=
  map tree_name (filter (fun t => is_dir_entry t = true) entries).

Definition file_names (entries : list tree) : list string :=
  map tree_name (filter (fun t => is_dir_entry t = false) entries).

(** Python's truth value of [allowedExts]: [None] and the empty
    collection are both false. *)
Definition truthy_exts (allowedExts : option (list string)) : bool :=
  match allowedExts with
  | None | Some [] => false
  | Some (_ :: _) => true
  end.

(** [not allowedExts or getExt(filename) in allowedExts]. *)
Definition ext_allowed (allowedExts : option (list string)) (filename : string) : bool :=
  negb (truthy_exts allowedExts)
  || bool_decide (getExt plat filename true ∈ default [] allowedExts).

(** The keyword arguments of [recurseFiles]. *)
Record walk_args : Type := {
  filenamesOnly : bool;
  allowedExts : option (list string);
  fnFilterDirs : option (string -> bool);
  includeFiles : bool;
  includeDirs : bool;
  topDown : bool
}.

Definition recurseFiles_defaults : walk_args :=
  {| filenamesOnly := false; allowedExts := None; fnFilterDirs := None;
     includeFiles := true; includeDirs := false; topDown := true |}.

(** [fnFilterDirs(join(dirPath, dir))] when a filter is given. *)
Definition keeps_dir (a : walk_args) (dirPath dir : string) : bool :=
  match fnFilterDirs a with
  | None => true
  | Some f => f (join plat dirPath dir)
  end.

(** What [recurseFiles] yields for a file and for the directory itself. *)
Definition file_item (a : walk_args) (dirPath filename : string) : item :=
  if filenamesOnly a then Name filename
  else Pair (dirPath +:+ os_sep plat +:+ filename) filename.

Definition dir_item (a : walk_args) (dirPath : string) : item :=
  if filenamesOnly a then Name (getName plat dirPath)
  else Pair dirPath (getName plat dirPath).

(** The body of the [for] loop of [recurseFiles] for one triple
    [(dirPath, dirNames, fileNames)] of [os.walk]: the new content of
    [dirNames] and what is yielded. *)
Definition visit (a : walk_args) (dirPath : string) (dirNames fileNames : list string)
    : list string * list item :=
  let filteredDirs := filter (fun dir => keeps_dir a dirPath dir = true) dirNames in
  let iterFilenames :=
    if is_win plat then fileNames else merge_sort String.le fileNames in
  let files :=
    if includeFiles a then
      map (file_item a dirPath)
          (filter (fun filename => ext_allowed (allowedExts a) filename = true)
                  iterFilenames)
    else [] in
  let dirs := if includeDirs a then [dir_item a dirPath] else [] in
  (filteredDirs, files ++ dirs).

(** [recurseFiles] over [os.walk(root, topdown=topDown)].  Top-down,
    [os.walk] hands out the triple of a directory first and then walks
    the names left in [dirNames], in order: here, the directory entries
    whose name is still in the filtered list.  Bottom-up it walks every
    subdirectory first, so that the assignment to [dirNames[:]] comes too
    late to prune.  A directory that cannot be enumerated is skipped
    ([os.walk] is called without [onerror]). *)
Fixpoint walk (a : walk_args) (dirPath : string) (t : tree) : list item :=
  match t with
  | TFile _ | TBadDir _ _ => []
  | TDir _ entries =>
      let '(filteredDirs, here) :=
        visit a dirPath (dir_names entries) (file_names entries) in
      let below :=
        flat_map
          (fun sub =>
             if is_dir_entry sub
                && (negb (topDown a)
                    || bool_decide (tree_name sub ∈ filteredDirs))
             then walk a (join plat dirPath (tree_name sub)) sub
             else [])
          entries in
      if topDown a then here ++ below else below ++ here
  end.

(** [recurseFiles(root, ...)]; [assert isDir(root)] comes first. *)
Definition recurseFiles (a : walk_args) (root : string) (t : tree) : result (list item) :=
  if is_dir_entry t then Ok (walk a root t)
  else Raise (AssertionError "").

(** [recurseDirs(root, filenamesOnly, fnFilterDirs, topdown)].  The
    keyword it passes on is spelled [topdown], which [recurseFiles] does
    not have: the call raises [TypeError]. *)
Definition recurseDirs (root : string) (t : tree) (filenamesOnly : bool)
    (fnFilterDirs : option (string -> bool)) (topdown : bool) : result (list item) :=
  Raise (TypeError "recurseFiles() got an unexpected keyword argument 'topdown'").

(** What a consumer of [recurseFileInfo] observes, in order: the entries
    yielded and the calls of [fnDirectExceptionsTo]. *)
Inductive info_event : Type :=
| Yielded (path : string) (isDir : bool)
| Redirected (path : string) (e : exn).

(** The arguments of [recurseFileInfo]; [redirect] says whether
    [fnDirectExceptionsTo] is given. *)
Record info_args : Type := {
  recurse : bool;
  filesOnly : bool;
  fnFilterDirs' : option (string -> bool);
  redirect : bool
}.

(** Whether [recurseFileInfo] goes into the directory at [path]:
    [recurse and (not fnFilterDirs or fnFilterDirs(entry.path))]. *)
Definition enters (a : info_args) (path : string) : bool :=
  recurse a && match fnFilterDirs' a with
               | None => true
               | Some f => f path
               end.

(** The body of the [for entry in os.scandir(root)] loop of
    [recurseFileInfo] for one entry, given in [self] what the recursive
    call on an entry produces: the events, and the exception that leaves
    the loop if there is one.  The [try] around the recursive call
    catches what the recursion raises, hands it to the callback when
    there is one and it is an [OSError], and raises it again
    otherwise.  [getCurrentException] belongs to the [core] package,
    which is not among the sources; as the callback is to receive the
    error, it is taken to return the exception being handled. *)
Definition visit_entry (a : info_args) (root : string)
    (self : string -> tree -> list info_event * option exn) (entry : tree)
    : list info_event * option exn :=
  let path := join plat root (tree_name entry) in
  if is_dir_entry entry then
    let own := if filesOnly a then [] else [Yielded path true] in
    if enters a path then
      match self path entry with
      | (sub, None) => (own ++ sub, None)
      | (sub, Some e) =>
          if redirect a && isinstance_OSError e
          then (own ++ sub ++ [Redirected path e], None)
          else (own ++ sub, Some e)
      end
    else (own, None)
  else ([Yielded path false], None).

(** The loop over the entries: it ends with the first exception that
    leaves its body. *)
Definition scan_entries (a : info_args) (root : string)
    (self : string -> tree -> list info_event * option exn)
    : list tree -> list info_event * option exn :=
  fix scan (es : list tree) : list info_event * option exn :=
    match es with
    | [] => ([], None)
    | entry :: es' =>
        match visit_entry a root self entry with
        | (evs, Some e) => (evs, Some e)
        | (evs, None) => let '(rest, r) := scan es' in (evs ++ rest, r)
        end
    end.

(** [recurseFileInfo(root, ...)] run to its end: the events, and the
    exception that ended the iteration if one did.  [os.scandir(root)] is
    outside every [try] of its frame. *)
Fixpoint recurseFileInfo (a : info_args) (root : string) (t : tree)
    : list info_event * option exn :=
  match t with
  | TFile _ => ([], Some (OSError 20))
  | TBadDir _ e => ([], Some e)
  | TDir _ entries =>
      scan_entries a root (fun path entry => recurseFileInfo a path entry) entries
  end.

(** *** Reaching a directory

    [descends root t via q d]: in the tree [t] at path [root], the
    directory [d] at path [q] is reached by going down through the
    directories whose paths are listed in [via], from the first one
    entered to [q] itself ([via] is empty when [d] is [t]). *)
Inductive descends : string -> tree -> list string -> string -> tree -> Prop :=
| descends_here p t : descends p t [] p t
| descends_into p name entries sub via q d :
    sub ∈ entries ->
    is_dir_entry sub = true ->
    descends (join plat p (tree_name sub)) sub via q d ->
    descends p (TDir name entries) (join plat p (tree_name sub) :: via) q d.

(** A path passes an optional directory filter. *)
Definition accepted (f : option (string -> bool)) (path : string) : Prop :=
  match f with
  | None => True
  | Some f => f path = true
  end.

End Traversal.

(** ** AtomicTransferEngine ([m1_files_wrappers.py]) *)

(** The state a transfer runs in: the platform, the file system, the
    volume (drive or mounted device) each path lies on, the time stamp a
    write leaves on a file, and the failure the environment injects into a
    streaming copy, if any: [read_fault = Some k] makes the [k]-th [read]
    (counting from 0) of a copy loop raise an input/output error. *)
Record world : Type := {
  platform : sys_platform;
  files : fsmap;
  volume : string -> Z;
  clock : Z;
  read_fault : option nat
}.

Definition with_files (w : world) (fs : fsmap) : world :=
  {| platform := platform w; files := fs; volume := volume w;
     clock := clock w; read_fault := read_fault w |}.

(** Computations that read and change the world and may raise. *)
Definition M (A : Type) : Type := world -> world * result A.

Definition ret {A} (a : A) : M A := fun w => (w, Ok a).
Definition raise {A} (e : exn) : M A := fun w => (w, Raise e).
Definition bind {A B} (m : M A) (k : A -> M B) : M B :=
  fun w =>
    match m w with
    | (w', Ok a) => k a w'
    | (w', Raise e) => (w', Raise e)
    end.

Notation "'let!' x ':=' m 'in' k" := (bind m (fun x => k))
  (at level 10, x name, m at level 200, k at level 200, only parsing).

Definition gets {A} (f : world -> A) : M A := fun w => (w, Ok (f w)).
Definition set_files (fs : fsmap) : M unit := fun w => (with_files w fs, Ok tt).
Definition when (b : bool) (m : M unit) : M unit := if b then m else ret tt.

(** Modelled from the spec: [assertTrue], [trace] and [alert] belong to the
    [core] module, which is not among the sources.  [assertTrue] is taken
    to raise when its condition is false; [trace] and [alert] only report
    and leave the world as it is. *)
Definition assertTrue (cond : bool) (msg : string) : M unit :=
  if cond then ret tt else raise (AssertionError msg).
Definition trace : M unit := ret tt.
Definition alert : M unit := ret tt.

(** [os.path.exists], [os.path.isfile], [os.path.isdir]. *)
Definition path_exists (w : world) (p : string) : bool :=
  bool_decide (is_Some (files w !! p)).
Definition isFile (w : world) (p : string) : bool :=
  match files w !! p with Some (File _ _) => true | _ => false end.
Definition isDir (w : world) (p : string) : bool :=
  match files w !! p with Some Dir => true | _ => false end.

(** Whether an entry may be created at [p]: its parent is a directory, the
    current directory (empty parent) or the root. *)
Definition parent_errno (w : world) (p : string) : option Z :=
  let parent := getParent (platform w) p in
  if String.eqb parent "" || str_forallb (is_sep (platform w)) parent then None
  else match files w !! parent with
       | Some Dir => None
       | Some (File _ _) => Some 20
       | None => Some 2
       end.

(** [os.mkdir]. *)
Definition os_mkdir (name : string) : M unit :=
  fun w =>
    if String.eqb name "" then (w, Raise (OSError 2))
    else if path_exists w name then (w, Raise (OSError 17))
    else match parent_errno w name with
         | Some errno => (w, Raise (OSError errno))
         | None => (with_files w (<[name := Dir]> (files w)), Ok tt)
         end.

(** [os.makedirs(name)] with [exist_ok=False]: the missing ancestors first
    (a [FileExistsError] from that step is passed over), then [name]
    itself.  [head] is shorter than [name], so the length of [name] bounds
    the depth. *)
Fixpoint os_makedirs (depth : nat) (name : string) : M unit :=
  fun w =>
    let plat := platform w in
    let '(head, tail) := os_path_split plat name in
    let '(head, tail) :=
      if String.eqb tail "" then os_path_split plat head else (head, tail) in
    if negb (String.eqb head "") && negb (String.eqb tail "")
       && negb (path_exists w head)
    then
      match depth with
      | O => (w, Raise (RuntimeError "maximum recursion depth exceeded"))
      | S depth' =>
          match os_makedirs depth' head w with
          | (w', Raise (OSError 17)) | (w', Ok _) =>
              if String.eqb tail "." then (w', Ok tt) else os_mkdir name w'
          | (w', Raise e) => (w', Raise e)
          end
      end
    else os_mkdir name w.

(** [makeDirs(s)]. *)
Definition makeDirs (s : string) : M unit :=
  fun w =>
    match os_makedirs (String.length s) s w with
    | (w', Raise e) =>
        if isinstance_OSError e then
          if isDir w' s then (w', Ok tt) else (w', Raise e)
        else (w', Raise e)
    | r => r
    end.

(** [getLastModTime(path, units=TimeUnits.Nanoseconds)]; a directory has no
    time stamp in this model and reads as 0. *)
Definition getLastModTime (path : string) : M Z :=
  fun w =>
    match files w !! path with
    | Some (File _ mtime) => (w, Ok mtime)
    | Some Dir => (w, Ok 0)
    | None => (w, Raise (OSError 2))
    end.

(** [setLastModTime(path, newVal, units=TimeUnits.Nanoseconds)]: the access
    time is read and written back as it is. *)
Definition setLastModTime (path : string) (newVal : Z) : M unit :=
  fun w =>
    match files w !! path with
    | Some (File content _) =>
        (with_files w (<[path := File content newVal]> (files w)), Ok tt)
    | Some Dir => (w, Ok tt)
    | None => (w, Raise (OSError 2))
    end.

Definition _winErrs (err : Z) : option string :=
  if err =? 3 then Some "Path not found"
  else if err =? 5 then Some "Access denied"
  else if err =? 17 then Some "Different drives"
  else if err =? 80 then Some "Destination already exists"
  else None.

(** [kernel32.CopyFileW(src, dst, bFailIfExists)] followed by
    [GetLastError()]: [None] when the call succeeds, the error code
    otherwise.  The copy is all or nothing. *)
Definition CopyFileW (src dst : string) (bFailIfExists : Z) : M (option Z) :=
  fun w =>
    match files w !! src with
    | None => (w, Ok (Some 2))
    | Some Dir => (w, Ok (Some 5))
    | Some (File content mtime) =>
        match files w !! dst with
        | Some Dir => (w, Ok (Some 5))
        | Some (File _ _) =>
            if negb (bFailIfExists =? 0) then (w, Ok (Some 80))
            else (with_files w (<[dst := File content mtime]> (files w)), Ok None)
        | None =>
            match parent_errno w dst with
            | Some _ => (w, Ok (Some 3))
            | None =>
                (with_files w (<[dst := File content mtime]> (files w)), Ok None)
            end
        end
    end.

(** Whether [p] lies strictly below the directory [d]. *)
Definition below (plat : sys_platform) (d p : string) : bool :=
  String.prefix (d +:+ os_sep plat) p.

(** The file system after the entry at [src], with everything below it,
    took the name [dst]. *)
Definition rekey (plat : sys_platform) (src dst : string) (fs : fsmap) : fsmap :=
  list_to_map
    (map (fun kv : string * node =>
            let k := kv.1 in
            if String.eqb k src then (dst, kv.2)
            else if below plat src k
                 then (dst +:+ slice_from (Z.of_nat (String.length src)) k, kv.2)
                 else kv)
         (map_to_list
            (filter (fun kv : string * node =>
                       kv.1 <> dst /\ below plat dst kv.1 = false) fs))).

Definition has_children (plat : sys_platform) (d : string) (fs : fsmap) : bool :=
  existsb (fun kv : string * node => below plat d kv.1) (map_to_list fs).

(** [kernel32.MoveFileExW(src, dst, flags)] followed by [GetLastError()].
    Bit 0 of [flags] is [MOVEFILE_REPLACE_EXISTING], bit 1 is
    [MOVEFILE_COPY_ALLOWED]: with it a file is carried to another volume by
    copying it and deleting the source; a directory never changes
    volume. *)
Definition MoveFileExW (src dst : string) (flags : Z) : M (option Z) :=
  fun w =>
    match files w !! src with
    | None => (w, Ok (Some 2))
    | Some n =>
        if path_exists w dst && negb (Z.testbit flags 0) then (w, Ok (Some 183))
        else if path_exists w dst && (isDir w dst || isDir w src) then (w, Ok (Some 5))
        else if bool_decide (is_Some (parent_errno w dst)) then (w, Ok (Some 3))
        else if negb (volume w src =? volume w dst)
                && (isDir w src || negb (Z.testbit flags 1))
        then (w, Ok (Some 17))
        else (with_files w (rekey (platform w) src dst (files w)), Ok None)
    end.

(** [os.rename] on a POSIX system. *)
Definition os_rename (src dst : string) : M unit :=
  fun w =>
    match files w !! src with
    | None => (w, Raise (OSError 2))
    | Some n =>
        if String.eqb src dst then (w, Ok tt)
        else if bool_decide (is_Some (parent_errno w dst)) then
          (w, Raise (OSError (default 2 (parent_errno w dst))))
        else if negb (volume w src =? volume w dst) then (w, Raise (OSError 18))
        else
          match n, files w !! dst with
          | File _ _, Some Dir => (w, Raise (OSError 21))
          | Dir, Some (File _ _) => (w, Raise (OSError 20))
          | Dir, Some Dir =>
              if has_children (platform w) dst (files w) then (w, Raise (OSError 39))
              else (with_files w (rekey (platform w) src dst (files w)), Ok tt)
          | Dir, None =>
              if below (platform w) src dst then (w, Raise (OSError 22))
              else (with_files w (rekey (platform w) src dst (files w)), Ok tt)
          | File _ _, _ =>
              (with_files w (<[dst := n]> (delete src (files w))), Ok tt)
          end
    end.

(** [os.unlink]. *)
Definition os_unlink (path : string) : M unit :=
  fun w =>
    match files w !! path with
    | None => (w, Raise (OSError 2))
    | Some Dir => (w, Raise (OSError 21))
    | Some (File _ _) => (with_files w (delete path (files w)), Ok tt)
    end.

(** The chunk size of the copy loop. *)
Definition copy_chunk : Z := 64 * 1024.

(** The loop of [_copyFilePosix]:
[[
    while True:
        buffer = fSrc.read(64 * 1024)
        if not buffer:
            break
        fDest.write(buffer)
]]
    [i] counts the reads, [rest] is what is left of the source and
    [written] what has reached the destination.  The loop has no handler:
    when a read raises, the exception leaves the loop with [written] as
    the destination's content. *)
Fixpoint copy_loop (fuel : nat) (fault : option nat) (i : nat)
    (rest written : bytes) : bytes * result unit :=
  match fuel with
  | O => (written, Ok tt)
  | S fuel' =>
      if bool_decide (fault = Some i) then (written, Raise (OSError 5))
      else
        match file_read BufferedReader copy_chunk rest with
        | Raise e => (written, Raise e)
        | Ok (buffer, rest') =>
            match buffer with
            | [] => (written, Ok tt)
            | _ :: _ => copy_loop fuel' fault (S i) rest' (written ++ buffer)
            end
        end
  end.

(** Streaming [content] into the file at [dst], which has just been
    created or truncated: the file holds what was written when the loop
    ends, also when it ends by an exception (closing the handle flushes). *)
Definition stream_into (dst : string) (content : bytes) : M unit :=
  fun w =>
    let '(written, r) :=
      copy_loop (S (length content)) (read_fault w) 0 content [] in
    (with_files w (<[dst := File written (clock w)]> (files w)), r).

(** [shutil.copy(src, dst)]: into the directory [dst] if it is one; the
    source is opened first, then the destination is created or truncated,
    then the content is streamed. *)
Definition shutil_copy (src dst : string) : M unit :=
  fun w =>
    let dst :=
      if isDir w dst then join (platform w) dst (getName (platform w) src)
      else dst in
    match files w !! src with
    | None => (w, Raise (OSError 2))
    | Some Dir => (w, Raise (OSError 21))
    | Some (File content _) =>
        if String.eqb src dst then (w, Raise (OSError 0))
        else if isDir w dst then (w, Raise (OSError 21))
        else match parent_errno w dst with
             | Some errno => (w, Raise (OSError errno))
             | None => stream_into dst content w
             end
    end.

(** [os.open(destFile, O_CREAT | O_EXCL | O_WRONLY)]: fails when anything
    exists at the path, creates an empty file otherwise. *)
Definition os_open_excl (destFile : string) : M unit :=
  fun w =>
    if path_exists w destFile then (w, Raise (OSError 17))
    else match parent_errno w destFile with
         | Some errno => (w, Raise (OSError errno))
         | None =>
             (with_files w (<[destFile := File [] (clock w)]> (files w)), Ok tt)
         end.

Definition _copyFilePosix (srcFile destFile : string) (overwrite : bool) : M unit :=
  if overwrite then shutil_copy srcFile destFile
  else
    let! _ := os_open_excl destFile in
    fun w =>
      match files w !! srcFile with
      | Some (File content _) => stream_into destFile content w
      | Some Dir => (w, Raise (OSError 21))
      | None => (w, Raise (OSError 2))
      end.

Definition _copyFileWin (srcFile destFile : string) (overwrite : bool) : M unit :=
  let failIfExists := if overwrite then 0 else 1 in
  let! res := CopyFileW srcFile destFile failIfExists in
  match res with
  | None => ret tt
  | Some err => raise (WinApiError "CopyFileW" err)
  end.

(** [_moveFileWin]; [retries] bounds the recursion, which is entered with
    [warnBetweenDrives] true and continues with it false, so once. *)
Fixpoint _moveFileWin_rec (retries : nat) (srcFile destFile : string)
    (overwrite warnBetweenDrives : bool) : M unit :=
  let flags := 0 in
  let flags := Z.lor flags (if overwrite then 1 else 0) in
  let flags := Z.lor flags (if warnBetweenDrives then 0 else 2) in
  let! res := MoveFileExW srcFile destFile flags in
  match res with
  | None => ret tt
  | Some err =>
      if bool_decide (_winErrs err = Some "Different drives") && warnBetweenDrives
      then
        match retries with
        | S retries' =>
            let! _ := alert in
            _moveFileWin_rec retries' srcFile destFile overwrite false
        | O => raise (RuntimeError "maximum recursion depth exceeded")
        end
      else raise (WinApiError "MoveFileExW" err)
  end.

Definition _moveFileWin := _moveFileWin_rec 1.

(** [copy(srcFile, destFile, overwrite, doTrace, keepSameModifiedTime,
    allowDirs, createParent, traceOnly)]. *)
Definition copy (srcFile destFile : string) (overwrite : bool)
    (doTrace keepSameModifiedTime allowDirs createParent traceOnly : bool) : M unit :=
  let! src_is_file := gets (fun w => isFile w srcFile) in
  if negb src_is_file then
    raise (OSFileRelatedError "source path does not exist or is not a file")
  else
  let! src_is_dir := gets (fun w => isDir w srcFile) in
  if negb allowDirs && src_is_dir then
    raise (OSFileRelatedError "allowDirs is False but given a dir")
  else
  let! dest_exists := gets (fun w => path_exists w destFile) in
  let! toSetModTime :=
    (if keepSameModifiedTime && dest_exists then
       let! dest_is_file := gets (fun w => isFile w destFile) in
       let! _ := assertTrue dest_is_file "not supported for directories" in
       let! t := getLastModTime destFile in
       ret (Some t)
     else ret None) in
  let! _ := when doTrace trace in
  if traceOnly then ret tt
  else
  let! plat := gets platform in
  let! parent_exists := gets (fun w => path_exists w (getParent plat destFile)) in
  let! _ := when (createParent && negb parent_exists)
                 (makeDirs (getParent plat destFile)) in
  let! _ :=
    (if String.eqb srcFile destFile then ret tt
     else if is_win plat then _copyFileWin srcFile destFile overwrite
     else _copyFilePosix srcFile destFile overwrite) in
  let! dest_exists := gets (fun w => path_exists w destFile) in
  let! _ := assertTrue dest_exists "" in
  match toSetModTime with
  | Some t => when (negb (t =? 0)) (setLastModTime destFile t)
  | None => ret tt
  end.

(** [move(srcFile, destFile, overwrite, warnBetweenDrives, doTrace,
    allowDirs, createParent, traceOnly)]. *)
Definition move (srcFile destFile : string) (overwrite : bool)
    (warnBetweenDrives doTrace allowDirs createParent traceOnly : bool) : M unit :=
  let! src_exists := gets (fun w => path_exists w srcFile) in
  if negb src_exists then
    raise (OSFileRelatedError "source path does not exist")
  else
  let! src_is_file := gets (fun w => isFile w srcFile) in
  if negb allowDirs && negb src_is_file then
    raise (OSFileRelatedError "allowDirs is False but given a dir")
  else
  let! _ := when doTrace trace in
  if traceOnly then ret tt
  else
  let! plat := gets platform in
  let! parent_exists := gets (fun w => path_exists w (getParent plat destFile)) in
  let! _ := when (createParent && negb parent_exists)
                 (makeDirs (getParent plat destFile)) in
  let! _ :=
    (if String.eqb srcFile destFile then ret tt
     else if is_win plat then
       _moveFileWin srcFile destFile overwrite warnBetweenDrives
     else if is_linux plat && overwrite then os_rename srcFile destFile
     else
       let! _ := copy srcFile destFile overwrite false false false false false in
       let! dest_exists := gets (fun w => path_exists w destFile) in
       let! _ := assertTrue dest_exists "" in
       os_unlink srcFile) in
  let! dest_exists := gets (fun w => path_exists w destFile) in
  assertTrue dest_exists "".

(** ** Error conditions of the specification, and sample data *)

#[global] Instance exn_eq_dec : EqDecision exn.
Proof. solve_decision. Defined.

#[global] Instance byte_eq_dec : EqDecision byte := Byte.byte_eq_dec.

#[global] Instance node_eq_dec : EqDecision node.
Proof. unfold bytes. solve_decision. Defined.

(** The destination exists and must not be overwritten: [FileExistsError]
    from the exclusive create, or the failure of the Windows call with the
    code for an existing file. *)
Definition is_DestinationConflict (e : exn) : bool :=
  bool_decide (e = OSError 17)
  || bool_decide (e = WinApiError "CopyFileW" 80)
  || bool_decide (e = WinApiError "MoveFileExW" 183).

(** The source is missing or not of the required kind: the errors the
    entry checks of [copy] and [move] raise. *)
Definition is_SourceMissing (e : exn) : bool :=
  bool_decide (e = OSFileRelatedError "source path does not exist or is not a file")
  || bool_decide (e = OSFileRelatedError "source path does not exist")
  || bool_decide (e = OSFileRelatedError "allowDirs is False but given a dir").

(** The length of a full chunk of the copy loop. *)
Definition chunk_len : nat := Z.to_nat copy_chunk.
Arguments chunk_len : simpl never.

(** A digest library for examples that hash with SHA-256 or CRC-32 only. *)
Definition no_digest (a : hash_alg) (data : bytes) : string := "".

(** The tree [root/{a.txt, b.png, sub/c.txt}] with a further directory
    [skip/d.txt]. *)
Definition sample_tree : tree :=
  TDir "root"
    [TFile "a.txt"; TFile "b.png";
     TDir "sub" [TFile "c.txt"];
     TDir "skip" [TFile "d.txt"]].

Definition not_skip (path : string) : bool := negb (String.eqb path "root/skip").

(** A tree with an unreadable directory two levels down. *)
Definition faulty_tree (e : exn) : tree :=
  TDir "root" [TFile "a.txt"; TDir "sub" [TBadDir "locked" e; TFile "c.txt"]; TFile "z.txt"].

(** A world with a file, a directory holding a file, and a second volume
    mounted at [mnt]. *)
Definition sample_files : fsmap :=
  list_to_map
    [("a.txt", File ["h"%byte; "i"%byte] 5);
     ("d", Dir);
     ("d/b.txt", File ["o"%byte] 1);
     ("mnt", Dir)].

Definition sample_world (plat : sys_platform) (fault : option nat) : world :=
  {| platform := plat;
     files := sample_files;
     volume := fun p => if String.prefix "mnt" p then 1 else 0;
     clock := 100;
     read_fault := fault |}.

(** A world whose only file is three bytes longer than a chunk; the second
    read of a streaming copy fails. *)
Definition long_world : world :=
  {| platform := Linux;
     files := {[ "long.bin" := File (repeat "x"%byte (chunk_len + 3)) 5 ]};
     volume := fun _ => 0;
     clock := 100;
     read_fault := Some 1%nat |}.

(** The scenario of the specification with the allowlist [{"txt"}]. *)
Definition txt_args : walk_args :=
  {| filenamesOnly := false; allowedExts := Some ["txt"];
     fnFilterDirs := Some not_skip; includeFiles := true; includeDirs := false;
     topDown := true |}.

(** Arguments of [recurseFileInfo]: directories are yielded too, the
    filter rejects [root/skip], and there is an error callback. *)
Definition info_sample_args : info_args :=
  {| recurse := true; filesOnly := false; fnFilterDirs' := Some not_skip;
     redirect := true |}.

(** Arguments of [recurseFiles] that yield files and directories. *)
Definition dirs_args : walk_args :=
  {| filenamesOnly := false; allowedExts := None;
     fnFilterDirs := Some not_skip; includeFiles := true; includeDirs := true;
     topDown := true |}.

(** ** Invariants of computations

    [preserves I m Q]: run from a world satisfying [I], the computation [m]
    ends, whether it returns or raises, in a world satisfying [I], and a
    value it returns satisfies [Q]. *)
Definition preserves {A : Type} (I : world -> Prop) (m : M A) (Q : A -> Prop) : Prop :=
  forall w, I w -> I (m w).1 /\ forall a, (m w).2 = Ok a -> Q a.

(** ** Further definitions

    Functions of the three modules beside the ones above, and what the
    statements about them are written with. *)

(** A lower-case hexadecimal digit, [0-9a-f]. *)
Definition is_lower_hex (c : ascii) : bool :=
  let n := nat_of_ascii c in
  ((48 <=? n)%nat && (n <=? 57)%nat) || ((97 <=? n)%nat && (n <=? 102)%nat).

(** The number of bytes the [read] calls of a trace obtained. *)
Definition bytes_got (tr : list io_event) : nat :=
  foldr (fun ev acc => match ev with IoRead _ got => (got + acc)%nat | _ => acc end)
        0%nat tr.

(** A [read] call that asked for [n] bytes and obtained no more. *)
Definition read_within (n : Z) (ev : io_event) : Prop :=
  exists got : nat, ev = IoRead n got /\ Z.of_nat got <= n.

(** The arguments [a] with [fnFilterDirs] left out, and with
    [filenamesOnly=True]. *)
Definition without_filter (a : walk_args) : walk_args :=
  {| filenamesOnly := filenamesOnly a; allowedExts := allowedExts a;
     fnFilterDirs := None; includeFiles := includeFiles a;
     includeDirs := includeDirs a; topDown := topDown a |}.

Definition names_only (a : walk_args) : walk_args :=
  {| filenamesOnly := true; allowedExts := allowedExts a;
     fnFilterDirs := fnFilterDirs a; includeFiles := includeFiles a;
     includeDirs := includeDirs a; topDown := topDown a |}.

(** The second component of a yielded pair. *)
Definition item_name (it : item) : item :=
  match it with
  | Name name | Pair _ name => Name name
  end.

(** [listFileInfo(root, followSymlinks, filesOnly)]. *)
Definition listFileInfo (plat : sys_platform) (root : string) (t : tree)
    (filesOnly : bool) : list info_event * option exn :=
  recurseFileInfo plat
    {| recurse := false; filesOnly := filesOnly; fnFilterDirs' := None;
       redirect := false |} root t.


(** A character of ASCII. *)
Definition is_ascii (c : ascii) : bool := (nat_of_ascii c <? 128)%nat.

(** An upper-case ASCII letter. *)
Definition is_upper (c : ascii) : bool :=
  let n := nat_of_ascii c in (65 <=? n)%nat && (n <=? 90)%nat.

(** A character that may occur in what [getExt] returns after the dot: no
    dot, no separator, no upper-case letter. *)
Definition ext_char (plat : sys_platform) (c : ascii) : bool :=
  negb (Ascii.eqb "." c) && negb (is_sep plat c) && negb (is_upper c).

(** [getWithDifferentExt(s, ext_with_dot)].  Both assertions go through
    [assertTrue]; the first one is given the path as its message. *)
Definition getWithDifferentExt (plat : sys_platform) (s ext_with_dot : string)
    : result string :=
  let '(parent, short) := os_path_split plat s in
  let '(short_before_ext, short_ext) := splitExt plat short in
  if String.eqb short_ext "" then Raise (AssertionError s)
  else if negb (String.eqb parent "") then
    let with_trailing_slash := slice_to (Z.of_nat (String.length parent) + 1) s in
    if String.eqb with_trailing_slash (parent +:+ "/")
       || String.eqb with_trailing_slash (parent +:+ "\")
    then Ok (with_trailing_slash +:+ short_before_ext +:+ ext_with_dot)
    else Raise (AssertionError "")
  else Ok (short_before_ext +:+ ext_with_dot).

(** A directory path that [os.path.join] extends with a separator and
    that [os.path.split] gives back: it is empty or ends with a character
    that is not a separator. *)
Definition plain_dir (plat : sys_platform) (d : string) : Prop :=
  d = "" \/ exists d' c, d = d' +:+ String c "" /\ is_sep plat c = false.

(** [delete(s, doTrace)]; the name [delete] is the one of the operation
    on maps. *)
Definition delete_file (s : string) (doTrace : bool) : M unit :=
  let! _ := when doTrace trace in
  os_unlink s.

(** [deleteSure(s, doTrace)]. *)
Definition deleteSure (s : string) (doTrace : bool) : M unit :=
  let! there := gets (fun w => path_exists w s) in
  let! _ := when there (delete_file s doTrace) in
  let! still_there := gets (fun w => path_exists w s) in
  assertTrue (negb still_there) "".

(** The name of one path component to create: not empty, not [.], and
    without separator. *)
Definition dir_name (plat : sys_platform) (name : string) : Prop :=
  name <> "" /\ name <> "." /\ str_forallb (fun c => negb (is_sep plat c)) name = true.

(** The paths [g/n1], [g/n1/n2], ... of the directories on the way from
    [g] down through the names [n1; n2; ...]. *)
Fixpoint dir_chain (plat : sys_platform) (g : string) (names : list string) : list string :=
  match names with
  | [] => []
  | name :: names' => join plat g name :: dir_chain plat (join plat g name) names'
  end.

(** The file system with a directory at each of the paths. *)
Definition with_dirs (fs : fsmap) (paths : list string) : fsmap :=
  foldl (fun fs p => <[p := Dir]> fs) fs paths.

(** ** [openUrl] ([m3_files_higher.py]) *)

(** [s.replace(old, new)] for an [old] of one character. *)
Fixpoint replace_char (old : ascii) (new : string) (s : string) : string :=
  match s with
  | EmptyString => EmptyString
  | String c s' =>
      (if Ascii.eqb c old then new else String c EmptyString)
      +:+ replace_char old new s'
  end.

(** [openUrl(url, filter)]: the URL that is handed to [webbrowser.open],
    or the failure of [assertTrue] for a URL with another scheme. *)
Definition openUrl (url : string) (filter : bool) : result string :=
  match (if String.prefix "http://" url then Some "http://"
         else if String.prefix "https://" url then Some "https://"
         else None) with
  | None => Raise (AssertionError "url did not start with http")
  | Some prefix =>
      if filter then
        let url := slice_from (Z.of_nat (String.length prefix)) url in
        let url := replace_char "%" "%25" url in
        let url := replace_char "&" "%26" url in
        let url := replace_char "|" "%7C" url in
        let url := replace_char "\" "%5C" url in
        let url := replace_char "^" "%5E" url in
        let url := replace_char "034" "%22" url in
        let url := replace_char "'" "%27" url in
        let url := replace_char ">" "%3E" url in
        let url := replace_char "<" "%3C" url in
        let url := replace_char " " "%20" url in
        Ok (prefix +:+ url)
      else Ok url
  end.

(** A character that [openUrl] does not let through when it filters:
    ampersand, bar, backslash, caret, the two quotes, the angle brackets
    and the space. *)
Definition url_risky (c : ascii) : bool :=
  existsb (Ascii.eqb c) ["&"; "|"; "\"; "^"; "034"; "'"; ">"; "<"; " "]%char.

(** * Properties *)

(** ** HashEngine *)

(** The digest functions on their standard check values. *)
Lemma sha256_abc :
  Sha256.hexdigest ["a"%byte; "b"%byte; "c"%byte]
  = "ba7816bf8f01cfea414140de5dae2223b00361a396177a9cb410ff61f20015ad".
Proof. by vm_compute. Qed.

Lemma crc32_check_value :
  format_08x
    (zlib_crc32 ["1"%byte; "2"%byte; "3"%byte; "4"%byte; "5"%byte;
                 "6"%byte; "7"%byte; "8"%byte; "9"%byte] 0)
  = "cbf43926".
Proof. by vm_compute. Qed.

Lemma file_read_positive (f : stream) (n : Z) (rest : bytes) :
  0 < n ->
  file_read f n rest = Ok (take (Z.to_nat n) rest, drop (Z.to_nat n) rest)
  /\ (0 < Z.to_nat n)%nat.
Proof.
  intros Hn. unfold file_read.
  destruct (Z.leb_spec 0 n); [|lia]. split; [reflexivity|lia].
Qed.

(** The only exception [read] raises is the one of a [BufferedReader]
    asked for a size below -1. *)
Lemma file_read_raises (f : stream) (n : Z) (rest : bytes) (e : exn) :
  file_read f n rest = Raise e ->
  f = BufferedReader /\ n < -1
  /\ e = ValueError "read length must be non-negative or -1".
Proof.
  unfold file_read. destruct (Z.leb_spec 0 n); [done|].
  destruct f; [|done]. destruct (Z.eqb_spec n (-1)); [done|].
  intros [= <-]. split; [done|]. split; [lia|done].
Qed.

Section ReadLoop.

Context {S : Type} (step : S -> bytes -> result S) (merge : S -> bytes -> S).

(** The step takes every chunk, and feeding two chunks one after the
    other is feeding them joined. *)
Hypothesis step_total : forall acc a, step acc a = Ok (merge acc a).
Hypothesis merge_app : forall acc a b, merge (merge acc a) b = merge acc (a ++ b).

(** Unless [read] raises, the loop ends normally. *)
Lemma read_loop_total (f : stream) (n : Z) (fuel : nat) (rest : bytes) (acc : S) :
  f = BytesIO \/ -1 <= n ->
  exists acc', (read_loop fuel f step n rest acc).1 = Ok acc'.
Proof using step_total.
  intros Hread. revert rest acc.
  induction fuel as [|fuel IH]; intros rest acc; [by eexists|].
  cbn [read_loop].
  destruct (file_read f n rest) as [[[|b buffer] rest']|e] eqn:Hr.
  - by eexists.
  - rewrite step_total. destruct (IH rest' (merge acc (b :: buffer))) as [acc' Hacc].
    destruct (read_loop fuel f step n rest' _) as [r tr]. by exists acc'.
  - apply file_read_raises in Hr as (-> & ? & _). destruct Hread; [done|lia].
Qed.

(** With a positive buffer size and enough turns, the loop leaves the
    accumulator untouched on an empty stream and otherwise has fed it
    the whole stream, whatever the chunking. *)
Lemma read_loop_whole (f : stream) (n : Z) (fuel : nat) :
  0 < n ->
  forall (rest : bytes) (acc : S),
    (length rest < fuel)%nat ->
    (read_loop fuel f step n rest acc).1 =
      Ok (match rest with [] => acc | _ :: _ => merge acc rest end).
Proof using step_total merge_app.
  intros Hn. induction fuel as [|fuel IH]; intros rest acc Hlen; [lia|].
  destruct (file_read_positive f n rest Hn) as [Hread Hpos].
  cbn [read_loop]. rewrite Hread.
  destruct rest as [|b rest]; [by rewrite take_nil|].
  destruct (Z.to_nat n) as [|k] eqn:Hk; [lia|].
  cbn [take drop firstn skipn]. rewrite step_total.
  specialize (IH (drop k rest) (merge acc (b :: take k rest))).
  destruct (read_loop fuel f step n (drop k rest) _) as [r tr] eqn:Hloop.
  cbn [fst] in *. rewrite IH by (rewrite length_drop; cbn [length] in Hlen; lia).
  destruct (drop k rest) as [|c rest'] eqn:Hdrop.
  - rewrite <- (take_drop k rest) at 2. by rewrite Hdrop, app_nil_r.
  - rewrite merge_app, <- Hdrop. cbn [app]. by rewrite take_drop.
Qed.

Lemma read_all_whole (f : stream) (n : Z) (unread : bytes) (acc : S) :
  0 < n ->
  (read_all f step n unread acc).1 =
    Ok (match unread with [] => acc | _ :: _ => merge acc unread end).
Proof using step_total merge_app. intros Hn. apply read_loop_whole; [done|lia]. Qed.

(** A size for which [read] returns everything: the whole stream is fed
    in one piece. *)
Lemma read_all_at_once (f : stream) (n : Z) (unread : bytes) (acc : S) :
  (forall rest, file_read f n rest = Ok (rest, [])) ->
  (read_all f step n unread acc).1 =
    Ok (match unread with [] => acc | _ :: _ => merge acc unread end).
Proof using step_total.
  intros Hread. unfold read_all.
  destruct unread as [|b unread]; cbn [read_loop length]; rewrite Hread; [done|].
  rewrite step_total, Hread. done.
Qed.

End ReadLoop.

(** The CRC-32 register stays within 32 bits. *)
Definition in32 (x : Z) : Prop := 0 <= x < 2 ^ 32.

Lemma land_mask32 (x : Z) : Z.land x mask32 = x mod 2 ^ 32.
Proof. change mask32 with (Z.ones 32). by rewrite Z.land_ones. Qed.

Lemma in32_land (x : Z) : in32 (Z.land x mask32).
Proof. rewrite land_mask32. apply Z.mod_pos_bound. lia. Qed.

Lemma in32_fixed (x : Z) : in32 x -> Z.land x mask32 = x.
Proof. intros H. rewrite land_mask32. by apply Z.mod_small. Qed.

Lemma land_lxor_distr (x y m : Z) :
  Z.land (Z.lxor x y) m = Z.lxor (Z.land x m) (Z.land y m).
Proof.
  apply Z.bits_inj'. intros n _.
  rewrite !Z.land_spec, !Z.lxor_spec, !Z.land_spec.
  by destruct (Z.testbit x n), (Z.testbit y n), (Z.testbit m n).
Qed.

Lemma in32_lxor (x y : Z) : in32 x -> in32 y -> in32 (Z.lxor x y).
Proof.
  intros Hx Hy. rewrite <- (in32_fixed x Hx), <- (in32_fixed y Hy).
  rewrite <- land_lxor_distr. apply in32_land.
Qed.

Lemma in32_shiftr (x : Z) : in32 x -> in32 (Z.shiftr x 1).
Proof.
  unfold in32. intros H. rewrite Z.shiftr_div_pow2 by lia.
  change (2 ^ 1) with 2. split; [apply Z.div_pos; lia|].
  apply Z.div_lt_upper_bound; lia.
Qed.

Lemma in32_crc32_shift (c : Z) : in32 c -> in32 (crc32_shift c).
Proof.
  intros H. unfold crc32_shift. destruct (Z.testbit c 0).
  - apply in32_lxor; [by apply in32_shiftr|]. unfold in32. lia.
  - by apply in32_shiftr.
Qed.

Lemma in32_byte_val (b : byte) : in32 (byte_val b).
Proof.
  unfold in32, byte_val. pose proof (Byte.to_N_bounded b). lia.
Qed.

Lemma in32_crc32_byte (c : Z) (b : byte) : in32 c -> in32 (crc32_byte c b).
Proof.
  intros H. unfold crc32_byte.
  assert (Hx : in32 (Z.lxor c (byte_val b))) by (apply in32_lxor; [done|apply in32_byte_val]).
  revert Hx. generalize (Z.lxor c (byte_val b)). intros x Hx.
  do 8 (rewrite Nat.iter_succ). simpl Nat.iter.
  do 8 apply in32_crc32_shift. done.
Qed.

Lemma in32_fold (data : bytes) (c : Z) : in32 c -> in32 (fold_left crc32_byte data c).
Proof.
  revert c. induction data as [|b data IH]; intros c H; simpl; [done|].
  apply IH. by apply in32_crc32_byte.
Qed.

(** [zlib.crc32] streams: the checksum of a continuation started from the
    checksum of a prefix is the checksum of the whole. *)
Lemma zlib_crc32_app (a b : bytes) (value : Z) :
  zlib_crc32 b (zlib_crc32 a value) = zlib_crc32 (a ++ b) value.
Proof.
  unfold zlib_crc32. rewrite fold_left_app.
  set (r := fold_left crc32_byte a _).
  assert (Hr : in32 r).
  { apply in32_fold, in32_lxor; [apply in32_land|]. unfold in32, mask32. lia. }
  assert (Hm : in32 mask32) by (unfold in32, mask32; lia).
  rewrite (in32_fixed (Z.lxor r mask32)) by (by apply in32_lxor).
  by rewrite Z.lxor_assoc, Z.lxor_nilpotent, Z.lxor_0_r.
Qed.

Lemma hasher_update_app (h : hasher) (a b : bytes) :
  hasher_update (hasher_update h a) b = hasher_update h (a ++ b).
Proof. unfold hasher_update. simpl. by rewrite app_assoc. Qed.

Lemma hasher_update_nil (h : hasher) : hasher_update h [] = h.
Proof. destruct h. unfold hasher_update. simpl. by rewrite app_nil_r. Qed.

Lemma file_read_nil (f : stream) (n : Z) :
  file_read f n [] = Ok ([], []) \/ (f = BufferedReader /\ n < -1).
Proof.
  unfold file_read. destruct (Z.leb_spec 0 n).
  - left. by rewrite take_nil, drop_nil.
  - destruct f; [|by left].
    destruct (Z.eqb_spec n (-1)); [by left|right; split; [done|lia]].
Qed.

Lemma file_read_bytes_nil (n : Z) : file_read BytesIO n [] = Ok ([], []).
Proof. by destruct (file_read_nil BytesIO n) as [H|[? _]]. Qed.

Lemma read_all_nil {S : Type} (step : S -> bytes -> result S) (n : Z) (acc : S) :
  read_all BytesIO step n [] acc = (Ok acc, [IoRead n 0]).
Proof. unfold read_all. cbn [read_loop length]. by rewrite file_read_bytes_nil. Qed.

(** The loop over a [hashlib] accumulator keeps its algorithm, and is only
    left by the exception of [read]. *)
Lemma read_loop_alg (fuel : nat) (f : stream) (n : Z) (rest : bytes) (h : hasher) :
  match (read_loop fuel f update_step n rest h).1 with
  | Ok h' => h_alg h' = h_alg h
  | Raise e => f = BufferedReader /\ n < -1
  end.
Proof.
  revert rest h. induction fuel as [|fuel IH]; intros rest h; [done|].
  cbn [read_loop]. destruct (file_read f n rest) as [[[|b buffer] rest']|e] eqn:Hread.
  - done.
  - unfold update_step at 1. specialize (IH rest' (hasher_update h (b :: buffer))).
    destruct (read_loop fuel f update_step n rest' _) as [r tr]. done.
  - apply file_read_raises in Hread as (? & ? & _). done.
Qed.

Section HashEngineFacts.

Variable lib_hexdigest : hash_alg -> bytes -> string.
Variable xxhash_installed : bool.
Variable crc64iso : option crc64_module.

Local Abbreviation impl := (_computeHashImpl lib_hexdigest xxhash_installed crc64iso).
Local Abbreviation digest := (digest_of_bytes lib_hexdigest xxhash_installed crc64iso).
Local Abbreviation hashBytes := (computeHashBytes lib_hexdigest xxhash_installed crc64iso).
Local Abbreviation hashFile := (computeHash lib_hexdigest xxhash_installed crc64iso).

(** With a positive buffer size, and for every hasher argument but
    ["crc64"], the outcome of [_computeHashImpl] is the digest of the
    whole content. *)
Lemma computeHashImpl_whole (f : stream) (unread : bytes) (hasher : hasher_arg) (n : Z) :
  0 < n ->
  is_name hasher "crc64" = false ->
  (impl f unread hasher n).2 = digest unread hasher.
Proof.
  intros Hn H64. unfold _computeHashImpl, digest_of_bytes. rewrite H64.
  destruct (is_name hasher "crc32").
  { pose proof (read_all_whole crc32_step (fun crc buffer => zlib_crc32 buffer crc)
                  (fun _ _ => eq_refl) (fun acc a b => zlib_crc32_app a b acc)
                  f n unread (zlib_crc32 [] 0) Hn) as H.
    destruct (read_all f crc32_step n unread _) as [r tr]. cbn [fst] in H. subst r.
    cbn [snd]. destruct unread as [|b unread]; [done|]. by rewrite zlib_crc32_app. }
  destruct (match hasher with
            | ByName s => hasherFromString xxhash_installed s
            | ByObject h => Ok h
            end) as [h|e]; [|done].
  pose proof (read_all_whole update_step hasher_update
                (fun _ _ => eq_refl) hasher_update_app f n unread h Hn) as H.
  destruct (read_all f update_step n unread h) as [r tr]. cbn [fst] in H. subst r.
  cbn [snd]. destruct unread; [by rewrite hasher_update_nil|done].
Qed.

(** Whatever the input, hashing with a SHAKE accumulator ends in the
    [TypeError] of its [hexdigest()], unless [read] raised before. *)
Lemma computeHashImpl_shake (f : stream) (unread : bytes) (n : Z) (s : string) :
  s = "shake_128" \/ s = "shake_256" ->
  f = BytesIO \/ -1 <= n ->
  (impl f unread (ByName s) n).2
  = Raise (TypeError "hexdigest() missing required argument 'length' (pos 1)").
Proof.
  intros Hs Hread.
  assert (Hgoal : forall a, a = SHAKE_128 \/ a = SHAKE_256 ->
            (let '(r, tr) := read_all f update_step n unread (hasher_new a) in
             match r with
             | Raise e => (tr, Raise e)
             | Ok h => (tr, hasher_hexdigest lib_hexdigest h)
             end).2
            = Raise (TypeError "hexdigest() missing required argument 'length' (pos 1)")).
  { intros a Ha.
    pose proof (read_loop_alg (S (length unread)) f n unread (hasher_new a)) as H.
    unfold read_all.
    destruct (read_loop _ f update_step n unread _) as [[h|e] tr]; cbn [fst snd] in *.
    - unfold hasher_hexdigest. rewrite H. by destruct Ha as [-> | ->].
    - destruct H as [-> ?]. destruct Hread; [done|lia]. }
  destruct Hs as [-> | ->]; unfold _computeHashImpl; cbn [is_name]; simpl.
  - apply (Hgoal SHAKE_128). by left.
  - apply (Hgoal SHAKE_256). by right.
Qed.

(** C7, at the failing inputs.  [hasherFromString] offers ["shake_128"]
    and ["shake_256"], but for every file, every buffer and every
    positive buffer size [computeHash] and [computeHashBytes] raise
    [TypeError] with them instead of returning a digest string. *)
Theorem computeHash_shake_no_digest
    (fs : fsmap) (path : string) (content : bytes) (mtime : Z) (b : bytes)
    (s : string) (n : Z) :
  0 < n ->
  fs !! path = Some (File content mtime) ->
  s = "shake_128" \/ s = "shake_256" ->
  supported_name xxhash_installed s = true
  /\ (hashFile fs path (ByName s) n).2
     = Raise (TypeError "hexdigest() missing required argument 'length' (pos 1)")
  /\ hashBytes b (ByName s) n
     = Raise (TypeError "hexdigest() missing required argument 'length' (pos 1)").
Proof.
  intros Hn Hfile Hs. split; [by destruct Hs as [-> | ->]|]. split.
  - unfold computeHash. rewrite Hfile.
    pose proof (computeHashImpl_shake BufferedReader content n s Hs) as H.
    destruct (impl BufferedReader content (ByName s) n) as [tr r].
    cbn [snd] in *. apply H. right. lia.
  - apply computeHashImpl_shake; [done|by left].
Qed.

(** The other branches are independent of the buffer size.  For every
    hasher argument but ["crc64"], every file, every buffer and every
    positive buffer size, the outcome of [computeHash] is the digest of
    the content of the file and the one of [computeHashBytes] the digest
    of the buffer, each taken in one piece. *)
Lemma computeHash_digest_of_content
    (fs : fsmap) (path : string) (content : bytes) (mtime : Z) (b : bytes)
    (hasher : hasher_arg) (n : Z) :
  0 < n ->
  is_name hasher "crc64" = false ->
  fs !! path = Some (File content mtime) ->
  (hashFile fs path hasher n).2 = digest content hasher
  /\ hashBytes b hasher n = digest b hasher.
Proof.
  intros Hn H64 Hfile. split; [|by apply computeHashImpl_whole].
  unfold computeHash. rewrite Hfile.
  pose proof (computeHashImpl_whole BufferedReader content hasher n Hn H64) as H.
  by destruct (impl BufferedReader content hasher n).
Qed.

(** That digest is a string for ["crc32"] and for every accumulator that
    is not a SHAKE one. *)
Lemma digest_of_bytes_string (data : bytes) (hasher : hasher_arg) :
  (is_name hasher "crc32" = true ->
   digest data hasher = Ok (format_08x (Z.land (zlib_crc32 data 0) mask32)))
  /\ (forall h,
        is_name hasher "crc32" = false ->
        is_name hasher "crc64" = false ->
        match hasher with
        | ByName s => hasherFromString xxhash_installed s
        | ByObject h' => Ok h'
        end = Ok h ->
        h_alg h <> SHAKE_128 -> h_alg h <> SHAKE_256 ->
        digest data hasher
        = Ok (match h_alg h with
              | SHA256 => Sha256.hexdigest (h_fed h ++ data)
              | a => lib_hexdigest a (h_fed h ++ data)
              end)).
Proof.
  unfold digest_of_bytes. split.
  - by intros ->.
  - intros h -> -> -> H128 H256. unfold hasher_hexdigest, hasher_update.
    cbn [h_alg h_fed]. by destruct (h_alg h).
Qed.

(** The ["crc64"] branch starts the running pair as [None]: when
    [crc64_pair] does not take that, the call ends with its exception
    after the first chunk. *)
Lemma computeHash_crc64_first_chunk
    (m : crc64_module) (fs : fsmap) (path : string) (content : bytes) (mtime : Z)
    (n : Z) (e : exn) :
  crc64iso = Some m ->
  0 < n ->
  fs !! path = Some (File content mtime) ->
  content <> [] ->
  crc64_pair m (take (Z.to_nat n) content) None = Raise e ->
  hashFile fs path (ByName "crc64") n
  = ([IoOpen path; IoRead n (length (take (Z.to_nat n) content)); IoClose path],
     Raise e).
Proof.
  intros Hm Hn Hfile Hne Hpair. unfold computeHash. rewrite Hfile.
  unfold _computeHashImpl. cbn [is_name]. simpl String.eqb. cbv iota. rewrite Hm.
  unfold read_all. cbn [read_loop].
  destruct (file_read_positive BufferedReader n content Hn) as [-> Hpos].
  destruct content as [|c content]; [done|].
  destruct (Z.to_nat n) as [|k] eqn:Hk; [lia|].
  cbn [take firstn drop skipn] in *. unfold crc64_step at 1. by rewrite Hpair.
Qed.

End HashEngineFacts.

Lemma computeHash_shake_no_digest_witness :
  0 < 65536 /\
  sample_files !! "a.txt" = Some (File ["h"%byte; "i"%byte] 5) /\
  (computeHash no_digest false None sample_files "a.txt" (ByName "shake_128") 65536).2
  = Raise (TypeError "hexdigest() missing required argument 'length' (pos 1)") /\
  computeHashBytes no_digest false None ["h"%byte; "i"%byte] (ByName "shake_128") 65536
  = Raise (TypeError "hexdigest() missing required argument 'length' (pos 1)").
Proof.
  split; [lia|]. split; [by vm_compute|].
  apply (computeHash_shake_no_digest no_digest false None sample_files "a.txt"
           ["h"%byte; "i"%byte] 5 ["h"%byte; "i"%byte] "shake_128" 65536);
    [lia|by vm_compute|by left].
Defined.

Section HashEngineCases.

Variable lib_hexdigest : hash_alg -> bytes -> string.
Variable xxhash_installed : bool.
Variable crc64iso : option crc64_module.

(** Whatever the input and the buffer size, hashing with a SHAKE
    accumulator ends in the [TypeError] of its [hexdigest()]. *)
Lemma computeHashBytes_shake_raises (b : bytes) (n : Z) (s : string) :
  s = "shake_128" \/ s = "shake_256" ->
  computeHashBytes lib_hexdigest xxhash_installed crc64iso b (ByName s) n
  = Raise (TypeError "hexdigest() missing required argument 'length' (pos 1)").
Proof.
  intros Hs.
  assert (Hgoal : forall a, a = SHAKE_128 \/ a = SHAKE_256 ->
            (let '(r, tr) := read_all BytesIO update_step n b (hasher_new a) in
             match r with
             | Raise e => (tr, Raise e)
             | Ok h => (tr, hasher_hexdigest lib_hexdigest h)
             end).2
            = Raise (TypeError "hexdigest() missing required argument 'length' (pos 1)")).
  { intros a Ha.
    pose proof (read_loop_alg (S (length b)) BytesIO n b (hasher_new a)) as H.
    unfold read_all.
    destruct (read_loop _ BytesIO update_step n b _) as [[h|e] tr]; cbn [fst snd] in *.
    - unfold hasher_hexdigest. rewrite H. by destruct Ha as [-> | ->].
    - by destruct H. }
  destruct Hs as [-> | ->]; unfold computeHashBytes, _computeHashImpl;
    cbn [is_name]; simpl.
  - apply (Hgoal SHAKE_128). by left.
  - apply (Hgoal SHAKE_256). by right.
Qed.

(** C8, at the failing input.  [hasherFromString] offers ["shake_128"]
    and ["shake_256"], but hashing the empty buffer with either raises
    [TypeError] instead of returning a digest, for every buffer size. *)
Theorem computeHashBytes_empty_shake (n : Z) :
  computeHashBytes lib_hexdigest xxhash_installed crc64iso [] (ByName "shake_128") n
    = Raise (TypeError "hexdigest() missing required argument 'length' (pos 1)")
  /\ computeHashBytes lib_hexdigest xxhash_installed crc64iso [] (ByName "shake_256") n
    = Raise (TypeError "hexdigest() missing required argument 'length' (pos 1)")
  /\ supported_name xxhash_installed "shake_128" = true
  /\ supported_name xxhash_installed "shake_256" = true.
Proof.
  repeat split; try reflexivity; apply computeHashBytes_shake_raises; auto.
Qed.

(** The empty buffer hashed with SHA-256 and with CRC-32, for every
    buffer size. *)
Lemma computeHashBytes_empty_sha256 (n : Z) :
  computeHashBytes lib_hexdigest xxhash_installed crc64iso [] (ByName "sha256") n
  = Ok "e3b0c44298fc1c149afbf4c8996fb92427ae41e4649b934ca495991b7852b855".
Proof.
  unfold computeHashBytes, _computeHashImpl. simpl.
  rewrite read_all_nil. by vm_compute.
Qed.

Lemma computeHashBytes_empty_crc32 (n : Z) :
  computeHashBytes lib_hexdigest xxhash_installed crc64iso [] (ByName "crc32") n
  = Ok "00000000".
Proof.
  unfold computeHashBytes, _computeHashImpl. simpl.
  rewrite read_all_nil. by vm_compute.
Qed.

(** An identifier that is not supported is one [hasherFromString]
    rejects with its [ValueError]. *)
Lemma unsupported_name (s : string) :
  supported_name xxhash_installed s = false ->
  is_name (ByName s) "crc32" = false
  /\ is_name (ByName s) "crc64" = false
  /\ hasherFromString xxhash_installed s
     = Raise (ValueError ("Unknown hash type " +:+ s)).
Proof.
  unfold supported_name, hasherFromString, import_xxhash, is_name.
  destruct (String.eqb s "crc32"); [done|].
  destruct (String.eqb s "crc64"); [done|]. simpl.
  repeat (match goal with
          | |- context [String.eqb s ?x] => destruct (String.eqb s x)
          end);
    try done; by destruct xxhash_installed.
Qed.

(** C9, amended.  For an identifier that is not supported, [computeHash]
    opens the file first: on a regular file it raises the [ValueError] of
    the unknown identifier after the [open] and before any [read], and
    closes the file; on a path that cannot be opened it raises the error
    of [open], not that of the identifier. *)
Theorem computeHash_unknown_after_open
    (fs : fsmap) (path s : string) (n : Z) :
  supported_name xxhash_installed s = false ->
  computeHash lib_hexdigest xxhash_installed crc64iso fs path (ByName s) n
  = match fs !! path with
    | Some (File _ _) =>
        ([IoOpen path; IoClose path],
         Raise (ValueError ("Unknown hash type " +:+ s)))
    | Some Dir => ([IoOpen path], Raise (OSError 21))
    | None => ([IoOpen path], Raise (OSError 2))
    end.
Proof.
  intros Hs. destruct (unsupported_name s Hs) as (H32 & H64 & Hfrom).
  unfold computeHash, _computeHashImpl.
  destruct (fs !! path) as [[content mtime|]|]; [|done..].
  by rewrite H32, H64, Hfrom.
Qed.

End HashEngineCases.

Lemma computeHash_unknown_after_open_witness :
  supported_name false "whirlpool" = false /\
  computeHash no_digest false None sample_files "a.txt" (ByName "whirlpool") 4
  = ([IoOpen "a.txt"; IoClose "a.txt"],
     Raise (ValueError "Unknown hash type whirlpool")).
Proof.
  split; [reflexivity|].
  apply (computeHash_unknown_after_open no_digest false None
           sample_files "a.txt" "whirlpool" 4).
  reflexivity.
Defined.

(** C9 as stated fails: with the unknown identifier ["whirlpool"],
    [computeHash] has opened the file before it rejects the identifier,
    and on a missing path the error is that of [open]. *)
Lemma computeHash_unknown_not_before_io :
  supported_name false "whirlpool" = false
  /\ In (IoOpen "a.txt")
        (computeHash no_digest false None sample_files "a.txt" (ByName "whirlpool") 4).1
  /\ computeHash no_digest false None sample_files "gone.bin" (ByName "whirlpool") 4
     = ([IoOpen "gone.bin"], Raise (OSError 2)).
Proof. split; [reflexivity|]. split; [by left|reflexivity]. Qed.

(** ** TraversalEngine *)

(** Induction over trees, with the hypothesis for every entry of a
    directory. *)
Lemma tree_ind_entries (P : tree -> Prop) :
  (forall n, P (TFile n)) ->
  (forall n e, P (TBadDir n e)) ->
  (forall n entries, Forall P entries -> P (TDir n entries)) ->
  forall t, P t.
Proof.
  intros Hfile Hbad Hdir. fix IH 1. intros [n|n entries|n e].
  - apply Hfile.
  - apply Hdir. induction entries as [|t entries IHentries]; constructor.
    + apply IH.
    + apply IHentries.
  - apply Hbad.
Qed.

Section WalkFacts.

Variable plat : sys_platform.

Local Abbreviation yields_at a q entries :=
  (visit plat a q (dir_names entries) (file_names entries)).2.

Lemma keeps_dir_accepted (a : walk_args) (p name : string) :
  keeps_dir plat a p name = true <-> accepted (fnFilterDirs a) (join plat p name).
Proof. unfold keeps_dir, accepted. by destruct (fnFilterDirs a). Qed.

Lemma dir_name_elem (sub : tree) (entries : list tree) :
  sub ∈ entries -> is_dir_entry sub = true -> tree_name sub ∈ dir_names entries.
Proof.
  intros Hin Hdir. unfold dir_names. apply list_elem_of_In, in_map.
  apply list_elem_of_In, list_elem_of_filter. done.
Qed.

(** Top-down, whatever [walk] yields was yielded for a directory that is
    reached through directories the filter accepts. *)
Lemma walk_sound (a : walk_args) (t : tree) :
  topDown a = true ->
  forall (p : string) (it : item),
    it ∈ walk plat a p t ->
    exists via q name entries,
      descends plat p t via q (TDir name entries)
      /\ Forall (accepted (fnFilterDirs a)) via
      /\ it ∈ yields_at a q entries.
Proof.
  intros Htop. induction t as [n|n e|n entries IH] using tree_ind_entries;
    intros p it Hin; simpl in Hin; [by apply elem_of_nil in Hin..|].
  rewrite Htop in Hin. simpl in Hin.
  apply elem_of_app in Hin as [Hhere|Hbelow].
  - exists [], p, n, entries. split; [constructor|]. split; [constructor|done].
  - apply list_elem_of_In, in_flat_map in Hbelow as (sub & Hsub & Hit).
    apply list_elem_of_In in Hsub.
    destruct (is_dir_entry sub) eqn:Hdir; simpl in Hit; [|done].
    destruct (bool_decide _) eqn:Hkeep; [|done].
    apply bool_decide_eq_true, list_elem_of_filter in Hkeep as [Hkeep _].
    rewrite Forall_forall in IH.
    destruct (IH sub Hsub _ _ (proj2 (list_elem_of_In _ _) Hit))
      as (via & q & name & es & Hdesc & Hvia & Hyield).
    exists (join plat p (tree_name sub) :: via), q, name, es.
    split; [by constructor|]. split; [|done].
    constructor; [by apply keeps_dir_accepted|done].
Qed.

(** Top-down, [walk] yields everything that is to be yielded for a
    directory reached through accepted directories. *)
Lemma walk_complete (a : walk_args) (p : string) (t : tree)
    (via : list string) (q name : string) (entries : list tree) (it : item) :
  topDown a = true ->
  descends plat p t via q (TDir name entries) ->
  Forall (accepted (fnFilterDirs a)) via ->
  it ∈ yields_at a q entries ->
  it ∈ walk plat a p t.
Proof.
  intros Htop Hdesc. remember (TDir name entries) as d eqn:Hd.
  induction Hdesc as [p t|p n es sub via q d Hsub Hdir Hdesc IH];
    intros Hvia Hyield.
  - subst t. simpl. rewrite Htop. simpl. apply elem_of_app. by left.
  - apply Forall_cons in Hvia as [Hacc Hvia].
    specialize (IH Hd Hvia Hyield).
    simpl. rewrite Htop. simpl. apply elem_of_app. right.
    apply list_elem_of_In, in_flat_map. exists sub.
    split; [by apply list_elem_of_In|].
    rewrite Hdir. simpl.
    rewrite bool_decide_eq_true_2; [by apply list_elem_of_In|].
    apply list_elem_of_filter. split; [by apply keeps_dir_accepted|].
    by apply dir_name_elem.
Qed.

End WalkFacts.

Section RecurseFilesFacts.

Variable plat : sys_platform.

Lemma file_name_elem (name : string) (entries : list tree) :
  name ∈ file_names entries <-> TFile name ∈ entries.
Proof.
  unfold file_names. rewrite list_elem_of_In, in_map_iff. split.
  - intros (t & <- & Ht). apply list_elem_of_In, list_elem_of_filter in Ht as [Hf Ht].
    by destruct t.
  - intros Ht. exists (TFile name). split; [done|].
    apply list_elem_of_In, list_elem_of_filter. done.
Qed.

Lemma iter_filenames_elem (name : string) (names : list string) :
  name ∈ (if is_win plat then names else merge_sort String.le names) <-> name ∈ names.
Proof. destruct (is_win plat); [done|]. by rewrite merge_sort_Permutation. Qed.

(** What is yielded for one directory is its own item, when directories
    are included, and items of files that are entries of it. *)
Lemma visit_items (a : walk_args) (q : string) (entries : list tree) (it : item) :
  it ∈ (visit plat a q (dir_names entries) (file_names entries)).2 ->
  (includeDirs a = true /\ it = dir_item plat a q)
  \/ (includeFiles a = true /\
      exists name, TFile name ∈ entries
                   /\ ext_allowed plat (allowedExts a) name = true
                   /\ it = file_item plat a q name).
Proof.
  unfold visit. simpl. intros [Hf|Hd]%elem_of_app.
  - right. destruct (includeFiles a); [|by apply elem_of_nil in Hf].
    split; [done|].
    apply list_elem_of_In, in_map_iff in Hf as (name & <- & Hname).
    apply list_elem_of_In, list_elem_of_filter in Hname as [Hext Hname].
    exists name. split; [|done].
    by apply file_name_elem, iter_filenames_elem.
  - left. destruct (includeDirs a); [|by apply elem_of_nil in Hd].
    by apply list_elem_of_singleton in Hd.
Qed.

Lemma visit_file_item (a : walk_args) (q name : string) (entries : list tree) :
  includeFiles a = true ->
  TFile name ∈ entries ->
  ext_allowed plat (allowedExts a) name = true ->
  file_item plat a q name ∈ (visit plat a q (dir_names entries) (file_names entries)).2.
Proof.
  intros Hinc Hname Hext. unfold visit. simpl. rewrite Hinc.
  apply elem_of_app. left. apply list_elem_of_In, in_map, list_elem_of_In.
  apply list_elem_of_filter. split; [done|].
  by apply iter_filenames_elem, file_name_elem.
Qed.

Lemma ext_allowed_nonempty (exts : list string) (name : string) :
  exts <> [] ->
  ext_allowed plat (Some exts) name = true <-> getExt plat name true ∈ exts.
Proof.
  intros Hne. unfold ext_allowed. destruct exts as [|e exts]; [done|]. simpl.
  by rewrite bool_decide_eq_true.
Qed.

Lemma getExt_without_dot (s : string) :
  getExt plat s true = lower (without_dot (splitExt plat s).2).
Proof.
  unfold getExt, without_dot. destruct (splitExt plat s).2 as [|c after]; [done|].
  by destruct (char_is (String c after) 0 ".").
Qed.

Lemma getExt_in_allowlist (exts : list string) (name : string) :
  Forall (fun e => lower e = e) exts ->
  getExt plat name true ∈ exts <-> extension_in_allowlist plat name exts.
Proof.
  intros Hlow. rewrite Forall_forall in Hlow. unfold extension_in_allowlist.
  rewrite getExt_without_dot. split.
  - intros Hin. eexists. split; [done|]. by apply Hlow.
  - intros (e & Hin & He). by rewrite <- He, (Hlow e Hin).
Qed.

(** C5, amended.  With a non-empty allowlist of lower-case extensions,
    files included, directories not, and walking top-down, [recurseFiles]
    yields exactly the pairs (full path, name) of the files that lie in
    [root] or in a directory reached from it through directories the
    filter accepts, and whose extension, without its leading dot and
    compared without regard to case, is in the allowlist. *)
Theorem recurseFiles_allowlist (a : walk_args) (root : string) (t : tree)
    (exts : list string) (items : list item) :
  allowedExts a = Some exts ->
  exts <> [] ->
  Forall (fun e => lower e = e) exts ->
  includeFiles a = true ->
  includeDirs a = false ->
  topDown a = true ->
  filenamesOnly a = false ->
  recurseFiles plat a root t = Ok items ->
  forall it : item,
    it ∈ items <->
    exists via q dname entries name,
      descends plat root t via q (TDir dname entries)
      /\ Forall (accepted (fnFilterDirs a)) via
      /\ TFile name ∈ entries
      /\ extension_in_allowlist plat name exts
      /\ it = Pair (q +:+ os_sep plat +:+ name) name.
Proof.
  intros Hexts Hne Hlow Hfiles Hdirs Htop Hnames Hrun it.
  unfold recurseFiles in Hrun. destruct (is_dir_entry t); [|done].
  injection Hrun as <-. split.
  - intros Hin.
    destruct (walk_sound plat a t Htop root it Hin)
      as (via & q & dname & entries & Hdesc & Hvia & Hyield).
    apply visit_items in Hyield as [[Hd _]|[_ (name & Hname & Hext & ->)]];
      [congruence|].
    exists via, q, dname, entries, name. repeat split; try done.
    + rewrite Hexts in Hext. by apply getExt_in_allowlist, ext_allowed_nonempty.
    + unfold file_item. by rewrite Hnames.
  - intros (via & q & dname & entries & name & Hdesc & Hvia & Hname & Hext & ->).
    apply (walk_complete plat a root t via q dname entries); try done.
    replace (Pair (q +:+ os_sep plat +:+ name) name) with (file_item plat a q name)
      by (unfold file_item; by rewrite Hnames).
    apply visit_file_item; try done.
    rewrite Hexts. by apply ext_allowed_nonempty, getExt_in_allowlist.
Qed.

End RecurseFilesFacts.

(** The scenario of the specification: only the [txt] files, and nothing
    from the pruned directory. *)
Lemma recurseFiles_txt_scenario :
  recurseFiles Linux txt_args "root" sample_tree
  = Ok [Pair "root/a.txt" "a.txt"; Pair "root/sub/c.txt" "c.txt"].
Proof. by vm_compute. Qed.

(** The case of the extension in the file name does not matter. *)
Lemma recurseFiles_upper_case_extension :
  recurseFiles Linux txt_args "root" (TDir "root" [TFile "NOTES.TXT"; TFile "x.Txt.bak"])
  = Ok [Pair "root/NOTES.TXT" "NOTES.TXT"].
Proof. by vm_compute. Qed.

Lemma recurseFiles_allowlist_witness :
  Pair "root/sub/c.txt" "c.txt"
    ∈ [Pair "root/a.txt" "a.txt"; Pair "root/sub/c.txt" "c.txt"]
  <->
  exists via q dname entries name,
    descends Linux "root" sample_tree via q (TDir dname entries)
    /\ Forall (accepted (fnFilterDirs txt_args)) via
    /\ TFile name ∈ entries
    /\ extension_in_allowlist Linux name ["txt"]
    /\ Pair "root/sub/c.txt" "c.txt" = Pair (q +:+ os_sep Linux +:+ name) name.
Proof.
  apply (recurseFiles_allowlist Linux txt_args "root" sample_tree ["txt"]).
  - reflexivity.
  - discriminate.
  - repeat constructor.
  - reflexivity.
  - reflexivity.
  - reflexivity.
  - reflexivity.
  - vm_compute. reflexivity.
Defined.

(** C5 as stated fails for the empty allowlist: [recurseFiles] takes it for
    no allowlist and yields every file, [b.png] among them, though no
    extension is an element of the empty allowlist. *)
Lemma recurseFiles_empty_allowlist_yields_all :
  recurseFiles Linux
    {| filenamesOnly := false; allowedExts := Some [];
       fnFilterDirs := None; includeFiles := true; includeDirs := false;
       topDown := true |} "root" sample_tree
  = Ok [Pair "root/a.txt" "a.txt"; Pair "root/b.png" "b.png";
        Pair "root/sub/c.txt" "c.txt"; Pair "root/skip/d.txt" "d.txt"]
  /\ getExt Linux "b.png" true = "png"
  /\ "png" ∉ ([] : list string).
Proof. split; [by vm_compute|]. split; [by vm_compute|]. apply not_elem_of_nil. Qed.

Section RecurseFileInfoFacts.

Variable plat : sys_platform.
Variable a : info_args.

Local Abbreviation self := (fun path entry => recurseFileInfo plat a path entry).
Local Abbreviation scan := (scan_entries plat a).
Local Abbreviation body := (visit_entry plat a).

Lemma enters_accepted (path : string) :
  enters a path = true <-> recurse a = true /\ accepted (fnFilterDirs' a) path.
Proof.
  unfold enters, accepted. rewrite andb_true_iff.
  destruct (fnFilterDirs' a); [done|intuition].
Qed.

(** *** The loop in terms of its body *)

Lemma scan_event root f (es : list tree) (ev : info_event) :
  ev ∈ (scan root f es).1 -> exists entry, entry ∈ es /\ ev ∈ (body root f entry).1.
Proof.
  induction es as [|entry es IH]; simpl; [by intros ?%elem_of_nil|].
  destruct (body root f entry) as [evs [e|]] eqn:Hbody; simpl.
  - intros Hev. exists entry. rewrite Hbody. split; [left|done].
  - destruct (scan root f es) as [rest r]. simpl in *.
    intros [Hev|Hev]%elem_of_app.
    + exists entry. rewrite Hbody. split; [left|done].
    + destruct (IH Hev) as (entry' & Hin & Hev'). exists entry'. split; [by right|done].
Qed.

Lemma scan_abort root f (es : list tree) (e : exn) :
  (scan root f es).2 = Some e -> exists entry, entry ∈ es /\ (body root f entry).2 = Some e.
Proof.
  induction es as [|entry es IH]; simpl; [done|].
  destruct (body root f entry) as [evs [e'|]] eqn:Hbody; simpl.
  - intros [= ->]. exists entry. rewrite Hbody. split; [left|done].
  - destruct (scan root f es) as [rest r]. simpl in *.
    intros Hr. destruct (IH Hr) as (entry' & Hin & He). exists entry'.
    split; [by right|done].
Qed.

Lemma scan_aborts root f (es : list tree) (entry : tree) (e : exn) :
  entry ∈ es -> (body root f entry).2 = Some e -> exists e', (scan root f es).2 = Some e'.
Proof.
  induction es as [|entry' es IH]; [by intros ?%elem_of_nil|].
  intros Hin He. simpl.
  destruct (body root f entry') as [evs [e'|]] eqn:Hbody; simpl; [by eexists|].
  apply elem_of_cons in Hin as [->|Hin]; [by rewrite Hbody in He|].
  destruct (IH Hin He) as [e' He'].
  destruct (scan root f es) as [rest r]. simpl in *. by exists e'.
Qed.

Lemma scan_all root f (es : list tree) (entry : tree) (ev : info_event) :
  (scan root f es).2 = None ->
  entry ∈ es -> ev ∈ (body root f entry).1 -> ev ∈ (scan root f es).1.
Proof.
  induction es as [|entry' es IH]; [by intros _ ?%elem_of_nil|].
  simpl. destruct (body root f entry') as [evs [e'|]] eqn:Hbody; simpl; [done|].
  destruct (scan root f es) as [rest r]. simpl in *.
  intros Hr Hin Hev. apply elem_of_app.
  apply elem_of_cons in Hin as [->|Hin].
  - left. by rewrite Hbody in Hev.
  - right. by apply IH.
Qed.

(** *** The body *)

Lemma body_abort root f (entry : tree) (e : exn) :
  (body root f entry).2 = Some e ->
  is_dir_entry entry = true
  /\ enters a (join plat root (tree_name entry)) = true
  /\ (f (join plat root (tree_name entry)) entry).2 = Some e
  /\ redirect a && isinstance_OSError e = false.
Proof.
  unfold visit_entry. destruct (is_dir_entry entry); [|done].
  destruct (enters a _); [|done].
  destruct (f _ entry) as [sub [e'|]]; [|done]. simpl.
  destruct (redirect a && isinstance_OSError e') eqn:Hre; simpl; [done|].
  by intros [= <-].
Qed.

Lemma body_event root f (entry : tree) (ev : info_event) :
  ev ∈ (body root f entry).1 ->
  let path := join plat root (tree_name entry) in
  ev = Yielded path (is_dir_entry entry)
  \/ (is_dir_entry entry = true /\ enters a path = true /\ ev ∈ (f path entry).1)
  \/ (is_dir_entry entry = true /\ enters a path = true
      /\ exists e, ev = Redirected path e
                   /\ (f path entry).2 = Some e
                   /\ redirect a = true /\ isinstance_OSError e = true).
Proof.
  unfold visit_entry. simpl.
  destruct (is_dir_entry entry); [|intros ->%list_elem_of_singleton; by left].
  assert (Hown : forall ev' : info_event,
             ev' ∈ (if filesOnly a
                    then []
                    else [Yielded (join plat root (tree_name entry)) true]) ->
             ev' = Yielded (join plat root (tree_name entry)) true).
  { intros ev'. destruct (filesOnly a); [by intros ?%elem_of_nil|].
    by intros ->%list_elem_of_singleton. }
  destruct (enters a _); [|intros ->%Hown; by left].
  destruct (f _ entry) as [sub [e|]]; simpl.
  - destruct (redirect a) eqn:Hred, (isinstance_OSError e) eqn:Hos; simpl.
    + rewrite !elem_of_app. intros [->%Hown|[Hsub| ->%list_elem_of_singleton]].
      * by left.
      * right. by left.
      * right. right. repeat split; try done. by exists e.
    + intros [->%Hown|Hsub]%elem_of_app; [by left|right; by left].
    + intros [->%Hown|Hsub]%elem_of_app; [by left|right; by left].
    + intros [->%Hown|Hsub]%elem_of_app; [by left|right; by left].
  - intros [->%Hown|Hsub]%elem_of_app; [by left|right; by left].
Qed.

Lemma body_own root f (entry : tree) :
  is_dir_entry entry = true -> filesOnly a = false ->
  Yielded (join plat root (tree_name entry)) true ∈ (body root f entry).1.
Proof.
  intros Hdir Hfiles. unfold visit_entry. rewrite Hdir, Hfiles.
  destruct (enters a _); [|by left].
  destruct (f _ entry) as [sub [e|]]; [destruct (_ && _)|]; simpl; left.
Qed.

(** *** The traversal *)


(** Every entry yielded is an entry of the root or of a directory
    reached through directories that were entered. *)
Lemma recurseFileInfo_yield (t : tree) :
  forall root path d,
    Yielded path d ∈ (recurseFileInfo plat a root t).1 ->
    exists via q name entries k,
      descends plat root t via q (TDir name entries)
      /\ Forall (accepted (fnFilterDirs' a)) via
      /\ k ∈ entries
      /\ path = join plat q (tree_name k)
      /\ d = is_dir_entry k.
Proof.
  induction t as [n|n e|n entries IH] using tree_ind_entries;
    intros root path d Hev; simpl in Hev; [by apply elem_of_nil in Hev..|].
  apply scan_event in Hev as (entry & Hin & Hev).
  apply body_event in Hev as [[= -> ->]|[(Hdir & Hent & Hsub)|(_ & _ & e & ? & _)]];
    [| |done].
  - exists [], root, n, entries, entry. repeat split; try done; constructor.
  - rewrite Forall_forall in IH.
    destruct (IH entry Hin _ _ _ Hsub) as (via & q & name & es & k & Hdesc & Hvia & Hk & -> & ->).
    exists (join plat root (tree_name entry) :: via), q, name, es, k.
    repeat split; try done; [by constructor|].
    constructor; [|done]. by apply enters_accepted in Hent as [_ ?].
Qed.



(** What the recursive call on an entered directory yields is yielded by
    the loop body. *)
Lemma body_sub root f (entry : tree) (ev : info_event) :
  is_dir_entry entry = true ->
  enters a (join plat root (tree_name entry)) = true ->
  ev ∈ (f (join plat root (tree_name entry)) entry).1 ->
  ev ∈ (body root f entry).1.
Proof.
  intros Hdir Hent Hev. unfold visit_entry. rewrite Hdir, Hent.
  destruct (f _ entry) as [sub [e|]]; [destruct (_ && _)|]; simpl in *;
    rewrite !elem_of_app; auto.
Qed.

(** The exception that ends the traversal of an enumerable directory is
    one its frames do not hand to the callback. *)
Lemma recurseFileInfo_abort_kind root (n : string) (entries : list tree) (e : exn) :
  (recurseFileInfo plat a root (TDir n entries)).2 = Some e ->
  redirect a && isinstance_OSError e = false.
Proof.
  intros Hr. simpl in Hr.
  apply scan_abort in Hr as (entry & _ & Hbody).
  by apply body_abort in Hbody as (_ & _ & _ & Hre).
Qed.

(** A traversal that completes has completed in every directory it went
    into. *)
Lemma recurseFileInfo_completes_below root (t : tree) via q (name : string)
    (entries : list tree) :
  descends plat root t via q (TDir name entries) ->
  (via <> [] -> recurse a = true) ->
  Forall (accepted (fnFilterDirs' a)) via ->
  (recurseFileInfo plat a root t).2 = None ->
  (recurseFileInfo plat a q (TDir name entries)).2 = None
  /\ forall ev, ev ∈ (recurseFileInfo plat a q (TDir name entries)).1 ->
                ev ∈ (recurseFileInfo plat a root t).1.
Proof.
  intros Hdesc. remember (TDir name entries) as d eqn:Hd.
  induction Hdesc as [p t|p name' es sub via q d Hsub Hdir Hdesc IH];
    intros Hrec Hvia Hnone; [done|].
  apply Forall_cons in Hvia as [Hacc Hvia].
  assert (Hent : enters a (join plat p (tree_name sub)) = true).
  { apply enters_accepted. split; [by apply Hrec|done]. }
  assert (Hsubnone : (recurseFileInfo plat a (join plat p (tree_name sub)) sub).2 = None).
  { destruct (recurseFileInfo plat a (join plat p (tree_name sub)) sub).2 as [e|] eqn:He;
      [|done].
    assert (Hkind : redirect a && isinstance_OSError e = false).
    { inversion Hdesc; subst; by eapply recurseFileInfo_abort_kind. }
    assert (Hbody : (body p self sub).2 = Some e).
    { unfold visit_entry. rewrite Hdir, Hent.
      destruct (recurseFileInfo plat a _ sub) as [evs r]. simpl in He. subst r.
      by rewrite Hkind. }
    destruct (scan_aborts p self es sub e Hsub Hbody) as [e' He'].
    simpl in Hnone. congruence. }
  destruct (IH Hd (fun _ => Hrec ltac:(done)) Hvia Hsubnone) as [Hq Hevs].
  split; [done|]. intros ev Hev. simpl.
  apply (scan_all p self es sub); [done|done|].
  apply body_sub; [done|done|]. by apply Hevs.
Qed.




End RecurseFileInfoFacts.


(** An [OSError] two levels down goes to the callback and the traversal
    goes on; an exception of another class ends it. *)
Lemma recurseFileInfo_faulty_tree :
  recurseFileInfo Linux info_sample_args "root" (faulty_tree (OSError 13))
  = ([Yielded "root/a.txt" false; Yielded "root/sub" true;
      Yielded "root/sub/locked" true; Redirected "root/sub/locked" (OSError 13);
      Yielded "root/sub/c.txt" false; Yielded "root/z.txt" false], None)
  /\ recurseFileInfo Linux info_sample_args "root" (faulty_tree (RuntimeError "stop"))
     = ([Yielded "root/a.txt" false; Yielded "root/sub" true;
         Yielded "root/sub/locked" true], Some (RuntimeError "stop")).
Proof. split; by vm_compute. Qed.

Section DirectoryFilter.

Variable plat : sys_platform.

Lemma descends_end (p : string) (t : tree) via q (d : tree) :
  descends plat p t via q d -> (via = [] /\ q = p) \/ last via = Some q.
Proof.
  induction 1 as [p t|p name es sub via q d Hsub Hdir Hdesc IH]; [by left|].
  right. destruct IH as [[-> ->]|Hlast]; [done|].
  destruct via; [done|]. by rewrite last_cons, Hlast.
Qed.

Lemma descends_end_accepted f (p : string) (t : tree) via q (d : tree) :
  descends plat p t via q d ->
  Forall (accepted f) via ->
  (via = [] /\ q = p) \/ accepted f q.
Proof.
  intros Hdesc Hvia. destruct (descends_end _ _ _ _ _ Hdesc) as [?|Hlast]; [by left|].
  right. rewrite Forall_forall in Hvia. apply Hvia.
  by apply last_Some_elem_of.
Qed.

(** C6, amended.  In [recurseFiles], walking top-down, everything
    yielded belongs to the root or to a directory reached through
    accepted directories only, and a directory is yielded only if it is
    the root or accepted: a rejected subdirectory is neither descended
    into nor yielded.  In [recurseFileInfo] a rejected subdirectory is
    not descended into either, every entry yielded being an entry of the
    root or of a directory reached through accepted directories; but the
    entry of a subdirectory is yielded before the filter is asked, so
    that with [filesOnly] false every subdirectory of the root is
    yielded, rejected or not, when the traversal runs to its end. *)
Theorem directory_filter_prunes :
  (forall (a : walk_args) (root : string) (t : tree) (items : list item) (it : item),
      topDown a = true ->
      recurseFiles plat a root t = Ok items ->
      it ∈ items ->
      exists via q name entries,
        descends plat root t via q (TDir name entries)
        /\ Forall (accepted (fnFilterDirs a)) via
        /\ ((via = [] /\ q = root) \/ accepted (fnFilterDirs a) q)
        /\ ((includeDirs a = true /\ it = dir_item plat a q)
            \/ exists fname, TFile fname ∈ entries /\ it = file_item plat a q fname))
  /\ (forall (a : info_args) (root : string) (t : tree) (path : string) (d : bool),
        Yielded path d ∈ (recurseFileInfo plat a root t).1 ->
        exists via q name entries k,
          descends plat root t via q (TDir name entries)
          /\ Forall (accepted (fnFilterDirs' a)) via
          /\ k ∈ entries
          /\ path = join plat q (tree_name k)
          /\ d = is_dir_entry k)
  /\ (forall (a : info_args) (root name : string) (entries : list tree) (k : tree),
        filesOnly a = false ->
        (recurseFileInfo plat a root (TDir name entries)).2 = None ->
        k ∈ entries ->
        is_dir_entry k = true ->
        Yielded (join plat root (tree_name k)) true
          ∈ (recurseFileInfo plat a root (TDir name entries)).1).
Proof.
  split; [|split].
  - intros a root t items it Htop Hrun Hin.
    unfold recurseFiles in Hrun. destruct (is_dir_entry t); [|done].
    injection Hrun as <-.
    destruct (walk_sound plat a t Htop root it Hin)
      as (via & q & name & entries & Hdesc & Hvia & Hyield).
    exists via, q, name, entries. repeat split; try done.
    + by eapply descends_end_accepted.
    + apply visit_items in Hyield as [?|(_ & fname & ? & _ & ?)]; [by left|].
      right. by exists fname.
  - intros a root t path d. apply recurseFileInfo_yield.
  - intros a root name entries k Hfiles Hend Hk Hdir. simpl in *.
    eapply scan_all; [done..|]. by apply body_own.
Qed.

End DirectoryFilter.

Lemma directory_filter_prunes_witness :
  topDown dirs_args = true /\
  recurseFiles Linux dirs_args "root" sample_tree
  = Ok [Pair "root/a.txt" "a.txt"; Pair "root/b.png" "b.png"; Pair "root" "root";
        Pair "root/sub/c.txt" "c.txt"; Pair "root/sub" "sub"] /\
  exists via q name entries,
    descends Linux "root" sample_tree via q (TDir name entries)
    /\ Forall (accepted (fnFilterDirs dirs_args)) via
    /\ ((via = [] /\ q = "root") \/ accepted (fnFilterDirs dirs_args) q)
    /\ ((includeDirs dirs_args = true /\ Pair "root/sub" "sub" = dir_item Linux dirs_args q)
        \/ exists fname, TFile fname ∈ entries
                         /\ Pair "root/sub" "sub" = file_item Linux dirs_args q fname).
Proof.
  split; [reflexivity|]. split; [by vm_compute|].
  apply (proj1 (directory_filter_prunes Linux) dirs_args "root" sample_tree
           [Pair "root/a.txt" "a.txt"; Pair "root/b.png" "b.png"; Pair "root" "root";
            Pair "root/sub/c.txt" "c.txt"; Pair "root/sub" "sub"]).
  - reflexivity.
  - by vm_compute.
  - do 4 right. left.
Defined.

(** C6 as stated fails for [recurseFileInfo]: the directory [root/skip],
    which the filter rejects, is yielded as an entry; nothing below it
    is. *)
Lemma recurseFileInfo_yields_rejected_dir :
  not_skip "root/skip" = false
  /\ recurseFileInfo Linux info_sample_args "root" sample_tree
     = ([Yielded "root/a.txt" false; Yielded "root/b.png" false;
         Yielded "root/sub" true; Yielded "root/sub/c.txt" false;
         Yielded "root/skip" true], None).
Proof. split; by vm_compute. Qed.

(** ** AtomicTransferEngine *)

Lemma isDir_not_isFile (w : world) (p : string) : isDir w p = true -> isFile w p = false.
Proof. unfold isDir, isFile. by destruct (files w !! p) as [[]|]. Qed.

Lemma path_exists_lookup (w : world) (p : string) (n : node) :
  files w !! p = Some n -> path_exists w p = true.
Proof. intros H. unfold path_exists. apply bool_decide_eq_true. by rewrite H. Qed.

Lemma path_exists_none (w : world) (p : string) :
  files w !! p = None -> path_exists w p = false.
Proof.
  intros H. unfold path_exists. apply bool_decide_eq_false. rewrite H.
  by intros [? ?].
Qed.

Lemma isFile_lookup (w : world) (p : string) (content : bytes) (mtime : Z) :
  files w !! p = Some (File content mtime) -> isFile w p = true.
Proof. intros H. unfold isFile. by rewrite H. Qed.

Lemma eqb_neq (s1 s2 : string) : s1 <> s2 -> String.eqb s1 s2 = false.
Proof. by intros H%String.eqb_neq. Qed.

Lemma isDir_none (w : world) (p : string) : files w !! p = None -> isDir w p = false.
Proof. intros H. unfold isDir. by rewrite H. Qed.

Lemma chunk_len_pos : (0 < chunk_len)%nat.
Proof. unfold chunk_len, copy_chunk. lia. Qed.

Lemma file_read_chunk (rest : bytes) :
  file_read BufferedReader copy_chunk rest
  = Ok (take chunk_len rest, drop chunk_len rest).
Proof. apply file_read_positive. unfold copy_chunk. lia. Qed.

Lemma bind_ok {A B : Type} (m : M A) (k : A -> M B) (w w' : world) (a : A) :
  m w = (w', Ok a) -> bind m k w = k a w'.
Proof. intros H. unfold bind. by rewrite H. Qed.

Lemma bind_raise {A B : Type} (m : M A) (k : A -> M B) (w w' : world) (e : exn) :
  m w = (w', Raise e) -> bind m k w = (w', Raise e).
Proof. intros H. unfold bind. by rewrite H. Qed.

(** One step of a computation whose first action returns. *)
Ltac step_ok := erewrite bind_ok by reflexivity; cbv beta.

Lemma when_trace (doTrace : bool) (w : world) : when doTrace trace w = (w, Ok tt).
Proof. by destruct doTrace. Qed.

(** C4, at the failing inputs.  For an existing directory source [copy]
    raises its source-missing error whatever [allowDirs] is: the check
    [isFile(srcFile)] comes before the one that looks at [allowDirs]. *)
Theorem copy_directory_source_raises (w : world) (srcFile destFile : string)
    (overwrite doTrace keepSameModifiedTime allowDirs createParent traceOnly : bool) :
  isDir w srcFile = true ->
  copy srcFile destFile overwrite doTrace keepSameModifiedTime allowDirs
       createParent traceOnly w
  = (w, Raise (OSFileRelatedError "source path does not exist or is not a file")).
Proof.
  intros Hdir. unfold copy, bind, gets. by rewrite (isDir_not_isFile _ _ Hdir).
Qed.

Lemma copy_directory_source_raises_witness :
  isDir (sample_world Linux None) "d" = true /\
  is_SourceMissing (OSFileRelatedError "source path does not exist or is not a file") = true /\
  copy "d" "e" true false false true false false (sample_world Linux None)
  = (sample_world Linux None,
     Raise (OSFileRelatedError "source path does not exist or is not a file")).
Proof.
  split; [reflexivity|]. split; [reflexivity|].
  apply (copy_directory_source_raises (sample_world Linux None) "d" "e"
           true false false true false false).
  reflexivity.
Defined.

(** The same defect reaches [move] where it copies and deletes: a
    directory source with [allowDirs] passes the checks of [move] and is
    then refused by [copy]. *)
Lemma move_directory_source_raises_posix :
  (move "d" "e" true false false true false false (sample_world Darwin None)).2
  = Raise (OSFileRelatedError "source path does not exist or is not a file").
Proof. by vm_compute. Qed.

(** Without a failing read the copy loop writes the whole content. *)
Lemma copy_loop_complete (fuel : nat) :
  forall (i : nat) (rest written : bytes),
    (length rest < fuel)%nat ->
    copy_loop fuel None i rest written = (written ++ rest, Ok tt).
Proof.
  pose proof chunk_len_pos as Hpos.
  induction fuel as [|fuel IH]; intros i rest written Hfuel; [lia|].
  cbn [copy_loop]. rewrite bool_decide_eq_false_2 by done.
  rewrite file_read_chunk.
  destruct (take chunk_len rest) as [|b buffer] eqn:Hbuf.
  - apply (f_equal length) in Hbuf. rewrite length_take in Hbuf. cbn [length] in Hbuf.
    destruct rest; [by rewrite app_nil_r|]. cbn [length] in Hbuf. lia.
  - assert (0 < length rest)%nat
      by (destruct rest; [by rewrite take_nil in Hbuf|cbn [length]; lia]).
    rewrite <- Hbuf, IH by (rewrite length_drop; lia).
    by rewrite <- app_assoc, take_drop.
Qed.

(** The postcondition of [copy] on the streaming path, for a destination
    that did not exist: it holds the content of the source, and nothing
    else changed. *)
Lemma copy_posix_creates (w : world) (srcFile destFile : string)
    (content : bytes) (mtime : Z)
    (overwrite doTrace keepSameModifiedTime allowDirs : bool) :
  is_win (platform w) = false ->
  files w !! srcFile = Some (File content mtime) ->
  files w !! destFile = None ->
  parent_errno w destFile = None ->
  read_fault w = None ->
  copy srcFile destFile overwrite doTrace keepSameModifiedTime allowDirs
       false false w
  = (with_files w (<[destFile := File content (clock w)]> (files w)), Ok tt).
Proof.
  intros Hplat Hsrc Hdst Hparent Hfault.
  assert (Hne : srcFile <> destFile) by congruence.
  assert (HsrcDir : isDir w srcFile = false) by (unfold isDir; by rewrite Hsrc).
  assert (Hstream : forall w', read_fault w' = None ->
             stream_into destFile content w'
             = (with_files w' (<[destFile := File content (clock w')]> (files w')), Ok tt)).
  { intros w' Hw'. unfold stream_into.
    by rewrite Hw', copy_loop_complete by lia. }
  assert (Hmain : _copyFilePosix srcFile destFile overwrite w
             = (with_files w (<[destFile := File content (clock w)]> (files w)), Ok tt)).
  { unfold _copyFilePosix. destruct overwrite.
    - unfold shutil_copy.
      rewrite (isDir_none _ _ Hdst), Hsrc, (eqb_neq _ _ Hne), Hparent. cbv zeta.
      rewrite (isDir_none _ _ Hdst). by apply Hstream.
    - erewrite bind_ok;
        [|unfold os_open_excl; by rewrite (path_exists_none _ _ Hdst), Hparent].
      simpl. rewrite lookup_insert_ne, Hsrc by done.
      rewrite Hstream by done. simpl. by rewrite insert_insert_eq. }
  unfold copy.
  step_ok. rewrite (isFile_lookup _ _ _ _ Hsrc). cbn [negb].
  step_ok. rewrite HsrcDir, andb_false_r.
  step_ok. rewrite (path_exists_none _ _ Hdst), andb_false_r.
  step_ok. erewrite bind_ok by apply when_trace.
  step_ok. step_ok. step_ok.
  rewrite (eqb_neq _ _ Hne), Hplat.
  erewrite bind_ok by apply Hmain.
  step_ok. unfold path_exists. simpl. rewrite lookup_insert_eq.
  by rewrite bool_decide_eq_true_2.
Qed.

(** The postcondition of [move] where it renames (Linux, [overwrite]), for
    a regular file moved within one volume to a path that is free or holds
    a regular file: the source is gone and the destination is the file. *)
Lemma move_linux_renames (w : world) (srcFile destFile : string)
    (content : bytes) (mtime : Z) (warnBetweenDrives doTrace allowDirs : bool) :
  platform w = Linux ->
  files w !! srcFile = Some (File content mtime) ->
  isDir w destFile = false ->
  srcFile <> destFile ->
  parent_errno w destFile = None ->
  volume w srcFile = volume w destFile ->
  move srcFile destFile true warnBetweenDrives doTrace allowDirs false false w
  = (with_files w (<[destFile := File content mtime]> (delete srcFile (files w))), Ok tt).
Proof.
  intros Hplat Hsrc Hdst Hne Hparent Hvol.
  assert (Hren : os_rename srcFile destFile w
            = (with_files w (<[destFile := File content mtime]> (delete srcFile (files w))),
               Ok tt)).
  { unfold os_rename. rewrite Hsrc, (eqb_neq _ _ Hne), Hparent, Hvol, Z.eqb_refl. simpl.
    unfold isDir in Hdst. by destruct (files w !! destFile) as [[]|]. }
  unfold move.
  step_ok. rewrite (path_exists_lookup _ _ _ Hsrc). cbn [negb].
  step_ok. rewrite (isFile_lookup _ _ _ _ Hsrc), andb_false_r.
  erewrite bind_ok by apply when_trace.
  step_ok. step_ok. step_ok.
  rewrite (eqb_neq _ _ Hne), Hplat. cbn [is_win is_linux andb].
  erewrite bind_ok by apply Hren.
  step_ok. unfold path_exists. simpl. rewrite lookup_insert_eq.
  by rewrite bool_decide_eq_true_2.
Qed.

(** Where [move] copies and deletes, a destination that is an existing
    directory receives the file inside it ([shutil.copy] does that), and
    the call succeeds with the directory still at the destination path. *)
Lemma move_into_directory_posix :
  let after :=
    move "a.txt" "d" true false false false false false (sample_world Darwin None) in
  after.2 = Ok tt
  /\ files after.1 !! "a.txt" = None
  /\ files after.1 !! "d" = Some Dir
  /\ files after.1 !! "d/a.txt" = Some (File ["h"%byte; "i"%byte] 100).
Proof. by vm_compute. Qed.

(** C3, at the failing inputs.  On Linux with [overwrite], [move] is a bare
    [os.rename]: when source and destination lie on different volumes the
    rename fails with the cross-device error and [move] lets it through;
    nothing is copied and the source stays. *)
Theorem move_cross_volume_linux_raises (w : world) (srcFile destFile : string)
    (content : bytes) (mtime : Z) (warnBetweenDrives doTrace allowDirs : bool) :
  platform w = Linux ->
  files w !! srcFile = Some (File content mtime) ->
  srcFile <> destFile ->
  parent_errno w destFile = None ->
  volume w srcFile <> volume w destFile ->
  move srcFile destFile true warnBetweenDrives doTrace allowDirs false false w
  = (w, Raise (OSError 18)).
Proof.
  intros Hplat Hsrc Hne Hparent Hvol.
  unfold move, bind, gets, when, ret, raise, trace.
  rewrite (path_exists_lookup _ _ _ Hsrc). simpl.
  rewrite (isFile_lookup _ _ _ _ Hsrc), andb_false_r.
  destruct doTrace; simpl.
  all: rewrite Hplat; simpl; rewrite (eqb_neq _ _ Hne).
  all: unfold os_rename; rewrite Hsrc, (eqb_neq _ _ Hne), Hparent; simpl.
  all: by destruct (Z.eqb_spec (volume w srcFile) (volume w destFile)).
Qed.

Lemma move_cross_volume_linux_raises_witness :
  platform (sample_world Linux None) = Linux /\
  files (sample_world Linux None) !! "a.txt" = Some (File ["h"%byte; "i"%byte] 5) /\
  "a.txt" <> "mnt/a.txt" /\
  volume (sample_world Linux None) "a.txt" <> volume (sample_world Linux None) "mnt/a.txt" /\
  move "a.txt" "mnt/a.txt" true false false false false false (sample_world Linux None)
  = (sample_world Linux None, Raise (OSError 18)).
Proof.
  split; [reflexivity|]. split; [by vm_compute|]. split; [discriminate|].
  split; [discriminate|].
  apply (move_cross_volume_linux_raises (sample_world Linux None) "a.txt" "mnt/a.txt"
           ["h"%byte; "i"%byte] 5 false false false).
  - reflexivity.
  - by vm_compute.
  - discriminate.
  - by vm_compute.
  - discriminate.
Defined.

(** The sibling paths do carry the file across volumes: the same move
    succeeds where [move] copies and deletes, and on Windows, also when the
    first call of the primitive fails for different drives. *)
Lemma move_cross_volume_siblings :
  let after plat warn :=
    move "a.txt" "mnt/a.txt" true warn false false false false (sample_world plat None) in
  (after Darwin false).2 = Ok tt
  /\ files (after Darwin false).1 !! "a.txt" = None
  /\ files (after Darwin false).1 !! "mnt/a.txt" = Some (File ["h"%byte; "i"%byte] 100)
  /\ (after Win32 false).2 = Ok tt
  /\ (after Win32 true).2 = Ok tt
  /\ files (after Win32 true).1 !! "a.txt" = None
  /\ files (after Win32 true).1 !! "mnt/a.txt" = Some (File ["h"%byte; "i"%byte] 5).
Proof. by vm_compute. Qed.

(** A read that raises after [k] full chunks leaves the loop with exactly
    those chunks written. *)
Lemma copy_loop_fault (k : nat) :
  forall (fuel i : nat) (rest written : bytes),
    (k * chunk_len <= length rest)%nat ->
    (length rest < fuel)%nat ->
    copy_loop fuel (Some (i + k)%nat) i rest written
    = (written ++ take (k * chunk_len) rest, Raise (OSError 5)).
Proof.
  pose proof chunk_len_pos as Hpos.
  induction k as [|k IH]; intros fuel i rest written Hk Hfuel;
    (destruct fuel as [|fuel]; [lia|]); cbn [copy_loop].
  - rewrite Nat.add_0_r, bool_decide_eq_true_2 by done.
    by rewrite Nat.mul_0_l, take_0, app_nil_r.
  - rewrite bool_decide_eq_false_2 by (intros [=]; lia).
    rewrite file_read_chunk.
    destruct (take chunk_len rest) as [|b buffer] eqn:Hbuf.
    { apply (f_equal length) in Hbuf. rewrite length_take in Hbuf.
      cbn [length] in Hbuf. lia. }
    rewrite <- Hbuf. replace (i + S k)%nat with (S i + k)%nat by lia.
    rewrite IH by (rewrite length_drop; lia).
    rewrite <- app_assoc, take_take_drop.
    by change (chunk_len + k * chunk_len)%nat with (S k * chunk_len)%nat.
Qed.

Lemma stream_into_fault (w : world) (dst : string) (content : bytes) (k : nat) :
  read_fault w = Some k ->
  (k * chunk_len <= length content)%nat ->
  stream_into dst content w
  = (with_files w (<[dst := File (take (k * chunk_len) content) (clock w)]> (files w)),
     Raise (OSError 5)).
Proof.
  intros Hfault Hk. unfold stream_into. rewrite Hfault.
  pose proof (copy_loop_fault k (S (length content)) 0 content [] Hk) as Hloop.
  change (0 + k)%nat with k in Hloop. by rewrite Hloop by lia.
Qed.

Lemma copyFilePosix_fault (w : world) (srcFile destFile : string)
    (content : bytes) (mtime : Z) (k : nat) (overwrite : bool) :
  files w !! srcFile = Some (File content mtime) ->
  files w !! destFile = None ->
  parent_errno w destFile = None ->
  read_fault w = Some k ->
  (k * chunk_len <= length content)%nat ->
  exists w',
    _copyFilePosix srcFile destFile overwrite w = (w', Raise (OSError 5))
    /\ files w' !! destFile = Some (File (take (k * chunk_len) content) (clock w))
    /\ forall p, p <> destFile -> files w' !! p = files w !! p.
Proof.
  intros Hsrc Hdst Hparent Hfault Hk.
  assert (Hne : srcFile <> destFile) by congruence.
  unfold _copyFilePosix. destruct overwrite.
  - unfold shutil_copy. rewrite (isDir_none _ _ Hdst), Hsrc, (eqb_neq _ _ Hne), Hparent.
    rewrite (stream_into_fault _ _ _ _ Hfault Hk). cbv zeta.
    rewrite (isDir_none _ _ Hdst). eexists. split; [done|]. simpl.
    split; [by rewrite lookup_insert_eq|]. intros p Hp. by rewrite lookup_insert_ne.
  - unfold bind, os_open_excl. rewrite (path_exists_none _ _ Hdst), Hparent. simpl.
    rewrite lookup_insert_ne, Hsrc by done.
    rewrite (stream_into_fault _ _ _ k) by done. eexists. split; [done|]. simpl.
    split; [by rewrite lookup_insert_eq|].
    intros p Hp. by rewrite !lookup_insert_ne.
Qed.

(** [copy] through a failing read. *)
Lemma copy_fault_partial (w : world) (srcFile destFile : string)
    (content : bytes) (mtime : Z) (k : nat)
    (overwrite doTrace keepSameModifiedTime allowDirs : bool) :
  is_win (platform w) = false ->
  files w !! srcFile = Some (File content mtime) ->
  files w !! destFile = None ->
  parent_errno w destFile = None ->
  read_fault w = Some k ->
  (k * chunk_len <= length content)%nat ->
  let after :=
    copy srcFile destFile overwrite doTrace keepSameModifiedTime allowDirs
         false false w in
  after.2 = Raise (OSError 5)
  /\ files after.1 !! destFile
     = Some (File (take (k * chunk_len) content) (clock w))
  /\ forall p, p <> destFile -> files after.1 !! p = files w !! p.
Proof.
  intros Hplat Hsrc Hdst Hparent Hfault Hk after. subst after.
  assert (Hne : srcFile <> destFile) by congruence.
  destruct (copyFilePosix_fault w srcFile destFile content mtime k overwrite)
    as (w' & Hcopy & Hdest & Hother); try done.
  unfold copy, bind, gets, when, ret, raise, trace.
  rewrite (isFile_lookup _ _ _ _ Hsrc). simpl.
  assert (HsrcDir : isDir w srcFile = false) by (unfold isDir; by rewrite Hsrc).
  rewrite HsrcDir, andb_false_r, (path_exists_none _ _ Hdst), andb_false_r.
  destruct doTrace; simpl; rewrite (eqb_neq _ _ Hne), Hplat, Hcopy; done.
Qed.

(** C1, amended.  When a read of the copy loop raises after [k] full
    chunks, on the streaming path (not Windows) and with a destination
    that did not exist, [copy] raises the error and the destination
    stays: it is a file holding exactly the [k] chunks written before the
    failure, so an empty file when the first read fails.  Nothing removes
    it, and no other path is touched. *)
Theorem copy_fault_leaves_partial_destination (w : world) (srcFile destFile : string)
    (content : bytes) (mtime : Z) (k : nat)
    (overwrite doTrace keepSameModifiedTime allowDirs : bool) :
  is_win (platform w) = false ->
  files w !! srcFile = Some (File content mtime) ->
  files w !! destFile = None ->
  parent_errno w destFile = None ->
  read_fault w = Some k ->
  (k * chunk_len <= length content)%nat ->
  let after :=
    copy srcFile destFile overwrite doTrace keepSameModifiedTime allowDirs
         false false w in
  after.2 = Raise (OSError 5)
  /\ files after.1 !! destFile
     = Some (File (take (k * chunk_len) content) (clock w))
  /\ forall p, p <> destFile -> files after.1 !! p = files w !! p.
Proof. intros. by eapply copy_fault_partial. Qed.

Lemma copy_fault_leaves_partial_destination_witness :
  is_win (platform (sample_world Linux (Some 0%nat))) = false /\
  files (sample_world Linux (Some 0%nat)) !! "d/c.txt" = None /\
  read_fault (sample_world Linux (Some 0%nat)) = Some 0%nat /\
  (copy "a.txt" "d/c.txt" false false false false false false
        (sample_world Linux (Some 0%nat))).2 = Raise (OSError 5).
Proof.
  split; [reflexivity|]. split; [by vm_compute|]. split; [reflexivity|].
  apply (copy_fault_leaves_partial_destination (sample_world Linux (Some 0%nat))
           "a.txt" "d/c.txt" ["h"%byte; "i"%byte] 5 0 false false false false).
  - reflexivity.
  - by vm_compute.
  - by vm_compute.
  - by vm_compute.
  - reflexivity.
  - cbn [Nat.mul length]. lia.
Defined.

(** C1 as stated fails: the first read of the copy raises, [copy] raises,
    and the destination, which did not exist before the call, is left
    behind as a file of zero bytes. *)
Lemma copy_fault_leaves_empty_destination :
  let w := sample_world Linux (Some 0%nat) in
  let after := copy "a.txt" "d/c.txt" false false false false false false w in
  files w !! "d/c.txt" = None
  /\ after.2 = Raise (OSError 5)
  /\ files after.1 !! "d/c.txt" = Some (File [] 100).
Proof. by vm_compute. Qed.

(** A failure at the second read leaves a truncated destination: one
    chunk of a source that is three bytes longer. *)
Lemma copy_fault_leaves_truncated_destination :
  let after := copy "long.bin" "long.copy" false false false false false false long_world in
  after.2 = Raise (OSError 5)
  /\ files after.1 !! "long.copy" = Some (File (repeat "x"%byte chunk_len) 100).
Proof.
  destruct (copy_fault_partial long_world "long.bin" "long.copy"
              (repeat "x"%byte (chunk_len + 3)) 5 1 false false false false)
    as (Hr & Hdst & _).
  - reflexivity.
  - apply lookup_singleton_eq.
  - by apply lookup_singleton_ne.
  - unfold parent_errno. cbn [platform long_world].
    by replace (getParent Linux "long.copy") with "" by (by vm_compute).
  - reflexivity.
  - rewrite repeat_length. lia.
  - split; [exact Hr|]. rewrite Hdst, Nat.mul_1_l, repeat_app.
    by rewrite take_app_length' by (by rewrite repeat_length).
Qed.

(** *** Rules for [preserves] *)

Section Preserves.

Context {A B : Type} (I : world -> Prop).

Lemma preserves_ret (a : A) (Q : A -> Prop) : Q a -> preserves I (ret a) Q.
Proof. intros HQ w Hw. split; [done|]. by intros a' [= <-]. Qed.

Lemma preserves_raise (e : exn) (Q : A -> Prop) : preserves I (raise e) Q.
Proof. intros w Hw. by split. Qed.

Lemma preserves_gets (f : world -> A) (Q : A -> Prop) :
  (forall w, I w -> Q (f w)) -> preserves I (gets f) Q.
Proof. intros HQ w Hw. split; [done|]. intros a [= <-]. by apply HQ. Qed.

Lemma preserves_bind (m : M A) (k : A -> M B) (Q : A -> Prop) (Q' : B -> Prop) :
  preserves I m Q ->
  (forall a, Q a -> preserves I (k a) Q') ->
  preserves I (bind m k) Q'.
Proof.
  intros Hm Hk w Hw. unfold bind. destruct (Hm w Hw) as [Hw' Ha].
  destruct (m w) as [w' [a|e]]; simpl in *; [|by split].
  by apply (Hk a (Ha a eq_refl)).
Qed.

Lemma preserves_weaken (m : M A) (Q Q' : A -> Prop) :
  preserves I m Q -> (forall a, Q a -> Q' a) -> preserves I m Q'.
Proof.
  intros Hm HQ w Hw. destruct (Hm w Hw) as [Hw' Ha]. split; [done|].
  intros a Hr. by apply HQ, Ha.
Qed.

End Preserves.

Lemma preserves_when (I : world -> Prop) (b : bool) (m : M unit) :
  (b = true -> preserves I m (fun _ => True)) ->
  preserves I (when b m) (fun _ => True).
Proof. destruct b; simpl; [auto|]. intros _. by apply preserves_ret. Qed.

Lemma preserves_assertTrue (I : world -> Prop) (cond : bool) (msg : string) :
  preserves I (assertTrue cond msg) (fun _ => cond = true).
Proof.
  unfold assertTrue. destruct cond; [by apply preserves_ret|apply preserves_raise].
Qed.

(** *** A destination that is not to be overwritten *)

Section NoOverwrite.

Variable destFile : string.
Variable n : node.

(** The destination is there, as it was before the call. *)
Local Abbreviation kept := (fun w : world => files w !! destFile = Some n).
Local Abbreviation any := (fun _ : unit => True).

Lemma os_mkdir_kept (name : string) : preserves kept (os_mkdir name) any.
Proof.
  intros w Hw. unfold os_mkdir.
  destruct (String.eqb name ""); [by split|].
  destruct (path_exists w name) eqn:Hex; [by split|].
  destruct (parent_errno w name); [by split|]. simpl. split; [|done].
  rewrite lookup_insert_ne; [done|]. intros ->.
  by rewrite (path_exists_lookup _ _ _ Hw) in Hex.
Qed.

Lemma os_makedirs_kept (depth : nat) :
  forall name, preserves kept (os_makedirs depth name) any.
Proof.
  induction depth as [|depth IH]; intros name w Hw; simpl;
    destruct (os_path_split (platform w) name) as [head tail];
    destruct (if String.eqb tail "" then os_path_split (platform w) head
              else (head, tail)) as [head' tail'];
    destruct (negb (String.eqb head' "") && negb (String.eqb tail' "")
              && negb (path_exists w head'));
    try (by apply os_mkdir_kept); [by split|].
  destruct (IH head' w Hw) as [Hw' _].
  destruct (os_makedirs depth head' w) as [w' [[]|e]]; simpl in *.
  - destruct (String.eqb tail' "."); [by split|]. by apply os_mkdir_kept.
  - assert (Hmk : kept (if String.eqb tail' "." then (w', Ok tt)
                        else os_mkdir name w').1).
    { destruct (String.eqb tail' "."); [done|]. by apply os_mkdir_kept. }
    repeat (match goal with
            | |- context [match ?x with _ => _ end] =>
                is_var x; destruct x; try by split
            end).
Qed.

Lemma makeDirs_kept (s : string) : preserves kept (makeDirs s) any.
Proof.
  intros w Hw. unfold makeDirs.
  destruct (os_makedirs_kept (String.length s) s w Hw) as [Hw' _].
  destruct (os_makedirs _ s w) as [w' [[]|e]]; simpl in *; [by split|].
  destruct (isinstance_OSError e); [|by split].
  destruct (isDir w' s); by split.
Qed.

Lemma getLastModTime_kept :
  preserves kept (getLastModTime destFile)
    (fun t => forall content mtime, n = File content mtime -> mtime = t).
Proof.
  intros w Hw. unfold getLastModTime. rewrite Hw. destruct n; simpl.
  - split; [done|]. intros t [= <-] content' mtime' [= _ ->]. done.
  - split; [done|]. by intros.
Qed.

Lemma setLastModTime_kept (t : Z) :
  (forall content mtime, n = File content mtime -> mtime = t) ->
  preserves kept (setLastModTime destFile t) any.
Proof.
  intros Ht w Hw. unfold setLastModTime. rewrite Hw.
  destruct n as [content mtime|] eqn:Hn; simpl; [|by split].
  split; [|done]. by rewrite lookup_insert_eq, (Ht content mtime eq_refl).
Qed.

Lemma CopyFileW_kept (srcFile : string) :
  preserves kept (CopyFileW srcFile destFile 1) (fun _ : option Z => True).
Proof.
  intros w Hw. unfold CopyFileW.
  destruct (files w !! srcFile) as [[content mtime|]|]; [|by split..].
  rewrite Hw. destruct n; by split.
Qed.

Lemma os_open_excl_kept : preserves kept (os_open_excl destFile) (fun _ => False).
Proof.
  intros w Hw. unfold os_open_excl. rewrite (path_exists_lookup _ _ _ Hw). by split.
Qed.

Lemma MoveFileExW_kept (srcFile : string) (flags : Z) :
  Z.testbit flags 0 = false ->
  preserves kept (MoveFileExW srcFile destFile flags) (fun _ : option Z => True).
Proof.
  intros Hflag w Hw. unfold MoveFileExW.
  destruct (files w !! srcFile); [|by split].
  rewrite (path_exists_lookup _ _ _ Hw), Hflag. by split.
Qed.

Lemma os_unlink_kept (srcFile : string) :
  srcFile <> destFile -> preserves kept (os_unlink srcFile) any.
Proof.
  intros Hne w Hw. unfold os_unlink.
  destruct (files w !! srcFile) as [[content mtime|]|]; [|by split..]. simpl.
  split; [|done]. by rewrite lookup_delete_ne.
Qed.

Lemma copyFilePosix_kept (srcFile : string) :
  preserves kept (_copyFilePosix srcFile destFile false) any.
Proof.
  unfold _copyFilePosix. eapply preserves_bind; [apply os_open_excl_kept|done].
Qed.

Lemma copyFileWin_kept (srcFile : string) :
  preserves kept (_copyFileWin srcFile destFile false) any.
Proof.
  unfold _copyFileWin. eapply preserves_bind; [apply CopyFileW_kept|].
  intros [err|] _; [apply preserves_raise|by apply preserves_ret].
Qed.

Lemma moveFileWin_kept (retries : nat) :
  forall srcFile warnBetweenDrives,
    preserves kept (_moveFileWin_rec retries srcFile destFile false warnBetweenDrives) any.
Proof.
  induction retries as [|retries IH]; intros srcFile warn; simpl;
    (eapply preserves_bind;
     [apply MoveFileExW_kept; by destruct warn|]);
    intros [err|] _; try (by apply preserves_ret);
    destruct (bool_decide _ && warn); try apply preserves_raise.
  unfold alert. eapply preserves_bind; [by apply (preserves_ret _ tt any)|].
  intros _ _. apply IH.
Qed.

(** With [overwrite] false, [copy] leaves an existing destination as
    it is, however the call ends. *)
Lemma copy_kept (srcFile : string)
    (doTrace keepSameModifiedTime allowDirs createParent traceOnly : bool) :
  preserves kept
    (copy srcFile destFile false doTrace keepSameModifiedTime allowDirs
          createParent traceOnly) any.
Proof.
  unfold copy.
  eapply preserves_bind; [by apply (preserves_gets _ _ (fun _ => True))|].
  intros src_is_file _. destruct (negb src_is_file); [apply preserves_raise|].
  eapply preserves_bind; [by apply (preserves_gets _ _ (fun _ => True))|].
  intros src_is_dir _. destruct (negb allowDirs && src_is_dir); [apply preserves_raise|].
  eapply preserves_bind; [by apply (preserves_gets _ _ (fun _ => True))|].
  intros dest_exists _.
  eapply (preserves_bind _ _ _
            (fun o => forall t, o = Some t ->
                      forall content mtime, n = File content mtime -> mtime = t)).
  { destruct (keepSameModifiedTime && dest_exists); [|by apply preserves_ret].
    eapply preserves_bind; [by apply (preserves_gets _ _ (fun _ => True))|].
    intros dest_is_file _.
    eapply preserves_bind; [apply preserves_assertTrue|]. intros _ _.
    eapply preserves_bind; [apply getLastModTime_kept|].
    intros t Ht. apply preserves_ret. by intros t' [= <-]. }
  intros toSetModTime Hmod.
  eapply preserves_bind;
    [apply preserves_when; intros _; by apply (preserves_ret _ tt any)|].
  intros _ _. destruct traceOnly; [by apply preserves_ret|].
  eapply preserves_bind; [by apply (preserves_gets _ _ (fun _ => True))|].
  intros plat _.
  eapply preserves_bind; [by apply (preserves_gets _ _ (fun _ => True))|].
  intros parent_exists _.
  eapply preserves_bind; [apply preserves_when; intros _; apply makeDirs_kept|].
  intros _ _.
  eapply (preserves_bind _ _ _ any).
  { destruct (String.eqb srcFile destFile); [by apply preserves_ret|].
    destruct (is_win plat); [apply copyFileWin_kept|apply copyFilePosix_kept]. }
  intros _ _.
  eapply preserves_bind; [by apply (preserves_gets _ _ (fun _ => True))|].
  intros dest_exists' _.
  eapply preserves_bind; [apply preserves_assertTrue|]. intros _ _.
  destruct toSetModTime as [t|]; [|by apply preserves_ret].
  apply preserves_when. intros _. apply setLastModTime_kept. by apply Hmod.
Qed.

(** Likewise for [move]. *)
Lemma move_kept (srcFile : string)
    (warnBetweenDrives doTrace allowDirs createParent traceOnly : bool) :
  preserves kept
    (move srcFile destFile false warnBetweenDrives doTrace allowDirs
          createParent traceOnly) any.
Proof.
  unfold move.
  eapply preserves_bind; [by apply (preserves_gets _ _ (fun _ => True))|].
  intros src_exists _. destruct (negb src_exists); [apply preserves_raise|].
  eapply preserves_bind; [by apply (preserves_gets _ _ (fun _ => True))|].
  intros src_is_file _.
  destruct (negb allowDirs && negb src_is_file); [apply preserves_raise|].
  eapply preserves_bind;
    [apply preserves_when; intros _; by apply (preserves_ret _ tt any)|].
  intros _ _. destruct traceOnly; [by apply preserves_ret|].
  eapply preserves_bind; [by apply (preserves_gets _ _ (fun _ => True))|].
  intros plat _.
  eapply preserves_bind; [by apply (preserves_gets _ _ (fun _ => True))|].
  intros parent_exists _.
  eapply preserves_bind; [apply preserves_when; intros _; apply makeDirs_kept|].
  intros _ _.
  eapply (preserves_bind _ _ _ any).
  { destruct (String.eqb srcFile destFile) eqn:Heq; [by apply preserves_ret|].
    apply String.eqb_neq in Heq.
    destruct (is_win plat); [apply moveFileWin_kept|].
    rewrite andb_false_r.
    eapply preserves_bind; [apply copy_kept|]. intros _ _.
    eapply preserves_bind; [by apply (preserves_gets _ _ (fun _ => True))|].
    intros dest_exists _.
    eapply preserves_bind; [apply preserves_assertTrue|]. intros _ _.
    by apply os_unlink_kept. }
  intros _ _.
  eapply preserves_bind; [by apply (preserves_gets _ _ (fun _ => True))|].
  intros dest_exists _.
  eapply preserves_weaken; [apply preserves_assertTrue|done].
Qed.

End NoOverwrite.

(** With [overwrite] false, a regular file as source and another regular
    file as destination, [copy] raises the error of the existing
    destination and changes nothing. *)
Lemma copy_conflict (w : world) (srcFile destFile : string)
    (content content' : bytes) (mtime mtime' : Z)
    (doTrace keepSameModifiedTime allowDirs createParent : bool) :
  files w !! srcFile = Some (File content mtime) ->
  files w !! destFile = Some (File content' mtime') ->
  srcFile <> destFile ->
  (createParent = true -> path_exists w (getParent (platform w) destFile) = true) ->
  exists e,
    copy srcFile destFile false doTrace keepSameModifiedTime allowDirs
         createParent false w = (w, Raise e)
    /\ is_DestinationConflict e = true.
Proof.
  intros Hsrc Hdst Hne Hparent.
  assert (Hmk : createParent && negb (path_exists w (getParent (platform w) destFile)) = false).
  { destruct createParent; [|done]. by rewrite Hparent. }
  assert (HsrcDir : isDir w srcFile = false) by (unfold isDir; by rewrite Hsrc).
  assert (Hmain : exists e,
             (if is_win (platform w)
              then _copyFileWin srcFile destFile false
              else _copyFilePosix srcFile destFile false) w = (w, Raise e)
             /\ is_DestinationConflict e = true).
  { destruct (is_win (platform w)).
    - exists (WinApiError "CopyFileW" 80). split; [|done].
      unfold _copyFileWin, bind, CopyFileW. by rewrite Hsrc, Hdst.
    - exists (OSError 17). split; [|done].
      unfold _copyFilePosix, bind, os_open_excl.
      by rewrite (path_exists_lookup _ _ _ Hdst). }
  destruct Hmain as (e & Hmain & He). exists e. split; [|done].
  unfold copy.
  step_ok. rewrite (isFile_lookup _ _ _ _ Hsrc). cbn [negb].
  step_ok. rewrite HsrcDir, andb_false_r.
  step_ok. rewrite (path_exists_lookup _ _ _ Hdst), andb_true_r.
  erewrite (bind_ok _ _ w w (if keepSameModifiedTime then Some mtime' else None)).
  2:{ destruct keepSameModifiedTime; [|done].
      step_ok. rewrite (isFile_lookup _ _ _ _ Hdst).
      step_ok. erewrite bind_ok; [done|]. unfold getLastModTime. by rewrite Hdst. }
  erewrite bind_ok by apply when_trace.
  step_ok. step_ok. rewrite Hmk. step_ok.
  rewrite (eqb_neq _ _ Hne). by erewrite bind_raise by apply Hmain.
Qed.

(** Likewise [move]. *)
Lemma move_conflict (w : world) (srcFile destFile : string)
    (content content' : bytes) (mtime mtime' : Z)
    (warnBetweenDrives doTrace allowDirs createParent : bool) :
  files w !! srcFile = Some (File content mtime) ->
  files w !! destFile = Some (File content' mtime') ->
  srcFile <> destFile ->
  (createParent = true -> path_exists w (getParent (platform w) destFile) = true) ->
  exists e,
    move srcFile destFile false warnBetweenDrives doTrace allowDirs
         createParent false w = (w, Raise e)
    /\ is_DestinationConflict e = true.
Proof.
  intros Hsrc Hdst Hne Hparent.
  assert (Hmk : createParent && negb (path_exists w (getParent (platform w) destFile)) = false).
  { destruct createParent; [|done]. by rewrite Hparent. }
  unfold move.
  step_ok. rewrite (path_exists_lookup _ _ _ Hsrc). cbn [negb].
  step_ok. rewrite (isFile_lookup _ _ _ _ Hsrc), andb_false_r.
  erewrite bind_ok by apply when_trace.
  step_ok. step_ok. rewrite Hmk. step_ok.
  rewrite (eqb_neq _ _ Hne), andb_false_r.
  destruct (is_win (platform w)).
  - exists (WinApiError "MoveFileExW" 183). split; [|done].
    erewrite bind_raise; [done|].
    unfold _moveFileWin, _moveFileWin_rec, bind, MoveFileExW.
    rewrite Hsrc, (path_exists_lookup _ _ _ Hdst). by destruct warnBetweenDrives.
  - destruct (copy_conflict w srcFile destFile content content' mtime mtime'
                false false false false Hsrc Hdst Hne) as (e & Hcopy & He); [done|].
    exists e. split; [|done].
    erewrite bind_raise; [done|]. by erewrite bind_raise by apply Hcopy.
Qed.

(** C2, amended.  With [overwrite] false an existing destination is never
    altered or removed by [copy] or [move], whatever the source and the
    other arguments and however the call ends.  When moreover the source
    is a regular file, the destination is another path holding a regular
    file, the call is not [traceOnly] and no parent directory has to be
    created, both raise the error of the existing destination
    ([FileExistsError] from the exclusive create, or the failure of the
    Windows call) and leave the whole file system as it was. *)
Theorem no_overwrite_keeps_destination (w : world) (srcFile destFile : string) (n : node)
    (warnBetweenDrives doTrace keepSameModifiedTime allowDirs createParent traceOnly : bool) :
  files w !! destFile = Some n ->
  files (copy srcFile destFile false doTrace keepSameModifiedTime allowDirs
              createParent traceOnly w).1 !! destFile = Some n
  /\ files (move srcFile destFile false warnBetweenDrives doTrace allowDirs
                createParent traceOnly w).1 !! destFile = Some n
  /\ (forall content mtime content' mtime',
        files w !! srcFile = Some (File content mtime) ->
        n = File content' mtime' ->
        srcFile <> destFile ->
        traceOnly = false ->
        (createParent = true ->
         path_exists w (getParent (platform w) destFile) = true) ->
        (exists e,
            copy srcFile destFile false doTrace keepSameModifiedTime allowDirs
                 createParent traceOnly w = (w, Raise e)
            /\ is_DestinationConflict e = true)
        /\ (exists e,
              move srcFile destFile false warnBetweenDrives doTrace allowDirs
                   createParent traceOnly w = (w, Raise e)
              /\ is_DestinationConflict e = true)).
Proof.
  intros Hdst. split; [|split].
  - by apply (copy_kept destFile n).
  - by apply (move_kept destFile n).
  - intros content mtime content' mtime' Hsrc -> Hne -> Hparent. split.
    + by eapply copy_conflict.
    + by eapply move_conflict.
Qed.

Lemma no_overwrite_keeps_destination_witness :
  files (sample_world Linux None) !! "d/b.txt" = Some (File ["o"%byte] 1) /\
  files (copy "a.txt" "d/b.txt" false false false false false false
              (sample_world Linux None)).1 !! "d/b.txt"
  = Some (File ["o"%byte] 1).
Proof.
  split; [by vm_compute|].
  apply (no_overwrite_keeps_destination (sample_world Linux None) "a.txt" "d/b.txt"
           (File ["o"%byte] 1) false false false false false false).
  by vm_compute.
Defined.

(** C2 as stated fails when source and destination are the same path: the
    destination exists, [overwrite] is false, and [copy] and [move] return
    without raising. *)
Lemma no_overwrite_same_path_returns :
  let w := sample_world Linux None in
  files w !! "a.txt" = Some (File ["h"%byte; "i"%byte] 5)
  /\ (copy "a.txt" "a.txt" false false false false false false w).2 = Ok tt
  /\ (move "a.txt" "a.txt" false false false false false false w).2 = Ok tt.
Proof. by vm_compute. Qed.

(** * Further properties *)

(** ** Buffer sizes that are not positive *)

Lemma read_all_zero {S : Type} (f : stream) (step : S -> bytes -> result S)
    (unread : bytes) (acc : S) :
  read_all f step 0 unread acc = (Ok acc, [IoRead 0 0]).
Proof. reflexivity. Qed.

Lemma file_read_bytes_negative (n : Z) (rest : bytes) :
  n < 0 -> file_read BytesIO n rest = Ok (rest, []).
Proof. intros Hn. unfold file_read. by destruct (Z.leb_spec 0 n); [lia|]. Qed.

Lemma file_read_minus_one (f : stream) (rest : bytes) :
  file_read f (-1) rest = Ok (rest, []).
Proof. by destruct f. Qed.

Lemma read_all_refused {S : Type} (step : S -> bytes -> result S) (n : Z)
    (unread : bytes) (acc : S) :
  n < -1 ->
  read_all BufferedReader step n unread acc
  = (Raise (ValueError "read length must be non-negative or -1"), []).
Proof.
  intros Hn. unfold read_all. cbn [read_loop]. unfold file_read.
  destruct (Z.leb_spec 0 n); [lia|]. by destruct (Z.eqb_spec n (-1)); [lia|].
Qed.

Section BufferSizes.

Variable lib_hexdigest : hash_alg -> bytes -> string.
Variable xxhash_installed : bool.
Variable crc64iso : option crc64_module.

Local Abbreviation impl := (_computeHashImpl lib_hexdigest xxhash_installed crc64iso).
Local Abbreviation digest := (digest_of_bytes lib_hexdigest xxhash_installed crc64iso).
Local Abbreviation hashBytes := (computeHashBytes lib_hexdigest xxhash_installed crc64iso).
Local Abbreviation hashFile := (computeHash lib_hexdigest xxhash_installed crc64iso).

Lemma computeHashImpl_zero (f : stream) (unread : bytes) (hasher : hasher_arg) (n : Z) :
  (impl f unread hasher 0).2 = (impl BytesIO [] hasher n).2.
Proof.
  unfold _computeHashImpl.
  destruct (is_name hasher "crc32"); [by rewrite read_all_zero, read_all_nil|].
  destruct (is_name hasher "crc64").
  { destruct crc64iso as [m|]; [|done]. by rewrite read_all_zero, read_all_nil. }
  destruct (match hasher with
            | ByName s => hasherFromString xxhash_installed s
            | ByObject h => Ok h
            end) as [h|e]; [|done].
  by rewrite read_all_zero, read_all_nil.
Qed.

(** X1.  With [buffersize=0] every [read] returns nothing, so the loop of
    [_computeHashImpl] ends at once: [computeHash] and [computeHashBytes]
    give the outcome of hashing the empty input, whatever the file or the
    buffer holds. *)
Theorem computeHash_zero_buffersize (fs : fsmap) (path : string)
    (content : bytes) (mtime : Z) (hasher : hasher_arg) (n : Z) :
  fs !! path = Some (File content mtime) ->
  (hashFile fs path hasher 0).2 = hashBytes [] hasher n
  /\ hashBytes content hasher 0 = hashBytes [] hasher n.
Proof.
  intros Hfile. unfold computeHash, computeHashBytes. rewrite Hfile.
  pose proof (computeHashImpl_zero BufferedReader content hasher n) as H.
  destruct (impl BufferedReader content hasher 0). cbn [snd] in *.
  split; [done|apply computeHashImpl_zero].
Qed.

(** A size for which [read] returns everything gives the digest of the
    whole content, for every hasher argument but ["crc64"]. *)
Lemma computeHashImpl_at_once (f : stream) (unread : bytes) (hasher : hasher_arg) (n : Z) :
  (forall rest, file_read f n rest = Ok (rest, [])) ->
  is_name hasher "crc64" = false ->
  (impl f unread hasher n).2 = digest unread hasher.
Proof.
  intros Hread H64. unfold _computeHashImpl, digest_of_bytes. rewrite H64.
  destruct (is_name hasher "crc32").
  { pose proof (read_all_at_once crc32_step (fun crc buffer => zlib_crc32 buffer crc)
                  (fun _ _ => eq_refl) f n unread (zlib_crc32 [] 0) Hread) as H.
    destruct (read_all f crc32_step n unread _) as [r tr]. cbn [fst] in H. subst r.
    cbn [snd]. destruct unread as [|b unread]; [done|]. by rewrite zlib_crc32_app. }
  destruct (match hasher with
            | ByName s => hasherFromString xxhash_installed s
            | ByObject h => Ok h
            end) as [h|e]; [|done].
  pose proof (read_all_at_once update_step hasher_update
                (fun _ _ => eq_refl) f n unread h Hread) as H.
  destruct (read_all f update_step n unread h) as [r tr]. cbn [fst] in H. subst r.
  cbn [snd]. destruct unread; [by rewrite hasher_update_nil|done].
Qed.

Lemma computeHashImpl_refused (unread : bytes) (hasher : hasher_arg) (n : Z) :
  n < -1 ->
  exists e,
    impl BufferedReader unread hasher n = ([], Raise e)
    /\ (forall m, is_ok (impl BufferedReader unread hasher m).2 = true ->
                  e = ValueError "read length must be non-negative or -1").
Proof.
  intros Hn. unfold _computeHashImpl.
  destruct (is_name hasher "crc32"); [rewrite read_all_refused by done; by eexists|].
  destruct (is_name hasher "crc64").
  { destruct crc64iso as [c|]; [rewrite read_all_refused by done; by eexists|].
    eexists. split; [done|]. by intros m. }
  destruct (match hasher with
            | ByName s => hasherFromString xxhash_installed s
            | ByObject h => Ok h
            end) as [h|e]; [rewrite read_all_refused by done; by eexists|].
  exists e. split; [done|]. by intros m.
Qed.

(** X2.  A negative [buffersize] makes [read] on an in-memory buffer
    return the whole input in one call: for every hasher argument but
    ["crc64"], [computeHashBytes] gives the digest of the whole buffer,
    which is the outcome of any positive buffer size.  On a file only
    [-1] does so.  With a size below [-1] the [read] of the file raises
    before anything is read: [computeHash] opens and closes the file
    and raises, and whenever some buffer size gives a digest the
    exception is the [ValueError] of [read]. *)
Theorem computeHash_negative_buffersize (fs : fsmap) (path : string)
    (content : bytes) (mtime : Z) (b : bytes) (hasher : hasher_arg) (n m : Z) :
  n < 0 -> 0 < m ->
  fs !! path = Some (File content mtime) ->
  (is_name hasher "crc64" = false ->
   hashBytes b hasher n = digest b hasher
   /\ hashBytes b hasher n = hashBytes b hasher m
   /\ (hashFile fs path hasher (-1)).2 = digest content hasher
   /\ (hashFile fs path hasher (-1)).2 = (hashFile fs path hasher m).2)
  /\ (n < -1 ->
      exists e,
        hashFile fs path hasher n = ([IoOpen path; IoClose path], Raise e)
        /\ (forall k, is_ok (hashFile fs path hasher k).2 = true ->
                      e = ValueError "read length must be non-negative or -1")).
Proof.
  intros Hn Hm Hfile. split.
  - intros H64.
    assert (Hbuf : hashBytes b hasher n = digest b hasher).
    { apply computeHashImpl_at_once; [|done].
      intros rest. by apply file_read_bytes_negative. }
    assert (Hone : (hashFile fs path hasher (-1)).2 = digest content hasher).
    { unfold computeHash. rewrite Hfile.
      pose proof (computeHashImpl_at_once BufferedReader content hasher (-1)
                    (file_read_minus_one BufferedReader) H64) as H.
      by destruct (impl BufferedReader content hasher (-1)). }
    destruct (computeHash_digest_of_content lib_hexdigest xxhash_installed crc64iso
                fs path content mtime b hasher m Hm H64 Hfile) as [Hf Hb].
    split; [done|]. split; [by rewrite Hb|]. split; [done|by rewrite Hf].
  - intros Hlow. unfold computeHash. rewrite Hfile.
    destruct (computeHashImpl_refused content hasher n Hlow) as (e & -> & He).
    exists e. split; [done|]. intros k Hk. apply (He k).
    by destruct (impl BufferedReader content hasher k).
Qed.

End BufferSizes.

Lemma computeHash_zero_buffersize_witness :
  sample_files !! "a.txt" = Some (File ["h"%byte; "i"%byte] 5) /\
  (computeHash no_digest false None sample_files "a.txt" (ByName "crc32") 0).2
  = computeHashBytes no_digest false None [] (ByName "crc32") 7.
Proof.
  split; [by vm_compute|].
  apply (computeHash_zero_buffersize no_digest false None sample_files "a.txt"
           ["h"%byte; "i"%byte] 5 (ByName "crc32") 7).
  by vm_compute.
Defined.

Lemma computeHash_negative_buffersize_witness :
  -2 < 0 /\ 0 < 4 /\
  sample_files !! "a.txt" = Some (File ["h"%byte; "i"%byte] 5) /\
  computeHashBytes no_digest false None ["h"%byte; "i"%byte] (ByName "crc32") (-2)
  = computeHashBytes no_digest false None ["h"%byte; "i"%byte] (ByName "crc32") 4 /\
  exists e,
    computeHash no_digest false None sample_files "a.txt" (ByName "crc32") (-2)
    = ([IoOpen "a.txt"; IoClose "a.txt"], Raise e)
    /\ (forall k,
          is_ok (computeHash no_digest false None sample_files "a.txt"
                   (ByName "crc32") k).2 = true ->
          e = ValueError "read length must be non-negative or -1").
Proof.
  split; [lia|]. split; [lia|]. split; [by vm_compute|].
  destruct (computeHash_negative_buffersize no_digest false None sample_files "a.txt"
              ["h"%byte; "i"%byte] 5 ["h"%byte; "i"%byte] (ByName "crc32") (-2) 4)
    as [Hsame Hlow]; [lia|lia|by vm_compute|].
  split; [apply Hsame; reflexivity|apply Hlow; lia].
Defined.

(** ** The form of a CRC-32 result *)

Lemma hex_fixed_length (width : nat) :
  forall (n : Z) (acc : string),
    String.length (hex_fixed width n acc) = (width + String.length acc)%nat.
Proof.
  induction width as [|w IH]; intros n acc; simpl; [done|].
  rewrite IH. simpl. lia.
Qed.

Lemma hex_digit_lower (d : Z) : 0 <= d < 16 -> is_lower_hex (hex_digit d) = true.
Proof.
  intros Hd.
  assert (Hall : forallb (fun d => is_lower_hex (hex_digit d)) (seqZ 0 16) = true)
    by (by vm_compute).
  rewrite forallb_forall in Hall. apply Hall.
  apply list_elem_of_In, elem_of_seqZ. lia.
Qed.

Lemma hex_fixed_lower (width : nat) :
  forall (n : Z) (acc : string),
    str_forallb is_lower_hex acc = true ->
    str_forallb is_lower_hex (hex_fixed width n acc) = true.
Proof.
  induction width as [|w IH]; intros n acc Hacc; simpl; [done|].
  apply IH. simpl. rewrite Hacc, andb_true_r. apply hex_digit_lower.
  change 15 with (Z.ones 4). rewrite Z.land_ones by lia.
  apply Z.mod_pos_bound. lia.
Qed.

Lemma hex_len_32 (x : Z) : in32 x -> (hex_len x <= 8)%nat.
Proof.
  intros [Hlo Hhi]. unfold hex_len. destruct (Z.leb_spec x 0); [lia|].
  assert (Z.log2 x < 32) by (apply Z.log2_lt_pow2; lia).
  assert (0 <= Z.log2 x) by apply Z.log2_nonneg.
  assert (Z.log2 x / 4 < 8) by (apply Z.div_lt_upper_bound; lia).
  assert (0 <= Z.log2 x / 4) by (apply Z.div_pos; lia).
  lia.
Qed.

(** X3.  The CRC-32 branch of [_computeHashImpl] never raises, and its
    result is always exactly eight lower-case hexadecimal digits, for
    every input and every buffer size. *)
Theorem computeHashBytes_crc32_form
    (lib_hexdigest : hash_alg -> bytes -> string) (xxhash_installed : bool)
    (crc64iso : option crc64_module) (b : bytes) (n : Z) :
  exists s : string,
    computeHashBytes lib_hexdigest xxhash_installed crc64iso b (ByName "crc32") n = Ok s
    /\ String.length s = 8%nat
    /\ str_forallb is_lower_hex s = true.
Proof.
  unfold computeHashBytes, _computeHashImpl.
  change (is_name (ByName "crc32") "crc32") with true. cbv iota.
  pose proof (read_loop_total crc32_step (fun crc buffer => zlib_crc32 buffer crc)
                (fun _ _ => eq_refl) BytesIO n (S (length b)) b (zlib_crc32 [] 0))
    as [crc' Hcrc]; [by left|].
  unfold read_all.
  destruct (read_loop _ BytesIO crc32_step n b _) as [r tr]. cbn [fst] in Hcrc.
  subst r. cbn [snd].
  eexists. split; [reflexivity|]. unfold format_08x.
  rewrite Nat.max_l by apply hex_len_32, in32_land. split.
  - by rewrite hex_fixed_length.
  - by apply hex_fixed_lower.
Qed.

(** ** The reads of a hashing run *)

Lemma read_loop_trace {S : Type} (f : stream) (step : S -> bytes -> result S)
    (n : Z) (fuel : nat) :
  0 < n ->
  forall (rest : bytes) (acc : S),
    (length rest < fuel)%nat ->
    let run := read_loop fuel f step n rest acc in
    Forall (read_within n) run.2
    /\ (bytes_got run.2 <= length rest)%nat
    /\ (is_ok run.1 = true ->
        bytes_got run.2 = length rest /\ last run.2 = Some (IoRead n 0)).
Proof.
  intros Hn. induction fuel as [|fuel IH]; intros rest acc Hlen; [lia|].
  destruct (file_read_positive f n rest Hn) as [Hread Hpos].
  cbn [read_loop]. rewrite Hread.
  destruct rest as [|b rest].
  { rewrite take_nil. cbn [fst snd bytes_got foldr length]. split; [|done].
    apply Forall_cons. split; [|done]. exists 0%nat. split; [done|lia]. }
  destruct (Z.to_nat n) as [|k] eqn:Hk; [lia|].
  cbn [take drop firstn skipn].
  assert (Hev : read_within n (IoRead n (length (b :: take k rest)))).
  { exists (length (b :: take k rest)). split; [done|].
    cbn [length]. rewrite length_take. lia. }
  assert (Hgot : (length (b :: take k rest) + length (drop k rest)
                  = length (b :: rest))%nat).
  { cbn [length]. rewrite length_take, length_drop. lia. }
  destruct (step acc (b :: take k rest)) as [acc'|e].
  - specialize (IH (drop k rest) acc').
    destruct (read_loop fuel f step n (drop k rest) acc') as [r tr].
    cbn [fst snd] in *. destruct IH as (Hall & Hle & Hfull).
    { rewrite length_drop. cbn [length] in Hlen. lia. }
    split; [by apply Forall_cons|]. unfold bytes_got in *. cbn [foldr]. split; [lia|].
    intros Hok. destruct (Hfull Hok) as [Heq Hlast]. split; [lia|].
    destruct tr as [|ev tr]; [done|]. by rewrite last_cons, Hlast.
  - cbn [fst snd is_ok]. split; [by apply Forall_singleton|].
    unfold bytes_got. cbn [foldr]. split; [lia|done].
Qed.

(** X4.  [computeHash] on a regular file with a positive buffer size
    opens the file, reads, and closes it, also when a step raises.  No
    [read] obtains more than [buffersize] bytes, and together the reads
    obtain no more than the file holds.  For every hasher argument but
    ["crc64"] (whose step may raise), and whenever a digest is returned,
    the reads that are made obtain each byte of the file once and the
    last one comes back empty. *)
Theorem computeHash_reads_bounded
    (lib_hexdigest : hash_alg -> bytes -> string) (xxhash_installed : bool)
    (crc64iso : option crc64_module)
    (fs : fsmap) (path : string) (content : bytes) (mtime : Z)
    (hasher : hasher_arg) (n : Z) :
  0 < n ->
  fs !! path = Some (File content mtime) ->
  exists tr : list io_event,
    (computeHash lib_hexdigest xxhash_installed crc64iso fs path hasher n).1
      = IoOpen path :: tr ++ [IoClose path]
    /\ Forall (read_within n) tr
    /\ (bytes_got tr <= length content)%nat
    /\ (is_name hasher "crc64" = false ->
        tr = [] \/ (bytes_got tr = length content /\ last tr = Some (IoRead n 0)))
    /\ (is_ok (computeHash lib_hexdigest xxhash_installed crc64iso fs path hasher n).2
        = true ->
        bytes_got tr = length content /\ last tr = Some (IoRead n 0)).
Proof.
  intros Hn Hfile. unfold computeHash. rewrite Hfile.
  assert (Hloop : forall (S : Type) (step : S -> bytes -> result S) (acc : S),
             let run := read_all BufferedReader step n content acc in
             Forall (read_within n) run.2
             /\ (bytes_got run.2 <= length content)%nat
             /\ (is_ok run.1 = true ->
                 bytes_got run.2 = length content /\ last run.2 = Some (IoRead n 0))).
  { intros S step acc.
    apply (read_loop_trace BufferedReader step n (Datatypes.S (length content)) Hn).
    lia. }
  assert (Hpure : forall (S : Type) (step : S -> bytes -> result S)
                         (merge : S -> bytes -> S) (acc : S),
             (forall acc a, step acc a = Ok (merge acc a)) ->
             is_ok (read_all BufferedReader step n content acc).1 = true).
  { intros S step merge acc Htotal.
    destruct (read_loop_total step merge Htotal BufferedReader n
                (Datatypes.S (length content)) content acc) as [acc' Hacc]; [right; lia|].
    unfold read_all. by rewrite Hacc. }
  unfold _computeHashImpl.
  destruct (is_name hasher "crc32").
  { specialize (Hloop _ crc32_step (zlib_crc32 [] 0)).
    specialize (Hpure _ crc32_step (fun crc buffer => zlib_crc32 buffer crc)
                  (zlib_crc32 [] 0) (fun _ _ => eq_refl)).
    destruct (read_all BufferedReader crc32_step n content _) as [[crc|e] tr];
      cbn [fst snd is_ok] in *; [|done].
    destruct Hloop as (Hall & Hle & Hfull). exists tr.
    split; [done|]. split; [done|]. split; [done|]. split; [right|]; by auto. }
  destruct (is_name hasher "crc64").
  { destruct crc64iso as [m|].
    2:{ exists []. cbn [fst snd is_ok bytes_got foldr app].
        split; [done|]. split; [done|]. split; [lia|done]. }
    specialize (Hloop _ (crc64_step m) None).
    destruct (read_all BufferedReader (crc64_step m) n content None) as [[cur|e] tr];
      cbn [fst snd is_ok] in *; destruct Hloop as (Hall & Hle & Hfull); exists tr.
    - split; [done|]. split; [done|]. split; [done|]. split; [done|]. by auto.
    - split; [done|]. split; [done|]. split; [done|]. split; done. }
  destruct (match hasher with
            | ByName s => hasherFromString xxhash_installed s
            | ByObject h => Ok h
            end) as [h|e].
  2:{ exists []. cbn [fst snd is_ok bytes_got foldr app].
      split; [done|]. split; [done|]. split; [lia|]. split; [by left|done]. }
  specialize (Hloop _ update_step h).
  specialize (Hpure _ update_step hasher_update h (fun _ _ => eq_refl)).
  destruct (read_all BufferedReader update_step n content h) as [[h'|e] tr];
    cbn [fst snd is_ok] in *; [|done].
  destruct Hloop as (Hall & Hle & Hfull). exists tr.
  split; [done|]. split; [done|]. split; [done|]. split; [right|]; by auto.
Qed.

Lemma computeHash_reads_bounded_witness :
  0 < 1 /\
  sample_files !! "a.txt" = Some (File ["h"%byte; "i"%byte] 5) /\
  exists tr : list io_event,
    (computeHash no_digest false None sample_files "a.txt" (ByName "crc32") 1).1
      = IoOpen "a.txt" :: tr ++ [IoClose "a.txt"]
    /\ Forall (read_within 1) tr
    /\ (bytes_got tr <= length ["h"%byte; "i"%byte])%nat
    /\ (is_name (ByName "crc32") "crc64" = false ->
        tr = [] \/ (bytes_got tr = length ["h"%byte; "i"%byte]
                    /\ last tr = Some (IoRead 1 0)))
    /\ (is_ok (computeHash no_digest false None sample_files "a.txt"
                 (ByName "crc32") 1).2 = true ->
        bytes_got tr = length ["h"%byte; "i"%byte] /\ last tr = Some (IoRead 1 0)).
Proof.
  split; [lia|]. split; [by vm_compute|].
  apply (computeHash_reads_bounded no_digest false None sample_files "a.txt"
           ["h"%byte; "i"%byte] 5 (ByName "crc32") 1); [lia|by vm_compute].
Defined.

(** ** Further properties of the traversals *)

Section WalkVariants.

Variable plat : sys_platform.

Lemma walk_bottom_up_unfiltered (a : walk_args) (t : tree) :
  topDown a = false ->
  forall p, walk plat a p t = walk plat (without_filter a) p t.
Proof.
  intros Hbottom.
  induction t as [n|n e|n entries IH] using tree_ind_entries; intros p; [done..|].
  cbn [walk]. unfold visit.
  cbn [topDown includeFiles includeDirs allowedExts without_filter].
  rewrite Hbottom. cbn [negb orb]. f_equal.
  induction IH as [|sub entries Hsub _ IHes]; [done|].
  cbn [flat_map]. rewrite IHes. f_equal.
  destruct (is_dir_entry sub); [|done]. cbn [andb]. apply Hsub.
Qed.

(** X5.  Bottom-up ([topDown=False]), [os.walk] has gone through every
    subdirectory before [recurseFiles] assigns the filtered list to
    [dirNames], so [fnFilterDirs] prunes nothing: the call yields what it
    yields without the filter. *)
Theorem recurseFiles_bottom_up_ignores_filter (a : walk_args) (root : string) (t : tree) :
  topDown a = false ->
  recurseFiles plat a root t = recurseFiles plat (without_filter a) root t.
Proof.
  intros Hbottom. unfold recurseFiles.
  by rewrite (walk_bottom_up_unfiltered a t Hbottom).
Qed.

Lemma walk_names_only (a : walk_args) (t : tree) :
  forall p, walk plat (names_only a) p t = map item_name (walk plat a p t).
Proof.
  induction t as [n|n e|n entries IH] using tree_ind_entries; intros p; [done..|].
  cbn [walk]. unfold visit.
  cbn [topDown includeFiles includeDirs allowedExts names_only].
  assert (Hbelow :
    flat_map
      (fun sub =>
         if is_dir_entry sub
            && (negb (topDown a)
                || bool_decide
                     (tree_name sub
                        ∈ filter (fun dir => keeps_dir plat (names_only a) p dir = true)
                            (dir_names entries)))
         then walk plat (names_only a) (join plat p (tree_name sub)) sub
         else []) entries
    = map item_name
        (flat_map
           (fun sub =>
              if is_dir_entry sub
                 && (negb (topDown a)
                     || bool_decide
                          (tree_name sub
                             ∈ filter (fun dir => keeps_dir plat a p dir = true)
                                 (dir_names entries)))
              then walk plat a (join plat p (tree_name sub)) sub
              else []) entries)).
  { generalize (dir_names entries). intros names.
    induction IH as [|sub es Hsub _ IHes]; [done|].
    cbn [flat_map]. rewrite map_app, IHes. f_equal.
    change (keeps_dir plat (names_only a) p) with (keeps_dir plat a p).
    destruct (_ && _); [apply Hsub|done]. }
  assert (Hhere :
    (if includeFiles a
     then map (file_item plat (names_only a) p)
            (filter (fun filename => ext_allowed plat (allowedExts a) filename = true)
               (if is_win plat then file_names entries
                else merge_sort String.le (file_names entries)))
     else []) ++ (if includeDirs a then [dir_item plat (names_only a) p] else [])
    = map item_name
        ((if includeFiles a
          then map (file_item plat a p)
                 (filter (fun filename => ext_allowed plat (allowedExts a) filename = true)
                    (if is_win plat then file_names entries
                     else merge_sort String.le (file_names entries)))
          else []) ++ (if includeDirs a then [dir_item plat a p] else []))).
  { rewrite map_app. f_equal.
    - destruct (includeFiles a); [|done]. rewrite map_map. apply map_ext.
      intros name. unfold file_item. cbn [filenamesOnly names_only].
      by destruct (filenamesOnly a).
    - destruct (includeDirs a); [|done]. unfold dir_item.
      cbn [filenamesOnly names_only map]. by destruct (filenamesOnly a). }
  rewrite Hhere, Hbelow. destruct (topDown a); by rewrite !map_app.
Qed.

(** X6.  [filenamesOnly] changes the form of what is yielded and nothing
    else: with it, [recurseFiles] yields the names of the pairs it
    yields without it, in the same order. *)
Theorem recurseFiles_filenamesOnly (a : walk_args) (root : string) (t : tree)
    (items : list item) :
  recurseFiles plat a root t = Ok items ->
  recurseFiles plat (names_only a) root t = Ok (map item_name items).
Proof.
  unfold recurseFiles. destruct (is_dir_entry t); [|done].
  intros [= <-]. by rewrite walk_names_only.
Qed.

End WalkVariants.

Lemma recurseFiles_bottom_up_ignores_filter_witness :
  topDown {| filenamesOnly := false; allowedExts := None;
             fnFilterDirs := Some not_skip; includeFiles := true;
             includeDirs := false; topDown := false |} = false /\
  recurseFiles Linux
    {| filenamesOnly := false; allowedExts := None;
       fnFilterDirs := Some not_skip; includeFiles := true;
       includeDirs := false; topDown := false |} "root" sample_tree
  = recurseFiles Linux
      {| filenamesOnly := false; allowedExts := None;
         fnFilterDirs := None; includeFiles := true;
         includeDirs := false; topDown := false |} "root" sample_tree.
Proof.
  split; [reflexivity|].
  by apply (recurseFiles_bottom_up_ignores_filter Linux
              {| filenamesOnly := false; allowedExts := None;
                 fnFilterDirs := Some not_skip; includeFiles := true;
                 includeDirs := false; topDown := false |} "root" sample_tree).
Defined.

Lemma recurseFiles_filenamesOnly_witness :
  recurseFiles Linux txt_args "root" sample_tree
  = Ok [Pair "root/a.txt" "a.txt"; Pair "root/sub/c.txt" "c.txt"] /\
  recurseFiles Linux (names_only txt_args) "root" sample_tree
  = Ok [Name "a.txt"; Name "c.txt"].
Proof.
  split; [by vm_compute|].
  apply (recurseFiles_filenamesOnly Linux txt_args "root" sample_tree
           [Pair "root/a.txt" "a.txt"; Pair "root/sub/c.txt" "c.txt"]).
  by vm_compute.
Defined.

Section RecurseFileInfoMore.

Variable plat : sys_platform.
Variable a : info_args.

Local Abbreviation self := (fun path entry => recurseFileInfo plat a path entry).


(** X8.  When [recurseFileInfo] runs to its end without an exception,
    every file of the root and of every directory it went into has been
    yielded, and so has every such directory entry unless [filesOnly]. *)
Theorem recurseFileInfo_complete (root : string) (t : tree) (via : list string)
    (q name : string) (entries : list tree) (k : tree) :
  (recurseFileInfo plat a root t).2 = None ->
  descends plat root t via q (TDir name entries) ->
  (via <> [] -> recurse a = true) ->
  Forall (accepted (fnFilterDirs' a)) via ->
  k ∈ entries ->
  is_dir_entry k = false \/ filesOnly a = false ->
  Yielded (join plat q (tree_name k)) (is_dir_entry k)
    ∈ (recurseFileInfo plat a root t).1.
Proof.
  intros Hnone Hdesc Hrec Hvia Hk Hkind.
  destruct (recurseFileInfo_completes_below plat a root t via q name entries
              Hdesc Hrec Hvia Hnone) as [Hq Hevs].
  apply Hevs. simpl. apply (scan_all plat a q self entries k); [done|done|].
  destruct (is_dir_entry k) eqn:Hdir.
  - destruct Hkind as [?|Hfiles]; [done|]. by apply body_own.
  - unfold visit_entry. rewrite Hdir. left.
Qed.

End RecurseFileInfoMore.


Lemma recurseFileInfo_complete_witness :
  (recurseFileInfo Linux info_sample_args "root" sample_tree).2 = None /\
  Yielded "root/sub/c.txt" false
    ∈ (recurseFileInfo Linux info_sample_args "root" sample_tree).1.
Proof.
  split; [by vm_compute|].
  apply (recurseFileInfo_complete Linux info_sample_args "root" sample_tree
           ["root/sub"] "root/sub" "sub" [TFile "c.txt"] (TFile "c.txt")).
  - by vm_compute.
  - apply (descends_into Linux "root" "root" _ (TDir "sub" [TFile "c.txt"]) []);
      [by right; right; left|reflexivity|].
    apply descends_here.
  - reflexivity.
  - repeat constructor.
  - by left.
  - by left.
Defined.

Lemma scan_entries_flat (plat : sys_platform) (a : info_args) (root : string)
    (f : string -> tree -> list info_event * option exn) (es : list tree) :
  recurse a = false ->
  scan_entries plat a root f es
  = (map (fun k => Yielded (join plat root (tree_name k)) (is_dir_entry k))
         (filter (fun k => negb (is_dir_entry k && filesOnly a) = true) es),
     None).
Proof.
  intros Hrec. induction es as [|k es IH]; [done|].
  cbn [scan_entries]. fold (scan_entries plat a root f). rewrite IH.
  unfold visit_entry, enters. rewrite Hrec, filter_cons. cbn [andb].
  destruct (is_dir_entry k) eqn:Hd, (filesOnly a); simpl; by rewrite ?Hd.
Qed.

(** X9.  [listFileInfo] does not go below the root: for a root that can
    be enumerated it never raises, whatever the state of the
    subdirectories, and it yields the entries of the root in directory
    order, the directories among them unless [filesOnly]. *)
Theorem listFileInfo_direct_entries (plat : sys_platform) (root name : string)
    (entries : list tree) (filesOnly : bool) :
  listFileInfo plat root (TDir name entries) filesOnly
  = (map (fun k => Yielded (join plat root (tree_name k)) (is_dir_entry k))
         (filter (fun k => negb (is_dir_entry k && filesOnly) = true) entries),
     None).
Proof. unfold listFileInfo. cbn [recurseFileInfo]. by rewrite scan_entries_flat. Qed.

(** ** Strings *)

Lemma str_app_nil_l (s : string) : "" +:+ s = s.
Proof. reflexivity. Qed.

Lemma str_app_cons (c : ascii) (a b : string) : String c a +:+ b = String c (a +:+ b).
Proof. reflexivity. Qed.

Ltac str_simpl := rewrite ?str_app_cons, ?str_app_nil_l; simpl; rewrite ?str_app_cons, ?str_app_nil_l.

Lemma str_app_nil_r (s : string) : s +:+ "" = s.
Proof. induction s as [|c s IH]; str_simpl; [done|by rewrite IH]. Qed.

Lemma str_app_assoc (a b c : string) : (a +:+ b) +:+ c = a +:+ b +:+ c.
Proof. induction a as [|x a IH]; str_simpl; [done|by rewrite IH]. Qed.

Lemma str_length_app (a b : string) :
  String.length (a +:+ b) = (String.length a + String.length b)%nat.
Proof. induction a as [|x a IH]; str_simpl; [done|by rewrite IH]. Qed.

Lemma substring_0_all (s : string) : String.substring 0 (String.length s) s = s.
Proof. induction s as [|c s IH]; simpl; [done|by rewrite IH]. Qed.

Lemma substring_split (s : string) :
  forall n : nat,
    String.substring 0 n s +:+ String.substring n (String.length s - n) s = s.
Proof.
  induction s as [|c s IH]; intros [|n]; str_simpl; try done.
  - by rewrite substring_0_all.
  - by rewrite IH.
Qed.

Lemma slice_split (k : Z) (s : string) : slice_to k s +:+ slice_from k s = s.
Proof. apply substring_split. Qed.

Lemma slice_to_app (a x : string) :
  slice_to (Z.of_nat (String.length a)) (a +:+ x) = a.
Proof.
  unfold slice_to. rewrite Nat2Z.id.
  induction a as [|c a IH]; str_simpl; [by destruct x|by rewrite IH].
Qed.

Lemma slice_from_app (a x : string) :
  slice_from (Z.of_nat (String.length a)) (a +:+ x) = x.
Proof.
  unfold slice_from. rewrite Nat2Z.id, str_length_app.
  replace (String.length a + String.length x - String.length a)%nat
    with (String.length x) by lia.
  induction a as [|c a IH]; str_simpl; [apply substring_0_all|done].
Qed.

Lemma str_forallb_app (P : ascii -> bool) (a b : string) :
  str_forallb P (a +:+ b) = str_forallb P a && str_forallb P b.
Proof.
  induction a as [|c a IH]; str_simpl; [done|]. by rewrite IH, andb_assoc.
Qed.

Lemma lower_app (a b : string) : lower (a +:+ b) = lower a +:+ lower b.
Proof. induction a as [|c a IH]; str_simpl; [done|by rewrite IH]. Qed.

(** *** [rfind] *)

Lemma rfind_from_none (test : ascii -> bool) (s : string) :
  forall i found,
    str_forallb (fun c => negb (test c)) s = true ->
    rfind_from test s i found = found.
Proof.
  induction s as [|c s IH]; intros i found; simpl; [done|].
  intros [Hc Hs]%andb_true_iff. rewrite IH by done.
  by destruct (test c).
Qed.

Lemma rfind_from_last (test : ascii -> bool) (a : string) (c : ascii) (b : string) :
  test c = true ->
  str_forallb (fun c => negb (test c)) b = true ->
  forall i found,
    rfind_from test (a +:+ String c b) i found = i + Z.of_nat (String.length a).
Proof.
  intros Hc Hb. induction a as [|x a IH]; intros i found; str_simpl.
  - rewrite rfind_from_none by done. rewrite Hc. lia.
  - rewrite IH. lia.
Qed.

(** A string has no character passing [test], or a last one. *)
Lemma last_char_decomp (test : ascii -> bool) (s : string) :
  str_forallb (fun c => negb (test c)) s = true
  \/ exists a c b,
       s = a +:+ String c b /\ test c = true
       /\ str_forallb (fun c => negb (test c)) b = true.
Proof.
  induction s as [|x s IH]; [by left|].
  destruct IH as [Hnone|(a & c & b & -> & Hc & Hb)].
  - destruct (test x) eqn:Hx.
    + right. by exists "", x, s.
    + left. simpl. by rewrite Hx.
  - right. by exists (String x a), c, b.
Qed.

Lemma rfind_decomp (test : ascii -> bool) (s : string) :
  (rfind test s = -1 /\ str_forallb (fun c => negb (test c)) s = true)
  \/ exists a c b,
       s = a +:+ String c b
       /\ rfind test s = Z.of_nat (String.length a)
       /\ test c = true
       /\ str_forallb (fun c => negb (test c)) b = true.
Proof.
  destruct (last_char_decomp test s) as [Hnone|(a & c & b & -> & Hc & Hb)].
  - left. split; [|done]. by apply rfind_from_none.
  - right. exists a, c, b. repeat split; try done.
    unfold rfind. by rewrite rfind_from_last.
Qed.

Lemma rfind_ge (test : ascii -> bool) (s : string) : -1 <= rfind test s.
Proof.
  destruct (rfind_decomp test s) as [[-> _]|(a & c & b & _ & -> & _)]; lia.
Qed.

(** Of two decompositions of a string, the one with the longer front has
    its rest inside the rest of the other. *)
Lemma app_eq_shorter (a' : string) :
  forall (a : string) (c' c : ascii) (b' b : string),
    a' +:+ String c' b' = a +:+ String c b ->
    (String.length a' < String.length a)%nat ->
    exists m, b' = m +:+ String c b.
Proof.
  induction a' as [|y a' IH]; intros [|x a] c' c b' b; str_simpl; intros Heq Hlen;
    try lia.
  - injection Heq as _ ->. by exists a.
  - injection Heq as _ Heq. apply (IH a c' c b' b Heq). lia.
Qed.

(** *** [splitExt] and [getExt] *)

Lemma splitExt_cases (plat : sys_platform) (p : string) :
  splitExt plat p = (p, "")
  \/ exists a b,
       p = a +:+ String "." b
       /\ splitExt plat p = (a, String "." b)
       /\ str_forallb (fun c => negb (Ascii.eqb "." c)) b = true
       /\ str_forallb (fun c => negb (is_sep plat c)) b = true.
Proof.
  unfold splitExt.
  destruct (rfind_decomp (Ascii.eqb ".") p) as [[Hdot _]|(a & c & b & Hp & Hdot & Hc & Hb)].
  { left. rewrite Hdot. pose proof (rfind_ge (is_sep plat) p).
    by destruct (Z.ltb_spec (rfind (is_sep plat) p) (-1)); [lia|]. }
  apply Ascii.eqb_eq in Hc as <-.
  destruct (Z.ltb_spec (rfind (is_sep plat) p) (rfind (Ascii.eqb ".") p)) as [Hlt|];
    [|by left].
  destruct (existsb _ _); [|by left].
  right. exists a, b. rewrite Hdot. split; [done|].
  split; [by rewrite Hp at 1 2; rewrite slice_to_app, slice_from_app|].
  split; [done|].
  destruct (rfind_decomp (is_sep plat) p) as [[_ Hnone]|(a' & c' & b' & Hp' & Hsep & _ & Hb')].
  - rewrite Hp, str_forallb_app in Hnone.
    apply andb_true_iff in Hnone as [_ Hnone]. cbn [str_forallb] in Hnone.
    by apply andb_true_iff in Hnone as [_ ?].
  - rewrite Hp in Hp'.
    destruct (app_eq_shorter a' a c' "." b' b) as [m ->]; [done|lia|].
    rewrite str_forallb_app in Hb'. apply andb_true_iff in Hb' as [_ Hb'].
    cbn [str_forallb] in Hb'. by apply andb_true_iff in Hb' as [_ ?].
Qed.

Lemma lower_ascii_facts (plat : sys_platform) (c : ascii) :
  is_upper (lower_ascii c) = false
  /\ Ascii.eqb "." (lower_ascii c) = Ascii.eqb "." c
  /\ is_sep plat (lower_ascii c) = is_sep plat c.
Proof.
  destruct plat, c as [[] [] [] [] [] [] [] []]; by vm_compute.
Qed.

Lemma lower_ext_chars (plat : sys_platform) (b : string) :
  str_forallb (fun c => negb (Ascii.eqb "." c)) b = true ->
  str_forallb (fun c => negb (is_sep plat c)) b = true ->
  str_forallb (ext_char plat) (lower b) = true.
Proof.
  induction b as [|c b IH]; cbn [str_forallb lower]; [done|].
  intros [Hc Hb]%andb_true_iff [Hc' Hb']%andb_true_iff.
  rewrite IH by done. unfold ext_char.
  destruct (lower_ascii_facts plat c) as (-> & -> & ->).
  by rewrite Hc, Hc'.
Qed.

(** X10.  What [getExt] returns: with [removeDot] (the default) a string
    without dot, separator or upper-case letter; without it, either
    nothing (and then nothing with [removeDot] either) or a dot followed
    by what [getExt] returns with [removeDot]. *)
Theorem getExt_form (plat : sys_platform) (s : string) :
  str_forallb (ext_char plat) (getExt plat s true) = true
  /\ ((getExt plat s false = "" /\ getExt plat s true = "")
      \/ getExt plat s false = String "." (getExt plat s true)).
Proof.
  unfold getExt.
  destruct (splitExt_cases plat s) as [->|(a & b & _ & -> & Hdot & Hsep)]; simpl.
  { split; [done|by left]. }
  unfold slice_from. simpl. rewrite Nat.sub_0_r, substring_0_all.
  split; [by apply lower_ext_chars|by right].
Qed.

(** X11.  The extension is taken from the end of the path: for a path
    of ASCII characters, the path in lower case ends with what [getExt]
    returns, with or without the dot. *)
Theorem getExt_suffix (plat : sys_platform) (s : string) (removeDot : bool) :
  str_forallb is_ascii s = true ->
  exists before : string, lower s = before +:+ getExt plat s removeDot.
Proof.
  intros _. unfold getExt.
  destruct (splitExt_cases plat s) as [->|(a & b & Hs & -> & _)]; simpl.
  { exists (lower s). rewrite andb_false_r. simpl. by rewrite str_app_nil_r. }
  rewrite andb_true_r. unfold slice_from. simpl.
  rewrite Nat.sub_0_r, substring_0_all.
  destruct removeDot; simpl.
  - exists (lower (a +:+ ".")). by rewrite Hs at 1; rewrite <- lower_app, str_app_assoc.
  - exists (lower a). by rewrite Hs at 1; rewrite lower_app.
Qed.

Lemma getExt_suffix_witness :
  str_forallb is_ascii "a/Photo.JPG" = true /\
  getExt Linux "a/Photo.JPG" true = "jpg" /\
  exists before : string,
    lower "a/Photo.JPG" = before +:+ getExt Linux "a/Photo.JPG" true.
Proof.
  split; [reflexivity|]. split; [reflexivity|].
  apply (getExt_suffix Linux "a/Photo.JPG" true). reflexivity.
Defined.

(** ** [os.path.split] after [os.path.join] *)

Lemma rev_app_app (a y z : string) :
  String.rev_app (a +:+ y) z = String.rev_app y (String.rev_app a z).
Proof. revert z. induction a as [|x a IH]; intros z; str_simpl; [done|apply IH]. Qed.

Lemma rev_app_rev (a : string) :
  forall y z, String.rev_app (String.rev_app a y) z = String.rev_app y (a +:+ z).
Proof. induction a as [|x a IH]; intros y z; str_simpl; [done|]. by rewrite IH. Qed.

Lemma rstrip_sep_app (plat : sys_platform) (a : string) (c : ascii) (b : string) :
  is_sep plat c = false ->
  str_forallb (is_sep plat) b = true ->
  rstrip_sep plat (a +:+ String c b) = a +:+ String c "".
Proof.
  intros Hc Hb. unfold rstrip_sep, String.rev.
  set (strip := fix strip (r : string) : string :=
                  match r with
                  | String c r' => if is_sep plat c then strip r' else r
                  | EmptyString => EmptyString
                  end).
  rewrite rev_app_app. cbn [String.rev_app].
  assert (Hstrip : forall z, strip (String.rev_app b z) = strip z).
  { revert Hb. clear. induction b as [|x b IH]; intros Hb z; [done|].
    cbn [str_forallb] in Hb. apply andb_true_iff in Hb as [Hx Hb].
    cbn [String.rev_app]. rewrite IH by done. cbn [strip]. by rewrite Hx. }
  rewrite Hstrip. cbn [strip]. rewrite Hc. cbn [String.rev_app].
  by rewrite (rev_app_rev a "" (String c "")).
Qed.

Lemma str_forallb_false (P : ascii -> bool) (a : string) (c : ascii) (b : string) :
  P c = false -> str_forallb P (a +:+ String c b) = false.
Proof.
  intros Hc. rewrite str_forallb_app. cbn [str_forallb]. rewrite Hc.
  by rewrite andb_false_r.
Qed.

(** [os.path.split] at a separator that only characters other than
    separators follow. *)
Lemma os_path_split_at (plat : sys_platform) (h : string) (sepc : ascii) (name : string) :
  is_sep plat sepc = true ->
  str_forallb (fun c => negb (is_sep plat c)) name = true ->
  os_path_split plat (h +:+ String sepc name)
  = (if str_forallb (is_sep plat) (h +:+ String sepc "")
     then h +:+ String sepc ""
     else rstrip_sep plat (h +:+ String sepc ""), name).
Proof.
  intros Hsep Hname. unfold os_path_split.
  unfold rfind. rewrite rfind_from_last by done.
  replace (0 + Z.of_nat (String.length h) + 1)
    with (Z.of_nat (String.length (h +:+ String sepc "")))
    by (rewrite str_length_app; simpl; lia).
  replace (h +:+ String sepc name) with ((h +:+ String sepc "") +:+ name)
    by (by rewrite str_app_assoc).
  rewrite slice_to_app, slice_from_app.
  assert (Hne : String.eqb (h +:+ String sepc "") "" = false).
  { apply String.eqb_neq. by destruct h. }
  rewrite Hne. cbn [negb andb].
  by destruct (str_forallb (is_sep plat) (h +:+ String sepc "")).
Qed.

Lemma os_path_split_bare (plat : sys_platform) (name : string) :
  str_forallb (fun c => negb (is_sep plat c)) name = true ->
  os_path_split plat name = ("", name).
Proof.
  intros Hname. unfold os_path_split, rfind. rewrite rfind_from_none by done.
  change (-1 + 1) with 0. unfold slice_to, slice_from. simpl.
  rewrite Nat.sub_0_r, substring_0_all. by destruct name.
Qed.

Lemma os_sep_char (plat : sys_platform) :
  exists sepc, os_sep plat = String sepc "" /\ is_sep plat sepc = true
               /\ (os_sep plat = "/" \/ os_sep plat = "\").
Proof. destruct plat; eexists; (split; [reflexivity|]); split; auto. Qed.

Lemma char_is_last (a : string) (c c0 : ascii) :
  char_is (a +:+ String c "") (Z.of_nat (String.length (a +:+ String c "")) - 1) c0
  = Ascii.eqb c c0.
Proof.
  unfold char_is. rewrite str_length_app. simpl.
  replace (Z.to_nat (Z.of_nat (String.length a + 1) - 1)) with (String.length a) by lia.
  induction a as [|x a IH]; str_simpl; [done|apply IH].
Qed.

Lemma join_plain (plat : sys_platform) (d : string) (x : ascii) (name : string) :
  plain_dir plat d ->
  is_sep plat x = false ->
  join plat d (String x name)
  = if String.eqb d "" then String x name else d +:+ os_sep plat +:+ String x name.
Proof.
  intros [->|(d' & c & -> & Hc)] Hx; unfold join; rewrite Hx; [done|].
  rewrite !char_is_last.
  assert (Hne : String.eqb (d' +:+ String c "") "" = false).
  { apply String.eqb_neq. by destruct d'. }
  rewrite Hne. cbn [orb].
  unfold is_sep in Hc. apply orb_false_iff in Hc as [-> Hc].
  destruct (is_win plat); [|done]. cbn [andb orb] in *. by rewrite Hc.
Qed.

Lemma os_path_split_plain (plat : sys_platform) (d name : string) :
  (exists d' c, d = d' +:+ String c "" /\ is_sep plat c = false) ->
  str_forallb (fun c => negb (is_sep plat c)) name = true ->
  os_path_split plat (d +:+ os_sep plat +:+ name) = (d, name).
Proof.
  intros (d' & c & -> & Hc) Hname.
  destruct (os_sep_char plat) as (sepc & -> & Hsep & _). str_simpl.
  rewrite os_path_split_at by done.
  rewrite str_app_assoc. str_simpl.
  rewrite str_forallb_false by done.
  rewrite rstrip_sep_app; [done|done|]. cbn [str_forallb]. by rewrite Hsep.
Qed.

(** The joined path splits into the two again. *)
Lemma join_split (plat : sys_platform) (d name : string) :
  plain_dir plat d ->
  name <> "" ->
  str_forallb (fun c => negb (is_sep plat c)) name = true ->
  getParent plat (join plat d name) = d
  /\ getName plat (join plat d name) = name.
Proof.
  intros Hd Hne Hname. destruct name as [|x name]; [done|].
  assert (Hx : is_sep plat x = false).
  { cbn [str_forallb] in Hname. apply andb_true_iff in Hname as [Hx _].
    by apply negb_true_iff in Hx. }
  rewrite join_plain by done. unfold getParent, getName.
  destruct Hd as [->|Hd].
  - change (String.eqb "" "") with true. cbv iota.
    by rewrite os_path_split_bare.
  - assert (Hne' : String.eqb d "" = false).
    { apply String.eqb_neq. destruct Hd as (d' & c & -> & _). by destruct d'. }
    rewrite Hne'. by rewrite os_path_split_plain.
Qed.



(** ** [getWithDifferentExt] *)

Lemma str_last_decomp (s : string) :
  s <> "" -> exists a c, s = a +:+ String c "".
Proof.
  induction s as [|x s IH]; [done|]. intros _.
  destruct s as [|y s]; [by exists "", x|].
  destruct IH as (a & c & ->); [done|]. by exists (String x a), c.
Qed.


(** X14.  For a file directly below a root that consists of separators
    ([/a.txt]), [getWithDifferentExt] raises: the character it takes for
    the trailing separator of the parent is the first one of the name. *)
Theorem getWithDifferentExt_below_root (plat : sys_platform)
    (d : string) (x : ascii) (name ext_with_dot : string) :
  d <> "" ->
  str_forallb (is_sep plat) d = true ->
  str_forallb (fun c => negb (is_sep plat c)) (String x name) = true ->
  x <> "\"%char ->
  exists msg,
    getWithDifferentExt plat (d +:+ String x name) ext_with_dot
    = Raise (AssertionError msg).
Proof.
  intros Hne Hd Hname Hx.
  destruct (str_last_decomp d Hne) as (h & sepc & Hh).
  assert (Hsep : is_sep plat sepc = true).
  { rewrite Hh, str_forallb_app in Hd. apply andb_true_iff in Hd as [_ Hd].
    cbn [str_forallb] in Hd. by apply andb_true_iff in Hd as [? _]. }
  unfold getWithDifferentExt.
  assert (Hsplit : os_path_split plat (d +:+ String x name) = (d, String x name)).
  { rewrite Hh, str_app_assoc. str_simpl. rewrite os_path_split_at by done.
    by rewrite <- Hh, Hd. }
  rewrite Hsplit.
  destruct (splitExt plat (String x name)) as [before ext].
  destruct (String.eqb ext ""); [by eexists|].
  apply String.eqb_neq in Hne. rewrite Hne. cbn [negb].
  replace (Z.of_nat (String.length d) + 1)
    with (Z.of_nat (String.length (d +:+ String x "")))
    by (rewrite str_length_app; simpl; lia).
  replace (d +:+ String x name) with ((d +:+ String x "") +:+ name)
    by (by rewrite str_app_assoc).
  rewrite slice_to_app.
  assert (Hslash : String.eqb (d +:+ String x "") (d +:+ "/") = false).
  { apply String.eqb_neq. intros [= ->]%(inj (String.append d)).
    cbn [str_forallb] in Hname. apply andb_true_iff in Hname as [Hname _].
    by destruct plat. }
  assert (Hback : String.eqb (d +:+ String x "") (d +:+ "\") = false).
  { apply String.eqb_neq. by intros [= ->]%(inj (String.append d)). }
  rewrite Hslash, Hback. by eexists.
Qed.


Lemma getWithDifferentExt_below_root_witness :
  exists msg, getWithDifferentExt Linux "/a.txt" ".md" = Raise (AssertionError msg).
Proof.
  apply (getWithDifferentExt_below_root Linux "/" "a"%char ".txt" ".md").
  - discriminate.
  - reflexivity.
  - reflexivity.
  - discriminate.
Defined.

(** ** Further properties of the transfers *)

Lemma with_files_id (w : world) : with_files w (files w) = w.
Proof. by destruct w. Qed.

Lemma stream_into_complete (w : world) (dst : string) (content : bytes) :
  read_fault w = None ->
  stream_into dst content w
  = (with_files w (<[dst := File content (clock w)]> (files w)), Ok tt).
Proof.
  intros Hfault. unfold stream_into. by rewrite Hfault, copy_loop_complete by lia.
Qed.

(** X15.  Copying a regular file to a path where nothing exists, below an
    existing directory: [copy] returns normally, the destination holds
    the content of the source and nothing else changes.  The copy made by
    the streaming helper carries the time of the copy, the one made by
    [CopyFileW] the time stamp of the source. *)
Theorem copy_to_free_path (w : world) (srcFile destFile : string)
    (content : bytes) (mtime : Z)
    (overwrite doTrace keepSameModifiedTime allowDirs : bool) :
  files w !! srcFile = Some (File content mtime) ->
  files w !! destFile = None ->
  parent_errno w destFile = None ->
  read_fault w = None ->
  copy srcFile destFile overwrite doTrace keepSameModifiedTime allowDirs
       false false w
  = (with_files w
       (<[destFile := File content (if is_win (platform w) then mtime else clock w)]>
          (files w)),
     Ok tt).
Proof.
  intros Hsrc Hdst Hparent Hfault.
  destruct (is_win (platform w)) eqn:Hplat; [|by eapply copy_posix_creates].
  assert (Hne : srcFile <> destFile) by congruence.
  assert (HsrcDir : isDir w srcFile = false) by (unfold isDir; by rewrite Hsrc).
  assert (Hmain : _copyFileWin srcFile destFile overwrite w
             = (with_files w (<[destFile := File content mtime]> (files w)), Ok tt)).
  { unfold _copyFileWin, bind, CopyFileW. by rewrite Hsrc, Hdst, Hparent. }
  unfold copy.
  step_ok. rewrite (isFile_lookup _ _ _ _ Hsrc). cbn [negb].
  step_ok. rewrite HsrcDir, andb_false_r.
  step_ok. rewrite (path_exists_none _ _ Hdst), andb_false_r.
  step_ok. erewrite bind_ok by apply when_trace.
  step_ok. step_ok. step_ok.
  rewrite (eqb_neq _ _ Hne), Hplat.
  erewrite bind_ok by apply Hmain.
  step_ok. unfold path_exists. simpl. rewrite lookup_insert_eq.
  by rewrite bool_decide_eq_true_2.
Qed.

Lemma copy_to_free_path_witness :
  files (sample_world Win32 None) !! "a.txt" = Some (File ["h"%byte; "i"%byte] 5) /\
  files (sample_world Win32 None) !! "d/c.txt" = None /\
  copy "a.txt" "d/c.txt" false false false false false false (sample_world Win32 None)
  = (with_files (sample_world Win32 None)
       (<["d/c.txt" := File ["h"%byte; "i"%byte] 5]> sample_files), Ok tt).
Proof.
  split; [by vm_compute|]. split; [by vm_compute|].
  apply (copy_to_free_path (sample_world Win32 None) "a.txt" "d/c.txt"
           ["h"%byte; "i"%byte] 5 false false false false); by vm_compute.
Defined.

(** X16.  Moving a regular file to a path where nothing exists, on a
    platform other than Windows: [move] returns normally, the source is
    gone, the destination holds its content, and nothing else changes.
    Where [move] renames (Linux with [overwrite]) both paths have to be on
    one volume and the time stamp stays; elsewhere the file is copied and
    deleted and carries the time of the copy. *)
Theorem move_to_free_path_posix (w : world) (srcFile destFile : string)
    (content : bytes) (mtime : Z)
    (overwrite warnBetweenDrives doTrace allowDirs : bool) :
  is_win (platform w) = false ->
  files w !! srcFile = Some (File content mtime) ->
  files w !! destFile = None ->
  parent_errno w destFile = None ->
  read_fault w = None ->
  (is_linux (platform w) && overwrite = true -> volume w srcFile = volume w destFile) ->
  move srcFile destFile overwrite warnBetweenDrives doTrace allowDirs false false w
  = (with_files w
       (<[destFile := File content
                        (if is_linux (platform w) && overwrite then mtime else clock w)]>
          (delete srcFile (files w))),
     Ok tt).
Proof.
  intros Hplat Hsrc Hdst Hparent Hfault Hvol.
  assert (Hne : srcFile <> destFile) by congruence.
  destruct (is_linux (platform w) && overwrite) eqn:Hren.
  { apply andb_true_iff in Hren as [Hlinux ->].
    apply move_linux_renames; try done.
    - by destruct (platform w).
    - by apply isDir_none.
    - by apply Hvol. }
  unfold move.
  step_ok. rewrite (path_exists_lookup _ _ _ Hsrc). cbn [negb].
  step_ok. rewrite (isFile_lookup _ _ _ _ Hsrc), andb_false_r.
  erewrite bind_ok by apply when_trace.
  step_ok. step_ok. step_ok.
  rewrite (eqb_neq _ _ Hne), Hplat, Hren.
  erewrite bind_ok.
  2:{ erewrite bind_ok
        by (by apply (copy_posix_creates w srcFile destFile content mtime)).
      step_ok. unfold path_exists. simpl. rewrite lookup_insert_eq.
      rewrite bool_decide_eq_true_2 by done. step_ok.
      unfold os_unlink. simpl. rewrite lookup_insert_ne, Hsrc by done. reflexivity. }
  step_ok. unfold path_exists. simpl.
  rewrite lookup_delete_ne, lookup_insert_eq by done.
  rewrite bool_decide_eq_true_2 by done. simpl.
  by rewrite delete_insert_ne.
Qed.

Lemma move_to_free_path_posix_witness :
  files (sample_world Darwin None) !! "a.txt" = Some (File ["h"%byte; "i"%byte] 5) /\
  files (sample_world Darwin None) !! "d/c.txt" = None /\
  move "a.txt" "d/c.txt" true false false false false false (sample_world Darwin None)
  = (with_files (sample_world Darwin None)
       (<["d/c.txt" := File ["h"%byte; "i"%byte] 100]> (delete "a.txt" sample_files)),
     Ok tt).
Proof.
  split; [by vm_compute|]. split; [by vm_compute|].
  apply (move_to_free_path_posix (sample_world Darwin None) "a.txt" "d/c.txt"
           ["h"%byte; "i"%byte] 5 true false false false); by vm_compute.
Defined.

(** X17.  Copying over an existing regular file with [overwrite]: the
    destination takes the content of the source and nothing else changes.
    With [keepSameModifiedTime] the destination gets back the modification
    time it had, unless that time was 0, which the test
    [if toSetModTime] takes for no time at all. *)
Theorem copy_overwrite_keeps_mtime (w : world) (srcFile destFile : string)
    (content content' : bytes) (mtime mtime' : Z)
    (doTrace keepSameModifiedTime allowDirs : bool) :
  files w !! srcFile = Some (File content mtime) ->
  files w !! destFile = Some (File content' mtime') ->
  srcFile <> destFile ->
  parent_errno w destFile = None ->
  read_fault w = None ->
  copy srcFile destFile true doTrace keepSameModifiedTime allowDirs false false w
  = (with_files w
       (<[destFile :=
            File content
              (if keepSameModifiedTime && negb (mtime' =? 0) then mtime'
               else if is_win (platform w) then mtime else clock w)]> (files w)),
     Ok tt).
Proof.
  intros Hsrc Hdst Hne Hparent Hfault.
  assert (HsrcDir : isDir w srcFile = false) by (unfold isDir; by rewrite Hsrc).
  assert (HdstDir : isDir w destFile = false) by (unfold isDir; by rewrite Hdst).
  set (fresh := if is_win (platform w) then mtime else clock w).
  assert (Hmain :
    (if is_win (platform w) then _copyFileWin srcFile destFile true
     else _copyFilePosix srcFile destFile true) w
    = (with_files w (<[destFile := File content fresh]> (files w)), Ok tt)).
  { unfold fresh. destruct (is_win (platform w)).
    - unfold _copyFileWin, bind, CopyFileW. by rewrite Hsrc, Hdst.
    - unfold _copyFilePosix, shutil_copy.
      rewrite HdstDir, Hsrc, (eqb_neq _ _ Hne), Hparent. cbv zeta.
      rewrite HdstDir. by apply stream_into_complete. }
  unfold copy.
  step_ok. rewrite (isFile_lookup _ _ _ _ Hsrc). cbn [negb].
  step_ok. rewrite HsrcDir, andb_false_r.
  step_ok. rewrite (path_exists_lookup _ _ _ Hdst), andb_true_r.
  erewrite (bind_ok _ _ w w (if keepSameModifiedTime then Some mtime' else None)).
  2:{ destruct keepSameModifiedTime; [|done].
      step_ok. rewrite (isFile_lookup _ _ _ _ Hdst).
      step_ok. erewrite bind_ok; [done|]. unfold getLastModTime. by rewrite Hdst. }
  erewrite bind_ok by apply when_trace.
  step_ok. step_ok. step_ok.
  rewrite (eqb_neq _ _ Hne).
  erewrite bind_ok by apply Hmain.
  step_ok. unfold path_exists at 1. cbn [files with_files].
  rewrite lookup_insert_eq, bool_decide_eq_true_2 by done.
  step_ok.
  destruct keepSameModifiedTime; [|done]. cbn [andb].
  destruct (mtime' =? 0); [done|]. cbn [negb when].
  unfold setLastModTime. cbn [files with_files]. rewrite lookup_insert_eq.
  unfold with_files. cbn [files platform volume clock read_fault].
  by rewrite insert_insert_eq.
Qed.

Lemma copy_overwrite_keeps_mtime_witness :
  files (sample_world Linux None) !! "a.txt" = Some (File ["h"%byte; "i"%byte] 5) /\
  files (sample_world Linux None) !! "d/b.txt" = Some (File ["o"%byte] 1) /\
  copy "a.txt" "d/b.txt" true false true false false false (sample_world Linux None)
  = (with_files (sample_world Linux None)
       (<["d/b.txt" := File ["h"%byte; "i"%byte] 1]> sample_files), Ok tt).
Proof.
  split; [by vm_compute|]. split; [by vm_compute|].
  apply (copy_overwrite_keeps_mtime (sample_world Linux None) "a.txt" "d/b.txt"
           ["h"%byte; "i"%byte] ["o"%byte] 5 1 false true false); by vm_compute.
Defined.

Lemma getLastModTime_reads (I : world -> Prop) (path : string) :
  preserves I (getLastModTime path) (fun _ => True).
Proof.
  intros w Hw. unfold getLastModTime.
  destruct (files w !! path) as [[]|]; by split.
Qed.

(** X18.  With [traceOnly], [copy] and [move] leave the world as it is,
    whatever the other arguments and however the call ends: the checks of
    the source and of the destination's time come first and only read. *)
Theorem traceOnly_changes_nothing (w : world) (srcFile destFile : string)
    (overwrite warnBetweenDrives doTrace keepSameModifiedTime allowDirs createParent : bool) :
  (copy srcFile destFile overwrite doTrace keepSameModifiedTime allowDirs
        createParent true w).1 = w
  /\ (move srcFile destFile overwrite warnBetweenDrives doTrace allowDirs
           createParent true w).1 = w.
Proof.
  set (same := fun w' : world => w' = w).
  split.
  - enough (H : preserves same
                 (copy srcFile destFile overwrite doTrace keepSameModifiedTime
                       allowDirs createParent true) (fun _ => True))
      by exact (proj1 (H w eq_refl)).
    unfold copy.
    eapply preserves_bind; [by apply (preserves_gets _ _ (fun _ => True))|].
    intros src_is_file _. destruct (negb src_is_file); [apply preserves_raise|].
    eapply preserves_bind; [by apply (preserves_gets _ _ (fun _ => True))|].
    intros src_is_dir _. destruct (negb allowDirs && src_is_dir); [apply preserves_raise|].
    eapply preserves_bind; [by apply (preserves_gets _ _ (fun _ => True))|].
    intros dest_exists _.
    eapply (preserves_bind _ _ _ (fun _ => True)).
    { destruct (keepSameModifiedTime && dest_exists); [|by apply preserves_ret].
      eapply preserves_bind; [by apply (preserves_gets _ _ (fun _ => True))|].
      intros dest_is_file _.
      eapply preserves_bind; [apply preserves_assertTrue|]. intros _ _.
      eapply preserves_bind; [apply getLastModTime_reads|].
      intros t _. by apply preserves_ret. }
    intros toSetModTime _.
    eapply preserves_bind;
      [apply preserves_when; intros _; by apply (preserves_ret _ tt (fun _ => True))|].
    intros _ _. by apply preserves_ret.
  - enough (H : preserves same
                 (move srcFile destFile overwrite warnBetweenDrives doTrace
                       allowDirs createParent true) (fun _ => True))
      by exact (proj1 (H w eq_refl)).
    unfold move.
    eapply preserves_bind; [by apply (preserves_gets _ _ (fun _ => True))|].
    intros src_exists _. destruct (negb src_exists); [apply preserves_raise|].
    eapply preserves_bind; [by apply (preserves_gets _ _ (fun _ => True))|].
    intros src_is_file _.
    destruct (negb allowDirs && negb src_is_file); [apply preserves_raise|].
    eapply preserves_bind;
      [apply preserves_when; intros _; by apply (preserves_ret _ tt (fun _ => True))|].
    intros _ _. by apply preserves_ret.
Qed.

(** X19.  [copy] and [move] of a regular file onto its own path return
    normally and change nothing, with [overwrite] or without it: the
    comparison [srcFile == destFile] comes before any transfer. *)
Theorem transfer_onto_itself (w : world) (path : string) (content : bytes) (mtime : Z)
    (overwrite warnBetweenDrives doTrace keepSameModifiedTime allowDirs
     createParent traceOnly : bool) :
  files w !! path = Some (File content mtime) ->
  (createParent = true -> path_exists w (getParent (platform w) path) = true) ->
  copy path path overwrite doTrace keepSameModifiedTime allowDirs
       createParent traceOnly w = (w, Ok tt)
  /\ move path path overwrite warnBetweenDrives doTrace allowDirs
          createParent traceOnly w = (w, Ok tt).
Proof.
  intros Hfile Hparent.
  assert (Hmk : createParent && negb (path_exists w (getParent (platform w) path)) = false).
  { destruct createParent; [|done]. by rewrite Hparent. }
  assert (Hdir : isDir w path = false) by (unfold isDir; by rewrite Hfile).
  split.
  - unfold copy.
    step_ok. rewrite (isFile_lookup _ _ _ _ Hfile). cbn [negb].
    step_ok. rewrite Hdir, andb_false_r.
    step_ok. rewrite (path_exists_lookup _ _ _ Hfile), andb_true_r.
    erewrite (bind_ok _ _ w w (if keepSameModifiedTime then Some mtime else None)).
    2:{ destruct keepSameModifiedTime; [|done].
        step_ok. rewrite (isFile_lookup _ _ _ _ Hfile).
        step_ok. erewrite bind_ok; [done|]. unfold getLastModTime. by rewrite Hfile. }
    erewrite bind_ok by apply when_trace.
    destruct traceOnly; [done|].
    step_ok. step_ok. rewrite Hmk. step_ok.
    rewrite String.eqb_refl. step_ok. step_ok.
    rewrite (path_exists_lookup _ _ _ Hfile). step_ok.
    destruct keepSameModifiedTime; [|done].
    destruct (mtime =? 0); [done|]. cbn [negb when].
    unfold setLastModTime. rewrite Hfile.
    by rewrite insert_id, with_files_id.
  - unfold move.
    step_ok. rewrite (path_exists_lookup _ _ _ Hfile). cbn [negb].
    step_ok. rewrite (isFile_lookup _ _ _ _ Hfile), andb_false_r.
    erewrite bind_ok by apply when_trace.
    destruct traceOnly; [done|].
    step_ok. step_ok. rewrite Hmk. step_ok.
    rewrite String.eqb_refl. step_ok. step_ok.
    by rewrite (path_exists_lookup _ _ _ Hfile).
Qed.

Lemma transfer_onto_itself_witness :
  files (sample_world Linux None) !! "d/b.txt" = Some (File ["o"%byte] 1) /\
  copy "d/b.txt" "d/b.txt" false false true false true false (sample_world Linux None)
  = (sample_world Linux None, Ok tt).
Proof.
  split; [by vm_compute|].
  apply (transfer_onto_itself (sample_world Linux None) "d/b.txt" ["o"%byte] 1
           false false false true false true false); by vm_compute.
Defined.

(** *** The source of a copy *)

Section SourceKept.

Variable srcFile : string.
Variable n : node.

(** The source is there, as it was before the call. *)
Local Abbreviation kept := (fun w : world => files w !! srcFile = Some n).
Local Abbreviation any := (fun _ : unit => True).

Lemma stream_into_src (dst : string) (content : bytes) :
  srcFile <> dst -> preserves kept (stream_into dst content) any.
Proof.
  intros Hne w Hw. unfold stream_into.
  destruct (copy_loop _ _ _ _ _) as [written r]. simpl.
  split; [|done]. by rewrite lookup_insert_ne.
Qed.

Lemma shutil_copy_src (dst : string) : preserves kept (shutil_copy srcFile dst) any.
Proof.
  intros w Hw. unfold shutil_copy.
  set (dst' := if isDir w dst then _ else dst).
  destruct (files w !! srcFile) as [[content mtime|]|] eqn:Hsrc;
    [|split; [simpl; congruence|done]..].
  rewrite <- Hsrc in Hw.
  destruct (String.eqb srcFile dst') eqn:Heq; [by split|].
  apply String.eqb_neq in Heq.
  destruct (isDir w dst'); [by split|].
  destruct (parent_errno w dst'); [by split|].
  by apply stream_into_src.
Qed.

Lemma os_open_excl_src (dst : string) : preserves kept (os_open_excl dst) any.
Proof.
  intros w Hw. unfold os_open_excl.
  destruct (path_exists w dst) eqn:Hex; [by split|].
  destruct (parent_errno w dst); [by split|]. simpl. split; [|done].
  rewrite lookup_insert_ne; [done|]. intros ->.
  by rewrite (path_exists_lookup _ _ _ Hw) in Hex.
Qed.

Lemma copyFilePosix_src (dst : string) (overwrite : bool) :
  srcFile <> dst -> preserves kept (_copyFilePosix srcFile dst overwrite) any.
Proof.
  intros Hne. unfold _copyFilePosix. destruct overwrite; [apply shutil_copy_src|].
  eapply preserves_bind; [apply os_open_excl_src|]. intros _ _ w Hw.
  destruct (files w !! srcFile) as [[content mtime|]|] eqn:Hsrc;
    [|split; [simpl; congruence|done]..].
  rewrite <- Hsrc in Hw.
  by apply stream_into_src.
Qed.

Lemma copyFileWin_src (dst : string) (overwrite : bool) :
  srcFile <> dst -> preserves kept (_copyFileWin srcFile dst overwrite) any.
Proof.
  intros Hne. unfold _copyFileWin.
  eapply (preserves_bind _ _ _ (fun _ => True)).
  - intros w Hw. unfold CopyFileW.
    destruct (files w !! srcFile) as [[content mtime|]|] eqn:Hsrc;
      [|split; [simpl; congruence|done]..].
    rewrite <- Hsrc in Hw.
    destruct (files w !! dst) as [[content' mtime'|]|]; [| |destruct (parent_errno w dst)];
      try (by split).
    + destruct (negb _); [by split|]. simpl. split; [|done]. by rewrite lookup_insert_ne.
    + simpl. split; [|done]. by rewrite lookup_insert_ne.
  - intros [err|] _; [apply preserves_raise|by apply preserves_ret].
Qed.

Lemma getLastModTime_src (dst : string) :
  preserves kept (getLastModTime dst)
    (fun t => dst = srcFile -> forall content mtime, n = File content mtime -> mtime = t).
Proof.
  intros w Hw. unfold getLastModTime.
  destruct (files w !! dst) as [[content mtime|]|] eqn:Hdst; simpl; (split; [done|]);
    [|by intros t [= <-] -> ; rewrite Hw in Hdst; intros ?? ->|done].
  intros t [= <-] -> content' mtime' ->. rewrite Hw in Hdst. by injection Hdst.
Qed.

Lemma setLastModTime_src (dst : string) (t : Z) :
  (dst = srcFile -> forall content mtime, n = File content mtime -> mtime = t) ->
  preserves kept (setLastModTime dst t) any.
Proof.
  intros Ht w Hw. unfold setLastModTime.
  destruct (files w !! dst) as [[content mtime|]|] eqn:Hdst; simpl; [|by split..].
  split; [|done]. destruct (decide (dst = srcFile)) as [->|Hne].
  - rewrite lookup_insert_eq. rewrite Hw in Hdst. injection Hdst as Hn.
    by rewrite Hn, (Ht eq_refl content mtime Hn).
  - by rewrite lookup_insert_ne.
Qed.

(** X20.  [copy] never alters or removes its source, whatever the
    destination and the other arguments and however the call ends, also
    when a read fails half way or the destination is the source itself. *)
Theorem copy_keeps_source (w : world) (destFile : string)
    (overwrite doTrace keepSameModifiedTime allowDirs createParent traceOnly : bool) :
  files w !! srcFile = Some n ->
  files (copy srcFile destFile overwrite doTrace keepSameModifiedTime allowDirs
              createParent traceOnly w).1 !! srcFile = Some n.
Proof.
  enough (H : preserves kept
                (copy srcFile destFile overwrite doTrace keepSameModifiedTime
                      allowDirs createParent traceOnly) any)
    by (intros Hw; exact (proj1 (H w Hw))).
  unfold copy.
  eapply preserves_bind; [by apply (preserves_gets _ _ (fun _ => True))|].
  intros src_is_file _. destruct (negb src_is_file); [apply preserves_raise|].
  eapply preserves_bind; [by apply (preserves_gets _ _ (fun _ => True))|].
  intros src_is_dir _. destruct (negb allowDirs && src_is_dir); [apply preserves_raise|].
  eapply preserves_bind; [by apply (preserves_gets _ _ (fun _ => True))|].
  intros dest_exists _.
  eapply (preserves_bind _ _ _
            (fun o => forall t, o = Some t -> destFile = srcFile ->
                      forall content mtime, n = File content mtime -> mtime = t)).
  { destruct (keepSameModifiedTime && dest_exists); [|by apply preserves_ret].
    eapply preserves_bind; [by apply (preserves_gets _ _ (fun _ => True))|].
    intros dest_is_file _.
    eapply preserves_bind; [apply preserves_assertTrue|]. intros _ _.
    eapply preserves_bind; [apply getLastModTime_src|].
    intros t Ht. apply preserves_ret. by intros t' [= <-]. }
  intros toSetModTime Hmod.
  eapply preserves_bind;
    [apply preserves_when; intros _; by apply (preserves_ret _ tt any)|].
  intros _ _. destruct traceOnly; [by apply preserves_ret|].
  eapply preserves_bind; [by apply (preserves_gets _ _ (fun _ => True))|].
  intros plat _.
  eapply preserves_bind; [by apply (preserves_gets _ _ (fun _ => True))|].
  intros parent_exists _.
  eapply preserves_bind; [apply preserves_when; intros _; apply makeDirs_kept|].
  intros _ _.
  eapply (preserves_bind _ _ _ any).
  { destruct (String.eqb srcFile destFile) eqn:Heq; [by apply preserves_ret|].
    apply String.eqb_neq in Heq.
    destruct (is_win plat); [by apply copyFileWin_src|by apply copyFilePosix_src]. }
  intros _ _.
  eapply preserves_bind; [by apply (preserves_gets _ _ (fun _ => True))|].
  intros dest_exists' _.
  eapply preserves_bind; [apply preserves_assertTrue|]. intros _ _.
  destruct toSetModTime as [t|]; [|by apply preserves_ret].
  apply preserves_when. intros _. apply setLastModTime_src. by apply Hmod.
Qed.

End SourceKept.

Lemma copy_keeps_source_witness :
  files (sample_world Linux (Some 0%nat)) !! "a.txt" = Some (File ["h"%byte; "i"%byte] 5) /\
  files (copy "a.txt" "d/b.txt" true false true false false false
              (sample_world Linux (Some 0%nat))).1 !! "a.txt"
  = Some (File ["h"%byte; "i"%byte] 5).
Proof.
  split; [by vm_compute|].
  apply (copy_keeps_source "a.txt" (File ["h"%byte; "i"%byte] 5)
           (sample_world Linux (Some 0%nat)) "d/b.txt" true false true false false false).
  by vm_compute.
Defined.

(** *** [warnBetweenDrives] *)

Lemma MoveFileExW_without_copy (w : world) (srcFile destFile : string) (overwrite : bool) :
  let base := Z.lor 0 (if overwrite then 1 else 0) in
  MoveFileExW srcFile destFile (Z.lor base 0) w = (w, Ok (Some 17))
  \/ (MoveFileExW srcFile destFile (Z.lor base 0) w
       = MoveFileExW srcFile destFile (Z.lor base 2) w
       /\ exists w' res,
            MoveFileExW srcFile destFile (Z.lor base 2) w = (w', Ok res)
            /\ match res with
               | Some err => bool_decide (_winErrs err = Some "Different drives") = false
               | None => True
               end).
Proof.
  cbv zeta. unfold MoveFileExW.
  destruct (files w !! srcFile) as [node|]; [|right; split; [done|by eexists _, _]].
  replace (Z.testbit (Z.lor (Z.lor 0 (if overwrite then 1 else 0)) 0) 0)
    with overwrite by (by destruct overwrite).
  replace (Z.testbit (Z.lor (Z.lor 0 (if overwrite then 1 else 0)) 2) 0)
    with overwrite by (by destruct overwrite).
  replace (Z.testbit (Z.lor (Z.lor 0 (if overwrite then 1 else 0)) 0) 1)
    with false by (by destruct overwrite).
  replace (Z.testbit (Z.lor (Z.lor 0 (if overwrite then 1 else 0)) 2) 1)
    with true by (by destruct overwrite).
  destruct (path_exists w destFile && negb overwrite);
    [right; split; [done|by eexists _, _]|].
  destruct (path_exists w destFile && (isDir w destFile || isDir w srcFile));
    [right; split; [done|by eexists _, _]|].
  destruct (bool_decide (is_Some (parent_errno w destFile)));
    [right; split; [done|by eexists _, _]|].
  cbn [negb]. rewrite orb_true_r, orb_false_r.
  destruct (negb (volume w srcFile =? volume w destFile)); [by left|].
  right. split; [done|by eexists _, _].
Qed.

Lemma moveFileWin_rec_false (retries retries' : nat) (w : world)
    (srcFile destFile : string) (overwrite : bool) :
  _moveFileWin_rec retries srcFile destFile overwrite false w
  = _moveFileWin_rec retries' srcFile destFile overwrite false w.
Proof.
  destruct retries, retries'; cbn [_moveFileWin_rec]; unfold bind;
    destruct (MoveFileExW _ _ _ w) as [w' [[err|]|e]]; try done;
    by rewrite andb_false_r.
Qed.

Lemma moveFileWin_warn (w : world) (srcFile destFile : string) (overwrite : bool) :
  _moveFileWin srcFile destFile overwrite true w
  = _moveFileWin srcFile destFile overwrite false w.
Proof.
  unfold _moveFileWin.
  destruct (MoveFileExW_without_copy w srcFile destFile overwrite)
    as [Hdrives|(Hsame & w' & res & Hres & Herr)]; cbv zeta in *.
  - rewrite (moveFileWin_rec_false 1 0 w). cbn [_moveFileWin_rec].
    rewrite (bind_ok _ _ w w (Some 17) Hdrives).
    change (bool_decide (_winErrs 17 = Some "Different drives") && true) with true.
    cbv iota. by erewrite bind_ok by reflexivity.
  - cbn [_moveFileWin_rec]. unfold bind. rewrite Hsame, Hres.
    destruct res as [err|]; [|done]. by rewrite Herr.
Qed.

(** X21.  [warnBetweenDrives] only adds the alert: with it or without it,
    [move] ends in the same world with the same outcome, on every
    platform.  On Windows the first call of [MoveFileExW] is made without
    [MOVEFILE_COPY_ALLOWED]; when it fails for a move between drives, the
    retry is the call that is made at once without the option. *)
Theorem move_warnBetweenDrives_same_outcome (w : world) (srcFile destFile : string)
    (overwrite doTrace allowDirs createParent traceOnly : bool) :
  move srcFile destFile overwrite true doTrace allowDirs createParent traceOnly w
  = move srcFile destFile overwrite false doTrace allowDirs createParent traceOnly w.
Proof.
  unfold move, bind.
  destruct (gets _ w) as [w1 [src_exists|e]]; [|done].
  destruct (negb src_exists); [done|].
  destruct (gets _ w1) as [w2 [src_is_file|e]]; [|done].
  destruct (negb allowDirs && negb src_is_file); [done|].
  destruct (when doTrace trace w2) as [w3 [[]|e]]; [|done].
  destruct traceOnly; [done|].
  destruct (gets platform w3) as [w4 [plat|e]]; [|done].
  destruct (gets _ w4) as [w5 [parent_exists|e]]; [|done].
  destruct (when _ _ w5) as [w6 [[]|e]]; [|done].
  destruct (String.eqb srcFile destFile); [done|].
  destruct (is_win plat); [|done].
  by rewrite moveFileWin_warn.
Qed.

(** *** [deleteSure] *)

(** X22.  [deleteSure] removes a regular file and leaves everything else;
    where nothing exists it returns at once; a directory makes it raise
    the error of [os.unlink], with the directory left in place.  Its own
    assertion at the end never fails. *)
Theorem deleteSure_outcome (w : world) (s : string) (doTrace : bool) :
  deleteSure s doTrace w
  = match files w !! s with
    | None => (w, Ok tt)
    | Some (File _ _) => (with_files w (delete s (files w)), Ok tt)
    | Some Dir => (w, Raise (OSError 21))
    end.
Proof.
  unfold deleteSure. step_ok.
  destruct (files w !! s) as [[content mtime|]|] eqn:Hs.
  - rewrite (path_exists_lookup _ _ _ Hs). cbn [when].
    erewrite bind_ok.
    2:{ unfold delete_file. erewrite bind_ok by apply when_trace.
        unfold os_unlink. by rewrite Hs. }
    step_ok. unfold path_exists. cbn [files with_files].
    rewrite lookup_delete_eq. by rewrite bool_decide_eq_false_2 by (by intros [? ?]).
  - rewrite (path_exists_lookup _ _ _ Hs). cbn [when].
    erewrite bind_raise; [done|].
    unfold delete_file. erewrite bind_ok by apply when_trace.
    unfold os_unlink. by rewrite Hs.
  - rewrite (path_exists_none _ _ Hs). cbn [when]. step_ok. step_ok.
    by rewrite (path_exists_none _ _ Hs).
Qed.

(** ** [makeDirs] *)

Lemma rev_app_length (a : string) :
  forall z, String.length (String.rev_app a z) = (String.length a + String.length z)%nat.
Proof.
  induction a as [|x a IH]; intros z; cbn [String.rev_app String.length]; [done|].
  rewrite IH. cbn [String.length]. lia.
Qed.

Lemma rstrip_sep_length (plat : sys_platform) (s : string) :
  (String.length (rstrip_sep plat s) <= String.length s)%nat.
Proof.
  unfold rstrip_sep, String.rev.
  set (strip := fix strip (r : string) : string :=
                  match r with
                  | String c r' => if is_sep plat c then strip r' else r
                  | EmptyString => EmptyString
                  end).
  assert (Hstrip : forall r, (String.length (strip r) <= String.length r)%nat).
  { induction r as [|c r IH]; cbn [strip String.length]; [done|].
    destruct (is_sep plat c); cbn [String.length]; lia. }
  rewrite rev_app_length. specialize (Hstrip (String.rev_app s "")).
  rewrite rev_app_length in Hstrip. cbn [String.length] in *. lia.
Qed.

Lemma os_path_split_length (plat : sys_platform) (p head tail : string) :
  os_path_split plat p = (head, tail) ->
  (String.length head + String.length tail <= String.length p)%nat.
Proof.
  unfold os_path_split. set (i := rfind (is_sep plat) p + 1).
  pose proof (f_equal String.length (slice_split i p)) as Hlen.
  rewrite str_length_app in Hlen.
  pose proof (rstrip_sep_length plat (slice_to i p)).
  destruct (_ && _); intros [= <- <-]; lia.
Qed.

Lemma os_mkdir_raises (name : string) (w : world) (e : exn) :
  (os_mkdir name w).2 = Raise e -> exists errno, e = OSError errno.
Proof.
  unfold os_mkdir. destruct (String.eqb name ""); [intros [= <-]; by eexists|].
  destruct (path_exists w name); [intros [= <-]; by eexists|].
  destruct (parent_errno w name); [intros [= <-]; by eexists|done].
Qed.

(** With the length of the path as depth, [os.makedirs] does not run out
    of depth: what it raises is an [OSError]. *)
Lemma os_makedirs_raises (depth : nat) :
  forall (name : string) (w : world) (e : exn),
    (String.length name <= depth)%nat ->
    (os_makedirs depth name w).2 = Raise e ->
    exists errno, e = OSError errno.
Proof.
  induction depth as [|depth IH]; intros name w e Hlen; cbn [os_makedirs];
    destruct (os_path_split (platform w) name) as [head tail] eqn:Hsplit;
    destruct (if String.eqb tail "" then os_path_split (platform w) head
              else (head, tail)) as [head' tail'] eqn:Hsplit';
    destruct (negb (String.eqb head' "") && negb (String.eqb tail' "")
              && negb (path_exists w head')) eqn:Hcond;
    try apply os_mkdir_raises.
  - destruct name; [|cbn [String.length] in Hlen; lia].
    injection Hsplit as <- <-. by injection Hsplit' as <- <-.
  - assert (Hhead : (String.length head' <= depth)%nat).
    { apply andb_true_iff in Hcond as [[_ Htail]%andb_true_iff _].
      apply negb_true_iff, String.eqb_neq in Htail.
      assert (0 < String.length tail')%nat by (destruct tail'; [done|cbn; lia]).
      pose proof (os_path_split_length _ _ _ _ Hsplit).
      destruct (String.eqb tail "").
      - pose proof (os_path_split_length _ _ _ _ Hsplit'). lia.
      - injection Hsplit' as <- <-. lia. }
    specialize (IH head' w).
    destruct (os_makedirs depth head' w) as [w' [[]|e']]; cbn [snd] in *.
    + destruct (String.eqb tail' "."); [done|apply os_mkdir_raises].
    + destruct (IH e' Hhead eq_refl) as [errno ->].
      destruct (errno =? 17) eqn:Herr.
      * apply Z.eqb_eq in Herr as ->.
        destruct (String.eqb tail' "."); [done|apply os_mkdir_raises].
      * assert (Hother : forall r : world * result unit,
                  match errno with
                  | 17 => r
                  | _ => (w', Raise (OSError errno))
                  end = (w', Raise (OSError errno))).
        { intros r. apply Z.eqb_neq in Herr.
          repeat (match goal with
                  | |- context [match ?x with _ => _ end] =>
                      is_var x; destruct x; try done
                  end). }
        rewrite Hother. intros [= <-]. by eexists.
Qed.

(** X23.  [makeDirs] never alters or removes an entry that exists,
    whether it returns or raises; and on a directory that exists it
    returns normally ("OK if dir already exists"). *)
Theorem makeDirs_existing (w : world) (s : string) :
  (forall p node, files w !! p = Some node -> files (makeDirs s w).1 !! p = Some node)
  /\ (isDir w s = true -> (makeDirs s w).2 = Ok tt).
Proof.
  split; [intros p node Hp; by apply (makeDirs_kept p node s w)|].
  intros Hdir.
  assert (Hs : files w !! s = Some Dir).
  { unfold isDir in Hdir. by destruct (files w !! s) as [[]|]. }
  unfold makeDirs.
  pose proof (os_makedirs_kept s Dir (String.length s) s w Hs) as [Hkept _].
  pose proof (os_makedirs_raises (String.length s) s w) as Hraises.
  destruct (os_makedirs (String.length s) s w) as [w' [[]|e]]; [done|].
  destruct (Hraises e ltac:(lia) eq_refl) as [errno ->]. cbn [isinstance_OSError].
  unfold isDir. cbn [fst] in Hkept. by rewrite Hkept.
Qed.

Lemma makeDirs_existing_witness :
  isDir (sample_world Linux None) "d" = true /\
  (makeDirs "d" (sample_world Linux None)).2 = Ok tt /\
  (makeDirs "a.txt/x" (sample_world Linux None)).2 = Raise (OSError 20) /\
  files (makeDirs "a.txt/x" (sample_world Linux None)).1 !! "a.txt"
  = Some (File ["h"%byte; "i"%byte] 5).
Proof.
  split; [reflexivity|].
  split; [by apply (proj2 (makeDirs_existing (sample_world Linux None) "d"))|].
  split; [by vm_compute|].
  apply (proj1 (makeDirs_existing (sample_world Linux None) "a.txt/x")).
  by vm_compute.
Defined.

(** *** Creating a chain of directories *)

Lemma dir_chain_snoc (plat : sys_platform) (names : list string) :
  forall g name,
    dir_chain plat g (names ++ [name])
    = dir_chain plat g names ++ [join plat (foldl (join plat) g names) name].
Proof.
  induction names as [|n names IH]; intros g name; cbn [dir_chain app foldl]; [done|].
  by rewrite IH.
Qed.

Lemma with_dirs_snoc (fs : fsmap) (paths : list string) (p : string) :
  with_dirs fs (paths ++ [p]) = <[p := Dir]> (with_dirs fs paths).
Proof. unfold with_dirs. by rewrite foldl_app. Qed.

Lemma with_dirs_lookup_elem (paths : list string) :
  forall (fs : fsmap) (p : string), p ∈ paths -> with_dirs fs paths !! p = Some Dir.
Proof.
  induction paths as [|q paths IH] using rev_ind; intros fs p Hp;
    [by apply elem_of_nil in Hp|].
  rewrite with_dirs_snoc. apply elem_of_app in Hp as [Hp|Hp%list_elem_of_singleton].
  - destruct (decide (q = p)) as [->|Hne]; [by rewrite lookup_insert_eq|].
    rewrite lookup_insert_ne by done. by apply IH.
  - subst. by rewrite lookup_insert_eq.
Qed.

Lemma with_dirs_lookup_other (paths : list string) :
  forall (fs : fsmap) (p : string), p ∉ paths -> with_dirs fs paths !! p = fs !! p.
Proof.
  induction paths as [|q paths IH] using rev_ind; intros fs p Hp; [done|].
  rewrite with_dirs_snoc. apply not_elem_of_app in Hp as [Hp Hq].
  rewrite lookup_insert_ne by (intros ->; apply Hq; by left). by apply IH.
Qed.

Lemma dir_name_first (plat : sys_platform) (name : string) :
  dir_name plat name ->
  exists x rest, name = String x rest /\ is_sep plat x = false.
Proof.
  intros (Hne & _ & Hsep). destruct name as [|x rest]; [done|].
  exists x, rest. split; [done|].
  cbn [str_forallb] in Hsep. apply andb_true_iff in Hsep as [Hx _].
  by apply negb_true_iff in Hx.
Qed.

(** Joining a name to a plain directory path gives a longer plain path
    that is not empty and does not consist of separators. *)
Lemma join_dir_name (plat : sys_platform) (d name : string) :
  plain_dir plat d ->
  dir_name plat name ->
  (exists d' c, join plat d name = d' +:+ String c "" /\ is_sep plat c = false)
  /\ (String.length d < String.length (join plat d name))%nat.
Proof.
  intros Hd Hname.
  destruct (dir_name_first plat name Hname) as (x & rest & -> & Hx).
  rewrite join_plain by done.
  destruct Hname as (Hne & _ & Hsep).
  destruct (str_last_decomp _ Hne) as (n0 & c & Hlast).
  assert (Hc : is_sep plat c = false).
  { rewrite Hlast, str_forallb_app in Hsep. apply andb_true_iff in Hsep as [_ Hsep].
    cbn [str_forallb] in Hsep. apply andb_true_iff in Hsep as [Hc _].
    by apply negb_true_iff in Hc. }
  destruct (String.eqb d "") eqn:Hd0.
  - apply String.eqb_eq in Hd0 as ->. split; [by exists n0, c|cbn; lia].
  - split.
    + exists (d +:+ os_sep plat +:+ n0), c. split; [|done].
      by rewrite Hlast, !str_app_assoc.
    + rewrite !str_length_app. cbn [String.length]. lia.
Qed.

Lemma plain_not_seps (plat : sys_platform) (d : string) :
  (exists d' c, d = d' +:+ String c "" /\ is_sep plat c = false) ->
  String.eqb d "" = false /\ str_forallb (is_sep plat) d = false.
Proof.
  intros (d' & c & -> & Hc). split.
  - apply String.eqb_neq. by destruct d'.
  - by apply str_forallb_false.
Qed.

Lemma foldl_join_plain (plat : sys_platform) (names : list string) :
  forall g,
    plain_dir plat g -> Forall (dir_name plat) names ->
    plain_dir plat (foldl (join plat) g names).
Proof.
  induction names as [|n names IH]; intros g Hg Hnames; [done|].
  apply Forall_cons in Hnames as [Hn Hnames]. cbn [foldl]. apply IH; [|done].
  right. by apply join_dir_name.
Qed.

Lemma dir_chain_lengths (plat : sys_platform) (names : list string) :
  forall g q,
    plain_dir plat g -> Forall (dir_name plat) names ->
    q ∈ dir_chain plat g names ->
    (String.length g < String.length q
     /\ String.length q <= String.length (foldl (join plat) g names))%nat.
Proof.
  induction names as [|n names IH]; intros g q Hg Hnames Hq;
    [by apply elem_of_nil in Hq|].
  apply Forall_cons in Hnames as [Hn Hnames]. cbn [dir_chain foldl] in *.
  destruct (join_dir_name plat g n Hg Hn) as [Hplain Hlen].
  assert (Hmono : forall names' g', plain_dir plat g' -> Forall (dir_name plat) names' ->
            (String.length g' <= String.length (foldl (join plat) g' names'))%nat).
  { clear. induction names' as [|n' names' IH']; intros g' Hg' Hn'; [done|].
    apply Forall_cons in Hn' as [Hn' Hnames']. cbn [foldl].
    destruct (join_dir_name plat g' n' Hg' Hn') as [Hplain' Hlen'].
    specialize (IH' (join plat g' n') (or_intror Hplain') Hnames'). lia. }
  apply elem_of_cons in Hq as [->|Hq].
  - split; [done|]. apply Hmono; [by right|done].
  - destruct (IH (join plat g n) q (or_intror Hplain) Hnames Hq). lia.
Qed.

Lemma os_mkdir_under (w : world) (path parent : string) :
  path <> "" ->
  files w !! path = None ->
  getParent (platform w) path = parent ->
  parent = ""
  \/ (str_forallb (is_sep (platform w)) parent = false /\ files w !! parent = Some Dir) ->
  os_mkdir path w = (with_files w (<[path := Dir]> (files w)), Ok tt).
Proof.
  intros Hne Habsent Hparent Hdir. unfold os_mkdir, parent_errno.
  rewrite (eqb_neq _ _ Hne), (path_exists_none _ _ Habsent), Hparent.
  destruct Hdir as [->|[Hseps Hdir]]; [done|].
  rewrite Hseps, Hdir. by destruct (String.eqb parent "").
Qed.

Lemma os_makedirs_leaf (depth : nat) (w : world) (name head tail : string) :
  os_path_split (platform w) name = (head, tail) ->
  tail <> "" ->
  head = "" \/ path_exists w head = true ->
  os_makedirs depth name w = os_mkdir name w.
Proof.
  intros Hsplit Htail Hhead.
  assert (Hcond : negb (String.eqb head "") && negb (String.eqb tail "")
                  && negb (path_exists w head) = false).
  { destruct Hhead as [-> | ->]; [done|]. by rewrite andb_false_r. }
  destruct depth; cbn [os_makedirs]; rewrite Hsplit, (eqb_neq _ _ Htail); cbv iota beta;
    by rewrite Hcond.
Qed.

Lemma os_makedirs_step (depth : nat) (w w' : world) (name head tail : string) :
  os_path_split (platform w) name = (head, tail) ->
  tail <> "" -> tail <> "." ->
  head <> "" ->
  path_exists w head = false ->
  os_makedirs depth head w = (w', Ok tt) ->
  os_makedirs (S depth) name w = os_mkdir name w'.
Proof.
  intros Hsplit Htail Hdot Hhead Habsent Hrec. cbn [os_makedirs].
  rewrite Hsplit, (eqb_neq _ _ Htail). cbv iota beta.
  rewrite ?(eqb_neq _ _ Htail), (eqb_neq _ _ Hhead), Habsent. cbn [negb andb].
  by rewrite Hrec, (eqb_neq _ _ Hdot).
Qed.

Lemma foldl_join_elem (plat : sys_platform) (names : list string) :
  forall g, names <> [] -> foldl (join plat) g names ∈ dir_chain plat g names.
Proof.
  induction names as [|n names IH]; intros g Hne; [done|]. cbn [foldl dir_chain].
  destruct names as [|n' names]; [by left|]. right. by apply IH.
Qed.

Lemma foldl_join_length (plat : sys_platform) (names : list string) :
  forall g,
    plain_dir plat g -> Forall (dir_name plat) names ->
    (length names + String.length g <= String.length (foldl (join plat) g names))%nat.
Proof.
  induction names as [|n names IH]; intros g Hg Hnames; [done|].
  apply Forall_cons in Hnames as [Hn Hnames]. cbn [foldl length].
  destruct (join_dir_name plat g n Hg Hn) as [Hplain Hlen].
  specialize (IH (join plat g n) (or_intror Hplain) Hnames). lia.
Qed.

Lemma os_makedirs_chain (names : list string) :
  names <> [] ->
  forall (depth : nat) (w : world) (g : string),
    plain_dir (platform w) g ->
    g = "" \/ isDir w g = true ->
    Forall (dir_name (platform w)) names ->
    Forall (fun p => files w !! p = None) (dir_chain (platform w) g names) ->
    (length names <= S depth)%nat ->
    os_makedirs depth (foldl (join (platform w)) g names) w
    = (with_files w (with_dirs (files w) (dir_chain (platform w) g names)), Ok tt).
Proof.
  induction names as [|n ns IH] using rev_ind; [done|]. intros _.
  intros depth w g Hg Hroot Hnames Habsent Hdepth.
  set (plat := platform w) in *.
  apply Forall_app in Hnames as [Hns Hn]. rewrite Forall_singleton in Hn.
  rewrite dir_chain_snoc in *. rewrite foldl_app. cbn [foldl].
  set (P := foldl (join plat) g ns) in *. set (path := join plat P n) in *.
  apply Forall_app in Habsent as [Habsent Hpath]. rewrite Forall_singleton in Hpath.
  pose proof (foldl_join_plain plat ns g Hg Hns) as HP. fold P in HP.
  destruct (join_dir_name plat P n HP Hn) as [Hplain Hlen]. fold path in Hplain, Hlen.
  destruct Hn as (Hn0 & Hdot & Hsep).
  destruct (join_split plat P n HP Hn0 Hsep) as [Hparent Hname].
  fold path in Hparent, Hname.
  assert (Hsplit : os_path_split plat path = (P, n)).
  { unfold getParent, getName in *. destruct (os_path_split plat path). simpl in *.
    congruence. }
  assert (Hne : path <> "") by (intros Heq; rewrite Heq in Hlen; cbn in Hlen; lia).
  destruct (decide (ns = [])) as [->|Hns0].
  - cbn [dir_chain app]. unfold with_dirs. cbn [foldl] in *. subst P.
    rewrite (os_makedirs_leaf depth w path g n Hsplit Hn0).
    2:{ destruct Hroot as [->|Hdir]; [by left|right].
        unfold isDir in Hdir. unfold path_exists.
        destruct (files w !! g) as [[]|]; done || by apply bool_decide_eq_true_2. }
    apply (os_mkdir_under w path g Hne Hpath Hparent).
    destruct Hg as [->|Hg]; [by left|].
    destruct Hroot as [->|Hdir]; [by left|right].
    split; [by apply plain_not_seps|].
    unfold isDir in Hdir. by destruct (files w !! g) as [[]|].
  - pose proof (foldl_join_elem plat ns g Hns0) as HPin. fold P in HPin.
    destruct (dir_chain_lengths plat ns g P Hg Hns HPin) as [HgP _].
    assert (HPplain : exists d' c, P = d' +:+ String c "" /\ is_sep plat c = false).
    { destruct HP as [HP|HP]; [|done]. rewrite HP in HgP. cbn in HgP. lia. }
    destruct (plain_not_seps plat P HPplain) as [HP0%String.eqb_neq HPseps].
    rewrite Forall_forall in Habsent.
    destruct depth as [|depth]; [destruct ns; [done|]; rewrite length_app in Hdepth;
                                 cbn [length] in Hdepth; lia|].
    assert (Hrec : os_makedirs depth P w
              = (with_files w (with_dirs (files w) (dir_chain plat g ns)), Ok tt)).
    { apply IH; try done; [by apply Forall_forall|].
      rewrite length_app in Hdepth. cbn [length] in Hdepth. lia. }
    rewrite (os_makedirs_step depth w _ path P n Hsplit Hn0 Hdot HP0
               (path_exists_none _ _ (Habsent P HPin)) Hrec).
    rewrite with_dirs_snoc.
    set (w1 := with_files w (with_dirs (files w) (dir_chain plat g ns))).
    change (with_files w (<[path:=Dir]> (with_dirs (files w) (dir_chain plat g ns))))
      with (with_files w1 (<[path:=Dir]> (files w1))).
    apply (os_mkdir_under w1 path P Hne); cbn [w1 files with_files platform].
    + rewrite with_dirs_lookup_other; [done|]. intros Hin.
      destruct (dir_chain_lengths plat ns g path Hg Hns Hin). fold P in H0. lia.
    + done.
    + right. split; [done|]. by apply with_dirs_lookup_elem.
Qed.

(** X24.  [makeDirs] "creates parent directory(s) if needed": for a path
    that goes from an existing directory (or from the current one) down
    through names none of which exists yet, it returns normally, each
    directory on the way is there afterwards, and nothing else changes. *)
Theorem makeDirs_creates_chain (w : world) (g : string) (names : list string) :
  plain_dir (platform w) g ->
  g = "" \/ isDir w g = true ->
  names <> [] ->
  Forall (dir_name (platform w)) names ->
  Forall (fun p => files w !! p = None) (dir_chain (platform w) g names) ->
  makeDirs (foldl (join (platform w)) g names) w
  = (with_files w (with_dirs (files w) (dir_chain (platform w) g names)), Ok tt).
Proof.
  intros Hg Hroot Hne Hnames Habsent. unfold makeDirs.
  rewrite (os_makedirs_chain names Hne _ w g Hg Hroot Hnames Habsent); [done|].
  pose proof (foldl_join_length (platform w) names g Hg Hnames). lia.
Qed.

Lemma makeDirs_creates_chain_witness :
  isDir (sample_world Linux None) "d" = true /\
  makeDirs "d/x/y" (sample_world Linux None)
  = (with_files (sample_world Linux None)
       (<["d/x/y" := Dir]> (<["d/x" := Dir]> sample_files)), Ok tt).
Proof.
  split; [reflexivity|].
  apply (makeDirs_creates_chain (sample_world Linux None) "d" ["x"; "y"]).
  - right. exists "", "d"%char. split; reflexivity.
  - right. reflexivity.
  - discriminate.
  - repeat constructor; discriminate.
  - repeat constructor.
Defined.

(** ** [openUrl] *)

Lemma replace_char_app (old : ascii) (new a b : string) :
  replace_char old new (a +:+ b) = replace_char old new a +:+ replace_char old new b.
Proof.
  induction a as [|c a IH]; [done|].
  rewrite str_app_cons. cbn [replace_char]. by rewrite IH, str_app_assoc.
Qed.

Lemma url_filter_safe (s : string) :
  str_forallb (fun c => negb (url_risky c))
    (replace_char " " "%20"
       (replace_char "<" "%3C"
          (replace_char ">" "%3E"
             (replace_char "'" "%27"
                (replace_char "034" "%22"
                   (replace_char "^" "%5E"
                      (replace_char "\" "%5C"
                         (replace_char "|" "%7C"
                            (replace_char "&" "%26"
                               (replace_char "%" "%25" s)))))))))) = true.
Proof.
  induction s as [|c s IH]; [done|].
  cbn [replace_char]. rewrite !replace_char_app, str_forallb_app, IH, andb_true_r.
  clear. destruct c as [[] [] [] [] [] [] [] []]; by vm_compute.
Qed.

(** X26.  [openUrl] opens nothing but [http://] and [https://] URLs, and
    when it filters (the default) the part after the scheme reaches the
    browser without ampersand, bar, backslash, caret, quote, angle
    bracket or space. *)
Theorem openUrl_filtered (url : string) :
  match openUrl url true with
  | Ok opened =>
      exists prefix rest,
        (prefix = "http://" \/ prefix = "https://")
        /\ String.prefix prefix url = true
        /\ opened = prefix +:+ rest
        /\ str_forallb (fun c => negb (url_risky c)) rest = true
  | Raise e =>
      String.prefix "http://" url = false /\ String.prefix "https://" url = false
  end.
Proof.
  unfold openUrl.
  destruct (String.prefix "http://" url) eqn:Hhttp;
    [|destruct (String.prefix "https://" url) eqn:Hhttps; [|done]]; cbv zeta.
  - eexists "http://", _. split; [by left|]. split; [done|]. split; [done|].
    apply url_filter_safe.
  - eexists "https://", _. split; [by right|]. split; [done|]. split; [done|].
    apply url_filter_safe.
Qed.

(** *** [createParent] *)

(** The platform's copy helper on a free destination below an existing
    directory. *)
Lemma copy_helper_free (w : world) (srcFile destFile : string)
    (content : bytes) (mtime : Z) (overwrite : bool) :
  files w !! srcFile = Some (File content mtime) ->
  files w !! destFile = None ->
  parent_errno w destFile = None ->
  read_fault w = None ->
  (if is_win (platform w) then _copyFileWin srcFile destFile overwrite
   else _copyFilePosix srcFile destFile overwrite) w
  = (with_files w
       (<[destFile := File content (if is_win (platform w) then mtime else clock w)]>
          (files w)), Ok tt).
Proof.
  intros Hsrc Hdst Hparent Hfault.
  assert (Hne : srcFile <> destFile) by congruence.
  destruct (is_win (platform w)).
  - unfold _copyFileWin, bind, CopyFileW. by rewrite Hsrc, Hdst, Hparent.
  - unfold _copyFilePosix. destruct overwrite.
    + unfold shutil_copy.
      rewrite (isDir_none _ _ Hdst), Hsrc, (eqb_neq _ _ Hne), Hparent. cbv zeta.
      rewrite (isDir_none _ _ Hdst). by apply stream_into_complete.
    + erewrite bind_ok;
        [|unfold os_open_excl; by rewrite (path_exists_none _ _ Hdst), Hparent].
      simpl. rewrite lookup_insert_ne, Hsrc by done.
      rewrite stream_into_complete by done. simpl. by rewrite insert_insert_eq.
Qed.

(** X25.  [copy] with [createParent]: when the directories on the way to
    the destination do not exist below an existing directory (or the
    current one), they are created, the file is copied into the last of
    them, and nothing else changes. *)
Theorem copy_creates_parents (w : world) (srcFile g : string) (names : list string)
    (fname : string) (content : bytes) (mtime : Z)
    (overwrite doTrace keepSameModifiedTime allowDirs : bool) :
  let plat := platform w in
  let destFile := join plat (foldl (join plat) g names) fname in
  files w !! srcFile = Some (File content mtime) ->
  plain_dir plat g ->
  g = "" \/ isDir w g = true ->
  names <> [] ->
  Forall (dir_name plat) names ->
  dir_name plat fname ->
  Forall (fun p => files w !! p = None) (dir_chain plat g names) ->
  files w !! destFile = None ->
  read_fault w = None ->
  copy srcFile destFile overwrite doTrace keepSameModifiedTime allowDirs true false w
  = (with_files w
       (<[destFile := File content (if is_win plat then mtime else clock w)]>
          (with_dirs (files w) (dir_chain plat g names))),
     Ok tt).
Proof.
  intros plat destFile Hsrc Hg Hroot Hne Hnames Hfname Habsent Hdst Hfault.
  set (parent := foldl (join plat) g names) in *.
  set (chain := dir_chain plat g names) in *.
  pose proof (foldl_join_plain plat names g Hg Hnames) as Hplain. fold parent in Hplain.
  pose proof (foldl_join_elem plat names g Hne) as Hin. fold parent chain in Hin.
  destruct (join_dir_name plat parent fname Hplain Hfname) as [_ Hlen].
  fold destFile in Hlen.
  destruct Hfname as (Hf0 & _ & Hfsep).
  destruct (join_split plat parent fname Hplain Hf0 Hfsep) as [Hparent _].
  fold destFile in Hparent.
  rewrite Forall_forall in Habsent.
  assert (Hmk : makeDirs parent w = (with_files w (with_dirs (files w) chain), Ok tt)).
  { unfold makeDirs, parent.
    rewrite (os_makedirs_chain names Hne _ w g Hg Hroot Hnames
               (proj2 (Forall_forall _ _) Habsent)); [done|].
    pose proof (foldl_join_length plat names g Hg Hnames). fold plat. lia. }
  set (w1 := with_files w (with_dirs (files w) chain)) in *.
  assert (Hsrc1 : files w1 !! srcFile = Some (File content mtime)).
  { cbn [w1 files with_files]. rewrite with_dirs_lookup_other; [done|].
    intros Hc. apply Habsent in Hc. congruence. }
  assert (Hdst1 : files w1 !! destFile = None).
  { cbn [w1 files with_files]. rewrite with_dirs_lookup_other; [done|].
    intros Hc. destruct (dir_chain_lengths plat names g destFile Hg Hnames Hc).
    fold parent in H0. lia. }
  assert (Hparent1 : parent_errno w1 destFile = None).
  { unfold parent_errno. cbn [w1 platform with_files files]. fold plat.
    rewrite Hparent, (with_dirs_lookup_elem chain (files w) parent Hin).
    by destruct (_ || _). }
  assert (HsrcDir : isDir w srcFile = false) by (unfold isDir; by rewrite Hsrc).
  assert (Hne' : srcFile <> destFile) by congruence.
  unfold copy.
  step_ok. rewrite (isFile_lookup _ _ _ _ Hsrc). cbn [negb].
  step_ok. rewrite HsrcDir, andb_false_r.
  step_ok. rewrite (path_exists_none _ _ Hdst), andb_false_r.
  step_ok. erewrite bind_ok by apply when_trace.
  step_ok. step_ok. fold plat. rewrite Hparent.
  rewrite (path_exists_none _ _ (Habsent parent Hin)). cbn [negb andb when].
  erewrite bind_ok by apply Hmk.
  rewrite (eqb_neq _ _ Hne').
  erewrite bind_ok by (by apply (copy_helper_free w1 srcFile destFile content mtime)).
  step_ok. unfold path_exists. cbn [files with_files].
  rewrite lookup_insert_eq. by rewrite bool_decide_eq_true_2.
Qed.

Lemma copy_creates_parents_witness :
  files (sample_world Linux None) !! "a.txt" = Some (File ["h"%byte; "i"%byte] 5) /\
  copy "a.txt" "d/x/y/c.txt" false false false false true false (sample_world Linux None)
  = (with_files (sample_world Linux None)
       (<["d/x/y/c.txt" := File ["h"%byte; "i"%byte] 100]>
          (<["d/x/y" := Dir]> (<["d/x" := Dir]> sample_files))), Ok tt).
Proof.
  split; [by vm_compute|].
  apply (copy_creates_parents (sample_world Linux None) "a.txt" "d" ["x"; "y"] "c.txt"
           ["h"%byte; "i"%byte] 5 false false false false).
  - by vm_compute.
  - right. exists "", "d"%char. split; reflexivity.
  - right. reflexivity.
  - discriminate.
  - repeat constructor; discriminate.
  - repeat constructor; discriminate.
  - repeat constructor.
  - by vm_compute.
  - reflexivity.
Defined.
